(** * PPTist import pipeline ([src/hooks/useImport.ts])

    A shallow embedding of the raw-deck to slide conversion: the geometry
    helpers ([rotateLine], [flipGroupElements], [calculateRotatedPosition]),
    the line converter [parseLineElement], the recursive flattener
    [parseElements] and the slide assembler [processSlidesFromRawData].

    Conventions of the embedding.
    - A JavaScript [number] is an exact rational ([Q]); equalities between
      numbers are stated with [==].  Rounding of binary floating point is
      outside the model.  The two divisions whose divisor can be zero (the
      total of the column widths of a table, the height of the range of a
      raw path) are written with [jsDiv], whose result may be [NaN] or
      infinite; every other divisor is a non-zero constant or is guarded
      by the code.
    - An optional property ([rotate?], [shadow?], [path?]) is an [option];
      JavaScript truthiness is written out ([truthy], [truthyS], ...).
    - The store, the id generator, the DOM, the trigonometric functions and
      the shape tables are collaborators of the hook that are not part of
      this file of the repository: they are the fields of [Externals].
    - Effects (ids drawn, store mutations, notifications, thrown
      [TypeError]s) are threaded through the monad [M]. *)

From Stdlib Require Import QArith Qround Qabs Qminmax ZArith List String Ascii Bool Lia Lqa.
From Stdlib Require Import DecimalString.
From Stdlib Require Import Sorted Permutation.
From Stdlib Require Floats.
Import ListNotations.
Local Open Scope string_scope.
Local Open Scope Q_scope.

Set Implicit Arguments.

(* ------------------------------------------------------------------ *)
(** ** Numbers *)

(** [if (x)] on a number: zero is falsy. *)
Definition truthy (x : Q) : bool := negb (Qeq_bool x 0).

(** [x || d] on numbers. *)
Definition orElse (x d : Q) : Q := if truthy x then x else d.

(** [if (x)] on an optional number: [undefined] and zero are falsy. *)
Definition truthyO (x : option Q) : bool :=
  match x with Some q => truthy q | None => false end.

(** [if (b)] on an optional boolean. *)
Definition truthyB (x : option bool) : bool :=
  match x with Some b => b | None => false end.

(** [a > b] *)
Definition Qgtb (a b : Q) : bool := negb (Qle_bool a b).

(** [Math.abs] *)
Definition Math_abs (x : Q) : Q := Qabs x.

(** [Math.min(a, b)], [Math.max(a, b)] *)
Definition Math_min (a b : Q) : Q := if Qle_bool a b then a else b.
Definition Math_max (a b : Q) : Q := if Qle_bool a b then b else a.

(** [Math.min(...l)] and [Math.max(...l)] of a non-empty array [x :: l]. *)
Definition Math_min_list (x : Q) (l : list Q) : Q := fold_left Math_min l x.
Definition Math_max_list (x : Q) (l : list Q) : Q := fold_left Math_max l x.

(** The integer [n] for which [n / 10^d - x] is closest to zero, the larger
    one on a tie ([Number.prototype.toFixed], for [x >= 0]). *)
Definition roundScaled (d : nat) (x : Q) : Z :=
  Qfloor (x * inject_Z (10 ^ Z.of_nat d) + (1 # 2)).

(** [+x.toFixed(d)]: the number denoted by the string [x.toFixed(d)].
    [toFixed] rounds the magnitude and prefixes the sign. *)
Definition toFixedNum (d : nat) (x : Q) : Q :=
  if Qle_bool 0 x
  then inject_Z (roundScaled d x) / inject_Z (10 ^ Z.of_nat d)
  else - (inject_Z (roundScaled d (- x)) / inject_Z (10 ^ Z.of_nat d)).

(** The result of a division whose divisor may be zero. *)
Inductive JsNumber :=
| Finite (q : Q)
| NaN
| Infinity
| NegInfinity.

(** [a / b] *)
Definition jsDiv (a b : Q) : JsNumber :=
  if Qeq_bool b 0 then
    if Qeq_bool a 0 then NaN
    else if Qle_bool 0 a then Infinity else NegInfinity
  else Finite (a / b).

(** [x > c] for a finite [c]: false on [NaN]. *)
Definition jsGt (x : JsNumber) (c : Q) : bool :=
  match x with
  | Finite q => Qgtb q c
  | Infinity => true
  | NaN | NegInfinity => false
  end.

(* ------------------------------------------------------------------ *)
(** ** Strings *)

(** [if (s)] on a string: the empty string is falsy. *)
Definition truthyS (s : string) : bool :=
  match s with EmptyString => false | _ => true end.

(** [if (s)] on an optional string. *)
Definition truthyOS (s : option string) : bool :=
  match s with Some s => truthyS s | None => false end.

(** [a || b] on strings. *)
Definition orElseS (a d : string) : string := if truthyS a then a else d.

(** [s.startsWith(p)] *)
Definition startsWith (p s : string) : bool := String.prefix p s.

(** [s.includes(p)], also [/p/.test(s)] for a pattern of plain letters. *)
Fixpoint includes (p s : string) : bool :=
  if String.prefix p s then true
  else match s with
       | EmptyString => false
       | String _ s' => includes p s'
       end.

(** [s.replace(/p/g, r)] for a non-empty pattern of plain letters: scan left
    to right, at a match emit [r] and skip the match. *)
Fixpoint replaceAllFrom (fuel : nat) (p r s : string) : string :=
  match fuel with
  | O => s
  | S fuel' =>
      if String.prefix p s
      then r ++ replaceAllFrom fuel' p r
             (String.substring (String.length p) (String.length s - String.length p) s)
      else match s with
           | EmptyString => EmptyString
           | String c s' => String c (replaceAllFrom fuel' p r s')
           end
  end.

Definition replaceAll (p r s : string) : string :=
  replaceAllFrom (S (String.length s)) p r s.

(** Decimal digits of a natural number. *)
Definition string_of_nat (n : nat) : string :=
  NilZero.string_of_uint (Nat.to_uint n).

Definition string_of_Z (z : Z) : string :=
  NilZero.string_of_int (Z.to_int z).

(** [s.padStart(n, '0')] *)
Fixpoint zeros (n : nat) : string :=
  match n with O => EmptyString | S n' => String "0" (zeros n') end.

Definition padZeros (n : nat) (s : string) : string :=
  zeros (n - String.length s) ++ s.

(** [x.toFixed(d)] as a string, for [d >= 1]. *)
Definition toFixed (d : nat) (x : Q) : string :=
  let neg := negb (Qle_bool 0 x) in
  let n := roundScaled d (if neg then - x else x) in
  let p := (10 ^ Z.of_nat d)%Z in
  (if neg then "-" else "") ++ string_of_Z (n / p)%Z ++ "." ++
  padZeros d (string_of_Z (n mod p)%Z).

(** Character classes of the regular expressions used by the hook
    (digits, white space on ASCII input, anything but a double quote). *)
Definition isDigit (c : ascii) : bool :=
  let n := nat_of_ascii c in (Nat.leb 48 n && Nat.leb n 57)%bool.

Definition isDigitOrDot (c : ascii) : bool :=
  (isDigit c || Ascii.eqb c ".")%bool.

Definition isSpace (c : ascii) : bool :=
  let n := nat_of_ascii c in
  (Nat.eqb n 32 || (Nat.leb 9 n && Nat.leb n 13))%bool.

Definition quoteChar : ascii := ascii_of_nat 34.

Definition notQuote (c : ascii) : bool := negb (Ascii.eqb c quoteChar).

(** The longest prefix of characters in a class, and the rest. *)
Fixpoint span (p : ascii -> bool) (s : string) : string * string :=
  match s with
  | EmptyString => (EmptyString, EmptyString)
  | String c s' =>
      if p c then let (a, b) := span p s' in (String c a, b)
      else (EmptyString, s)
  end.

(** [s] without its first [n] characters. *)
Fixpoint drop (n : nat) (s : string) : string :=
  match n, s with
  | O, _ => s
  | S n', String _ s' => drop n' s'
  | S _, EmptyString => EmptyString
  end.

(** The value of a string of decimal digits. *)
Fixpoint digitsValue (acc : Z) (s : string) : Z :=
  match s with
  | EmptyString => acc
  | String c s' => digitsValue (10 * acc + Z.of_nat (nat_of_ascii c - 48)) s'
  end.

(** [parseFloat(s)] for [s] made of digits and dots: the longest prefix
    that is a decimal literal; [None] is [NaN]. *)
Definition parseFloat (s : string) : option Q :=
  let (int, rest) := span isDigit s in
  let frac := match rest with
              | String "." rest' => fst (span isDigit rest')
              | _ => EmptyString
              end in
  match int, frac with
  | EmptyString, EmptyString => None
  | _, _ =>
      Some (inject_Z (digitsValue 0 int) +
            inject_Z (digitsValue 0 frac) /
            inject_Z (10 ^ Z.of_nat (String.length frac)))
  end.

(** One attempt of [/font-size:\s*([\d.]+)pt/] at the head of [s]: the
    captured group and what follows the match. *)
Definition matchFontSize (s : string) : option (string * string) :=
  if String.prefix "font-size:" s then
    let (_, s1) := span isSpace (drop 10 s) in
    let (p1, s2) := span isDigitOrDot s1 in
    match p1 with
    | EmptyString => None
    | _ => if String.prefix "pt" s2 then Some (p1, drop 2 s2) else None
    end
  else None.

Fixpoint convertFontSizeFrom (fuel : nat) (html : string) (ratio : Q) : string :=
  match fuel with
  | O => html
  | S fuel' =>
      match matchFontSize html with
      | Some (p1, after) =>
          "font-size: " ++
          match parseFloat p1 with
          | Some v => toFixed 1 (v * ratio)
          | None => "NaN"
          end ++ "px" ++ convertFontSizeFrom fuel' after ratio
      | None =>
          match html with
          | EmptyString => EmptyString
          | String c html' => String c (convertFontSizeFrom fuel' html' ratio)
          end
      end
  end.

Definition convertFontSizePtToPx (html : string) (ratio : Q) : string :=
  convertFontSizeFrom (S (String.length html)) html ratio.

(** [s.split(',')[1]] *)
Definition secondField (s : string) : option string :=
  let (_, rest) := span (fun c => negb (Ascii.eqb c ",")) s in
  match rest with
  | String _ rest' => Some (fst (span (fun c => negb (Ascii.eqb c ",")) rest'))
  | EmptyString => None
  end.

(** One attempt of the pattern of [convertEmfDataUrlToPng] at the head of
    [s]: the letters src, an equals sign, a double quote, one or more
    characters other than a double quote (the group), a double quote. *)
Definition matchSrcAt (s : string) : option string :=
  if String.prefix (String "s" (String "r" (String "c" (String "="
                     (String quoteChar EmptyString))))) s then
    let (g, rest) := span notQuote (drop 5 s) in
    match g, rest with
    | String _ _, String _ _ => Some g
    | _, _ => None
    end
  else None.

(** [pngHtml.match(...)]: the group of the leftmost match. *)
Fixpoint matchSrc (s : string) : option string :=
  match matchSrcAt s with
  | Some g => Some g
  | None => match s with
            | EmptyString => None
            | String _ s' => matchSrc s'
            end
  end.

Definition lowerChar (c : ascii) : ascii :=
  let n := nat_of_ascii c in
  if (Nat.leb 65 n && Nat.leb n 90)%bool then ascii_of_nat (n + 32) else c.

Fixpoint lower (s : string) : string :=
  match s with
  | EmptyString => EmptyString
  | String c s' => String (lowerChar c) (lower s')
  end.

(** [/\.emf$/i.test(s)] *)
Definition endsWithEmf (s : string) : bool :=
  String.eqb (lower (drop (String.length s - 4) s)) ".emf".

(* ------------------------------------------------------------------ *)
(** ** The raw tree (the parser's output) *)

Record Shadow := {
  sh_h : Q; sh_v : Q; sh_blur : Q; sh_color : string }.

Record RawStop := { rs_pos : string; rs_color : string }.

Record RawGradient := {
  rg_path : string; rg_rot : Q; rg_colors : list RawStop }.

(** [fill]: a tagged object [{ type, value }]. *)
Inductive Fill :=
| ColorFill (value : string)
| ImageFill (picBase64 : string) (opacity : Q)
| GradientFill (value : RawGradient).

(** The three border properties every bordered raw object carries. *)
Record Border := {
  borderColor : string; borderWidth : Q; borderType : string }.

(** Fields shared by all raw elements. *)
Record Common := {
  left : Q; top : Q; width : Q; height : Q;
  order : Q;
  rotate : option Q;
  isFlipH : option bool;
  isFlipV : option bool }.

Record RawText := {
  t_content : string; t_border : Border; t_fill : option Fill;
  t_isVertical : option bool; t_shadow : option Shadow }.

Record Rect := { r_t : Q; r_b : Q; r_l : Q; r_r : Q }.

Record RawImage := {
  i_src : string; i_border : Border; i_rect : option Rect;
  i_geom : option string }.

Record RawVideo := { v_blob : option string; v_src : option string }.

(** A raw element of type ['shape'] (the parser's [Shape]). *)
Record RawShape := {
  s_shapType : string; s_path : option string; s_content : string;
  s_vAlign : string; s_border : Border; s_fill : option Fill;
  s_shadow : option Shadow }.

Record CellBorders := {
  b_top : option Border; b_bottom : option Border;
  b_left : option Border; b_right : option Border }.

Record RawCell := {
  c_text : string; c_fontColor : string; c_fontBold : option bool;
  c_fillColor : string; c_colSpan : Q; c_rowSpan : Q;
  c_borders : option CellBorders }.

Record RawTable := {
  tb_data : list (list RawCell); tb_colWidths : list Q;
  tb_rowHeights : list Q; tb_borders : option CellBorders }.

Record ChartValue := { cv_x : string; cv_y : Q }.

Record ChartItem := {
  ci_key : string; ci_values : list ChartValue; ci_xlabels : list string }.

(** [data] of a chart: two coordinate arrays for scatter and bubble charts,
    a list of series otherwise. *)
Inductive ChartData :=
| ScatterData (d : list (list Q))
| CommonData (d : list ChartItem).

Record RawChart := {
  ch_chartType : string; ch_data : ChartData; ch_barDir : option string;
  ch_grouping : option string; ch_colors : option (list string) }.

(** A raw element: the common fields and the payload of its [type]. *)
Inductive Element :=
| El (c : Common) (k : Kind)
with Kind :=
| KText (t : RawText)
| KImage (i : RawImage)
| KMath (picBase64 : string)
| KAudio (blob : string)
| KVideo (v : RawVideo)
| KShape (s : RawShape)
| KTable (t : RawTable)
| KChart (c : RawChart)
| KGroup (elements : list Element)
| KDiagram (elements : list Element)
| KOther (type : string).

Definition common (e : Element) : Common := let (c, _) := e in c.
Definition kind (e : Element) : Kind := let (_, k) := e in k.

(** [el.type] *)
Definition el_type (e : Element) : string :=
  match kind e with
  | KText _ => "text" | KImage _ => "image" | KMath _ => "math"
  | KAudio _ => "audio" | KVideo _ => "video" | KShape _ => "shape"
  | KTable _ => "table" | KChart _ => "chart" | KGroup _ => "group"
  | KDiagram _ => "diagram" | KOther t => t
  end.

Record RawSlide := {
  sl_fill : option Fill; sl_note : string;
  sl_elements : option (list Element);
  sl_layoutElements : option (list Element) }.

Record RawSize := { size_width : Q }.

Record RawDocument := {
  json_size : option RawSize;
  json_themeColors : option (list string);
  json_slides : list RawSlide }.

(* ------------------------------------------------------------------ *)
(** ** The slide model (the editor's elements) *)

Record Outline := { o_color : string; o_width : Q; o_style : string }.

Record GradientColor := { gc_pos : Q; gc_color : string }.

Record Gradient := {
  g_type : string; g_colors : list GradientColor; g_rotate : Q }.

Record PPTTextElement := {
  te_id : string; te_width : Q; te_height : Q; te_left : Q; te_top : Q;
  te_rotate : option Q; te_defaultFontName : string;
  te_defaultColor : string; te_content : string; te_lineHeight : Q;
  te_outline : Outline; te_fill : string; te_vertical : option bool;
  te_shadow : option Shadow }.

Record ImageClip := { clip_shape : string; clip_range : (Q * Q) * (Q * Q) }.

Record PPTImageElement := {
  ie_id : string; ie_src : string; ie_width : Q; ie_height : Q;
  ie_left : Q; ie_top : Q; ie_fixedRatio : bool; ie_rotate : option Q;
  ie_flipH : option bool; ie_flipV : option bool;
  ie_outline : option Outline; ie_clip : option ImageClip }.

Record PPTAudioElement := {
  ae_id : string; ae_src : string; ae_width : Q; ae_height : Q;
  ae_left : Q; ae_top : Q; ae_rotate : Q; ae_fixedRatio : bool;
  ae_color : option string; ae_loop : bool; ae_autoplay : bool }.

Record PPTVideoElement := {
  ve_id : string; ve_src : option string; ve_width : Q; ve_height : Q;
  ve_left : Q; ve_top : Q; ve_rotate : Q; ve_autoplay : bool }.

Record ShapeText := {
  st_content : string; st_defaultFontName : string;
  st_defaultColor : string; st_align : string }.

Record PPTShapeElement := {
  se_id : string; se_width : Q; se_height : Q; se_left : Q; se_top : Q;
  se_viewBox : Q * Q; se_path : string; se_fill : string;
  se_gradient : option Gradient; se_pattern : option string;
  se_opacity : Q; se_fixedRatio : bool; se_rotate : option Q;
  se_outline : Outline; se_text : ShapeText;
  se_flipH : option bool; se_flipV : option bool;
  se_shadow : option Shadow; se_pathFormula : option string;
  se_keypoints : option (list Q); se_special : option bool }.

Record PPTLineElement := {
  le_id : string; le_width : Q; le_left : Q; le_top : Q;
  le_start : Q * Q; le_end : Q * Q; le_style : string; le_color : string;
  le_points : string * string;
  le_broken2 : option (Q * Q); le_cubic : option ((Q * Q) * (Q * Q)) }.

Record TableCellStyle := {
  cs_fontname : string; cs_color : string; cs_align : string;
  cs_fontsize : string; cs_bold : option bool; cs_backcolor : string }.

Record TableCell := {
  tc_id : string; tc_colspan : Q; tc_rowspan : Q; tc_text : string;
  tc_style : TableCellStyle }.

Record PPTTableElement := {
  tbe_id : string; tbe_width : Q; tbe_height : Q; tbe_left : Q;
  tbe_top : Q; tbe_colWidths : list JsNumber; tbe_rotate : Q;
  tbe_data : list (list TableCell); tbe_outline : Outline;
  tbe_cellMinHeight : Q }.

Record ChartOptions := { opt_stack : option bool }.

Record PPTChartData := {
  cd_labels : list string; cd_legends : list string;
  cd_series : list (list Q) }.

Record PPTChartElement := {
  ce_id : string; ce_chartType : string; ce_width : Q; ce_height : Q;
  ce_left : Q; ce_top : Q; ce_rotate : Q; ce_themeColors : list string;
  ce_textColor : string; ce_data : PPTChartData; ce_options : ChartOptions }.

(** Assignments to the properties of a shape element. *)
Definition set_width (e : PPTShapeElement) (v : Q) : PPTShapeElement :=
  {| se_id := se_id e;
     se_width := v;
     se_height := se_height e;
     se_left := se_left e;
     se_top := se_top e;
     se_viewBox := se_viewBox e;
     se_path := se_path e;
     se_fill := se_fill e;
     se_gradient := se_gradient e;
     se_pattern := se_pattern e;
     se_opacity := se_opacity e;
     se_fixedRatio := se_fixedRatio e;
     se_rotate := se_rotate e;
     se_outline := se_outline e;
     se_text := se_text e;
     se_flipH := se_flipH e;
     se_flipV := se_flipV e;
     se_shadow := se_shadow e;
     se_pathFormula := se_pathFormula e;
     se_keypoints := se_keypoints e;
     se_special := se_special e |}.

Definition set_height (e : PPTShapeElement) (v : Q) : PPTShapeElement :=
  {| se_id := se_id e;
     se_width := se_width e;
     se_height := v;
     se_left := se_left e;
     se_top := se_top e;
     se_viewBox := se_viewBox e;
     se_path := se_path e;
     se_fill := se_fill e;
     se_gradient := se_gradient e;
     se_pattern := se_pattern e;
     se_opacity := se_opacity e;
     se_fixedRatio := se_fixedRatio e;
     se_rotate := se_rotate e;
     se_outline := se_outline e;
     se_text := se_text e;
     se_flipH := se_flipH e;
     se_flipV := se_flipV e;
     se_shadow := se_shadow e;
     se_pathFormula := se_pathFormula e;
     se_keypoints := se_keypoints e;
     se_special := se_special e |}.

Definition set_viewBox (e : PPTShapeElement) (v : Q * Q) : PPTShapeElement :=
  {| se_id := se_id e;
     se_width := se_width e;
     se_height := se_height e;
     se_left := se_left e;
     se_top := se_top e;
     se_viewBox := v;
     se_path := se_path e;
     se_fill := se_fill e;
     se_gradient := se_gradient e;
     se_pattern := se_pattern e;
     se_opacity := se_opacity e;
     se_fixedRatio := se_fixedRatio e;
     se_rotate := se_rotate e;
     se_outline := se_outline e;
     se_text := se_text e;
     se_flipH := se_flipH e;
     se_flipV := se_flipV e;
     se_shadow := se_shadow e;
     se_pathFormula := se_pathFormula e;
     se_keypoints := se_keypoints e;
     se_special := se_special e |}.

Definition set_path (e : PPTShapeElement) (v : string) : PPTShapeElement :=
  {| se_id := se_id e;
     se_width := se_width e;
     se_height := se_height e;
     se_left := se_left e;
     se_top := se_top e;
     se_viewBox := se_viewBox e;
     se_path := v;
     se_fill := se_fill e;
     se_gradient := se_gradient e;
     se_pattern := se_pattern e;
     se_opacity := se_opacity e;
     se_fixedRatio := se_fixedRatio e;
     se_rotate := se_rotate e;
     se_outline := se_outline e;
     se_text := se_text e;
     se_flipH := se_flipH e;
     se_flipV := se_flipV e;
     se_shadow := se_shadow e;
     se_pathFormula := se_pathFormula e;
     se_keypoints := se_keypoints e;
     se_special := se_special e |}.

Definition set_shadow (e : PPTShapeElement) (v : option Shadow) : PPTShapeElement :=
  {| se_id := se_id e;
     se_width := se_width e;
     se_height := se_height e;
     se_left := se_left e;
     se_top := se_top e;
     se_viewBox := se_viewBox e;
     se_path := se_path e;
     se_fill := se_fill e;
     se_gradient := se_gradient e;
     se_pattern := se_pattern e;
     se_opacity := se_opacity e;
     se_fixedRatio := se_fixedRatio e;
     se_rotate := se_rotate e;
     se_outline := se_outline e;
     se_text := se_text e;
     se_flipH := se_flipH e;
     se_flipV := se_flipV e;
     se_shadow := v;
     se_pathFormula := se_pathFormula e;
     se_keypoints := se_keypoints e;
     se_special := se_special e |}.

Definition set_pathFormula (e : PPTShapeElement) (v : option string) : PPTShapeElement :=
  {| se_id := se_id e;
     se_width := se_width e;
     se_height := se_height e;
     se_left := se_left e;
     se_top := se_top e;
     se_viewBox := se_viewBox e;
     se_path := se_path e;
     se_fill := se_fill e;
     se_gradient := se_gradient e;
     se_pattern := se_pattern e;
     se_opacity := se_opacity e;
     se_fixedRatio := se_fixedRatio e;
     se_rotate := se_rotate e;
     se_outline := se_outline e;
     se_text := se_text e;
     se_flipH := se_flipH e;
     se_flipV := se_flipV e;
     se_shadow := se_shadow e;
     se_pathFormula := v;
     se_keypoints := se_keypoints e;
     se_special := se_special e |}.

Definition set_keypoints (e : PPTShapeElement) (v : option (list Q)) : PPTShapeElement :=
  {| se_id := se_id e;
     se_width := se_width e;
     se_height := se_height e;
     se_left := se_left e;
     se_top := se_top e;
     se_viewBox := se_viewBox e;
     se_path := se_path e;
     se_fill := se_fill e;
     se_gradient := se_gradient e;
     se_pattern := se_pattern e;
     se_opacity := se_opacity e;
     se_fixedRatio := se_fixedRatio e;
     se_rotate := se_rotate e;
     se_outline := se_outline e;
     se_text := se_text e;
     se_flipH := se_flipH e;
     se_flipV := se_flipV e;
     se_shadow := se_shadow e;
     se_pathFormula := se_pathFormula e;
     se_keypoints := v;
     se_special := se_special e |}.

Definition set_special (e : PPTShapeElement) (v : option bool) : PPTShapeElement :=
  {| se_id := se_id e;
     se_width := se_width e;
     se_height := se_height e;
     se_left := se_left e;
     se_top := se_top e;
     se_viewBox := se_viewBox e;
     se_path := se_path e;
     se_fill := se_fill e;
     se_gradient := se_gradient e;
     se_pattern := se_pattern e;
     se_opacity := se_opacity e;
     se_fixedRatio := se_fixedRatio e;
     se_rotate := se_rotate e;
     se_outline := se_outline e;
     se_text := se_text e;
     se_flipH := se_flipH e;
     se_flipV := se_flipV e;
     se_shadow := se_shadow e;
     se_pathFormula := se_pathFormula e;
     se_keypoints := se_keypoints e;
     se_special := v |}.

(** An element of a slide; [pe_type] is its [type] property. *)
Inductive PPTElement :=
| PText (e : PPTTextElement)
| PImage (e : PPTImageElement)
| PShape (e : PPTShapeElement)
| PLine (e : PPTLineElement)
| PTable (e : PPTTableElement)
| PChart (e : PPTChartElement)
| PAudio (e : PPTAudioElement)
| PVideo (e : PPTVideoElement).

Definition pe_type (e : PPTElement) : string :=
  match e with
  | PText _ => "text" | PImage _ => "image" | PShape _ => "shape"
  | PLine _ => "line" | PTable _ => "table" | PChart _ => "chart"
  | PAudio _ => "audio" | PVideo _ => "video"
  end.

Definition pe_left (e : PPTElement) : Q :=
  match e with
  | PText e => te_left e | PImage e => ie_left e | PShape e => se_left e
  | PLine e => le_left e | PTable e => tbe_left e | PChart e => ce_left e
  | PAudio e => ae_left e | PVideo e => ve_left e
  end.

Definition pe_top (e : PPTElement) : Q :=
  match e with
  | PText e => te_top e | PImage e => ie_top e | PShape e => se_top e
  | PLine e => le_top e | PTable e => tbe_top e | PChart e => ce_top e
  | PAudio e => ae_top e | PVideo e => ve_top e
  end.

(** [width] and [height] of an element; a line has none (its [width] is
    the width of the stroke). *)
Definition pe_size (e : PPTElement) : option (Q * Q) :=
  match e with
  | PText e => Some (te_width e, te_height e)
  | PImage e => Some (ie_width e, ie_height e)
  | PShape e => Some (se_width e, se_height e)
  | PLine _ => None
  | PTable e => Some (tbe_width e, tbe_height e)
  | PChart e => Some (ce_width e, ce_height e)
  | PAudio e => Some (ae_width e, ae_height e)
  | PVideo e => Some (ve_width e, ve_height e)
  end.

Inductive SlideBackground :=
| BgImage (src : string) (size : string)
| BgGradient (gradient : Gradient)
| BgSolid (color : string).

Record Slide := {
  slide_id : string; slide_elements : list PPTElement;
  slide_background : SlideBackground; slide_remark : string }.

(** [slide.elements.push(e)] *)
Definition push (e : PPTElement) (s : Slide) : Slide :=
  {| slide_id := slide_id s;
     slide_elements := slide_elements s ++ [e];
     slide_background := slide_background s;
     slide_remark := slide_remark s |}.

(* ------------------------------------------------------------------ *)
(** ** Collaborators *)

Record Theme := {
  fontName : string; fontColor : string; themeColors : list string }.

(** Mutations sent to the slides store. *)
Inductive StoreCall :=
| SetViewportSize (px : Q)
| SetTheme (themeColors : list string).

Record ShapePoolItem := {
  pptxShapeType : option string; sp_path : string; sp_viewBox : Q * Q;
  sp_pathFormula : option string }.

(** An entry of [SHAPE_PATH_FORMULAS]; [pf_formula w h None] is the call
    without keypoints. *)
Record PathFormula := {
  pf_editable : bool; pf_defaultValue : list Q;
  pf_formula : Q -> Q -> option (list Q) -> string }.

(** What the code reads of [textDiv] after [textDiv.innerHTML = text]. *)
Record CellDom := {
  dom_textAlign : string;   (* p?.style.textAlign, '' when there is none *)
  dom_fontSize : string;    (* span?.style.fontSize *)
  dom_fontFamily : string;  (* span?.style.fontFamily *)
  dom_color : string;       (* span?.style.color *)
  dom_innerText : string }.

Class Externals := {
  (** [nanoid(10)], by the number of ids drawn before. *)
  nanoid : nat -> string;
  (** [theme.value], a live view of the store: by the calls made so far. *)
  storeTheme : list StoreCall -> Theme;
  (** The children arrays of [SHAPE_LIST]. *)
  SHAPE_LIST : list (list ShapePoolItem);
  SHAPE_PATH_FORMULAS : string -> option PathFormula;
  (** [getSvgPathRange(path)]: its [maxX] and [maxY]. *)
  getSvgPathRange : string -> Q * Q;
  (** [WMF2PNG.getPNG(base64)]; [None] when the promise rejects. *)
  WMF2PNG_getPNG : string -> option string;
  (** The browser's HTML parser on a table cell. *)
  cellDom : string -> CellDom;
  Number_parseInt : string -> Q;
  Math_PI : Q;
  Math_cos : Q -> Q;
  Math_sin : Q -> Q }.

(* ------------------------------------------------------------------ *)
(** ** Effects *)

Record World := {
  calls : list StoreCall;     (* store mutations, oldest first *)
  idsDrawn : nat;             (* calls of [nanoid] so far *)
  notices : list string }.    (* [message.error] texts, oldest first *)

Inductive Result (A : Type) :=
| Ok (a : A) (w : World)
| Throw (e : string) (w : World)
| OutOfFuel.
Arguments Throw {A} e w.
Arguments OutOfFuel {A}.

Definition M (A : Type) : Type := World -> Result A.

Definition ret {A} (a : A) : M A := fun w => Ok a w.

Definition bind {A B} (m : M A) (f : A -> M B) : M B :=
  fun w => match m w with
           | Ok a w' => f a w'
           | Throw e w' => Throw e w'
           | OutOfFuel => OutOfFuel
           end.

Definition throw {A} (e : string) : M A := fun w => Throw e w.

(** The world a computation leaves behind, also when it throws. *)
Definition worldOf {A} (r : Result A) : option World :=
  match r with
  | Ok _ w => Some w
  | Throw _ w => Some w
  | OutOfFuel => None
  end.

Notation "x <- m ;; k" := (bind m (fun x => k))
  (at level 61, m at next level, right associativity).

(** [for (const x of l) body] over an accumulator. *)
Fixpoint forOf {A S} (l : list A) (body : A -> S -> M S) (s : S) : M S :=
  match l with
  | [] => ret s
  | x :: l' => s' <- body x s ;; forOf l' body s'
  end.

(** [l.map(f)] for an effectful [f]. *)
Fixpoint mapM {A B} (f : A -> M B) (l : list A) : M (list B) :=
  match l with
  | [] => ret []
  | x :: l' => y <- f x ;; ys <- mapM f l' ;; ret (y :: ys)
  end.

Section Hook.
Context {E : Externals}.

Definition newId : M string :=
  fun w => Ok (nanoid (idsDrawn w))
              {| calls := calls w; idsDrawn := S (idsDrawn w);
                 notices := notices w |}.

Definition theme : M Theme := fun w => Ok (storeTheme (calls w)) w.

Definition storeCall (c : StoreCall) : M unit :=
  fun w => Ok tt {| calls := calls w ++ [c]; idsDrawn := idsDrawn w;
                    notices := notices w |}.

Definition message_error (s : string) : M unit :=
  fun w => Ok tt {| calls := calls w; idsDrawn := idsDrawn w;
                    notices := notices w ++ [s] |}.


(* ------------------------------------------------------------------ *)
(** ** Geometry *)

Record RotatedLine := {
  rl_start : Q * Q; rl_end : Q * Q; rl_offset : Q * Q }.

Definition rotateLine (line : PPTLineElement) (angleDeg : Q) : RotatedLine :=
  let start := le_start line in
  let end_ := le_end line in
  let angleRad := angleDeg * Math_PI / 180 in
  let midX := (fst start + fst end_) / 2 in
  let midY := (snd start + snd end_) / 2 in
  let startTransX := fst start - midX in
  let startTransY := snd start - midY in
  let endTransX := fst end_ - midX in
  let endTransY := snd end_ - midY in
  let cosA := Math_cos angleRad in
  let sinA := Math_sin angleRad in
  let startRotX := startTransX * cosA - startTransY * sinA in
  let startRotY := startTransX * sinA + startTransY * cosA in
  let endRotX := endTransX * cosA - endTransY * sinA in
  let endRotY := endTransX * sinA + endTransY * cosA in
  let startNewX := startRotX + midX in
  let startNewY := startRotY + midY in
  let endNewX := endRotX + midX in
  let endNewY := endRotY + midY in
  let beforeMinX := Math_min (fst start) (fst end_) in
  let beforeMinY := Math_min (snd start) (snd end_) in
  let afterMinX := Math_min startNewX endNewX in
  let afterMinY := Math_min startNewY endNewY in
  let startAdjustedX := startNewX - afterMinX in
  let startAdjustedY := startNewY - afterMinY in
  let endAdjustedX := endNewX - afterMinX in
  let endAdjustedY := endNewY - afterMinY in
  {| rl_start := (startAdjustedX, startAdjustedY);
     rl_end := (endAdjustedX, endAdjustedY);
     rl_offset := (afterMinX - beforeMinX, afterMinY - beforeMinY) |}.

(** [parseLineElement(el, ratio)]: [c] and [s] are the properties of [el]
    (whose box the caller has already scaled). *)
Definition parseLineElement (c : Common) (s : RawShape) (ratio : Q)
  : M PPTLineElement :=
  let '(start, end_) :=
    if negb (truthyB (isFlipV c)) && negb (truthyB (isFlipH c))
    then ((0, 0), (width c, height c))
    else if truthyB (isFlipV c) && truthyB (isFlipH c)
    then ((width c, height c), (0, 0))
    else if truthyB (isFlipV c) && negb (truthyB (isFlipH c))
    then ((0, height c), (width c, 0))
    else ((width c, 0), (0, height c)) in
  id <- newId ;;
  let data :=
    {| le_id := id;
       le_width := toFixedNum 2 (orElse (borderWidth (s_border s)) 1 * ratio);
       le_left := left c;
       le_top := top c;
       le_start := start;
       le_end := end_;
       le_style := borderType (s_border s);
       le_color := borderColor (s_border s);
       le_points := ("", if includes "straightConnector" (s_shapType s)
                         then "arrow" else "");
       le_broken2 := None;
       le_cubic := None |} in
  let data :=
    match rotate c with
    | Some r =>
        if truthy r then
          let rl := rotateLine data r in
          {| le_id := le_id data; le_width := le_width data;
             le_left := le_left data + fst (rl_offset rl);
             le_top := le_top data + snd (rl_offset rl);
             le_start := rl_start rl; le_end := rl_end rl;
             le_style := le_style data; le_color := le_color data;
             le_points := le_points data;
             le_broken2 := le_broken2 data; le_cubic := le_cubic data |}
        else data
    | None => data
    end in
  let half :=
    (Math_abs (fst (le_start data) - fst (le_end data)) / 2,
     Math_abs (snd (le_start data) - snd (le_end data)) / 2) in
  let data :=
    if includes "bentConnector" (s_shapType s) then
      {| le_id := le_id data; le_width := le_width data;
         le_left := le_left data; le_top := le_top data;
         le_start := le_start data; le_end := le_end data;
         le_style := le_style data; le_color := le_color data;
         le_points := le_points data;
         le_broken2 := Some half; le_cubic := le_cubic data |}
    else data in
  let data :=
    if includes "curvedConnector" (s_shapType s) then
      {| le_id := le_id data; le_width := le_width data;
         le_left := le_left data; le_top := le_top data;
         le_start := le_start data; le_end := le_end data;
         le_style := le_style data; le_color := le_color data;
         le_points := le_points data;
         le_broken2 := le_broken2 data; le_cubic := Some (half, half) |}
    else data in
  ret data.

(** [{ ...c, left: l }] and [{ ...c, top: t }] *)
Definition withLeft (c : Common) (l : Q) : Common :=
  {| left := l; top := top c; width := width c; height := height c;
     order := order c; rotate := rotate c;
     isFlipH := isFlipH c; isFlipV := isFlipV c |}.

Definition withTop (c : Common) (t : Q) : Common :=
  {| left := left c; top := t; width := width c; height := height c;
     order := order c; rotate := rotate c;
     isFlipH := isFlipH c; isFlipV := isFlipV c |}.

Inductive Axis := AxisX | AxisY.

(** The centre of the joint bounding box of the non-empty array
    [e0 :: rest]: [(centerX, centerY)]. *)
Definition flipCenter (e0 : Element) (rest : list Element) : Q * Q :=
  let c0 := common e0 in
  let minX := Math_min_list (left c0)
                (map (fun el => left (common el)) rest) in
  let maxX := Math_max_list (left c0 + width c0)
                (map (fun el => left (common el) + width (common el)) rest) in
  let minY := Math_min_list (top c0)
                (map (fun el => top (common el)) rest) in
  let maxY := Math_max_list (top c0 + height c0)
                (map (fun el => top (common el) + height (common el)) rest) in
  ((minX + maxX) / 2, (minY + maxY) / 2).

(** The callback of [elements.map] in [flipGroupElements]: a copy of
    [element] with one coordinate reflected. *)
Definition flipOne (center : Q * Q) (axis : Axis) (element : Element)
  : Element :=
  let c := common element in
  match axis with
  | AxisY => El (withLeft c (2 * fst center - left c - width c)) (kind element)
  | AxisX => El (withTop c (2 * snd center - top c - height c)) (kind element)
  end.

(** [flipGroupElements(elements, axis)].  On the empty array the four
    extrema are infinite and unused: the result is the empty array. *)
Definition flipGroupElements (elements : list Element) (axis : Axis)
  : list Element :=
  match elements with
  | [] => []
  | e0 :: rest => map (flipOne (flipCenter e0 rest) axis) elements
  end.

(** *** The same function on object references

    Records live in a store, addressed by their position; an array holds
    addresses.  [{ ...element }] allocates a new record, the two
    assignments write to that new record only. *)
Definition Heap := list Element.

Definition alloc (h : Heap) (v : Element) : Heap * nat :=
  ((h ++ [v])%list, List.length h).

(** [elements.map(ref => h[ref])]; [None] on a dangling address. *)
Fixpoint derefAll (h : Heap) (refs : list nat) : option (list Element) :=
  match refs with
  | [] => Some []
  | r :: refs' =>
      match nth_error h r, derefAll h refs' with
      | Some v, Some vs => Some (v :: vs)
      | _, _ => None
      end
  end.

Fixpoint flipEachRef (center : Q * Q) (axis : Axis) (h : Heap)
    (refs : list nat) : option (Heap * list nat) :=
  match refs with
  | [] => Some (h, [])
  | r :: refs' =>
      match nth_error h r with
      | Some element =>
          let (h1, newElement) := alloc h (flipOne center axis element) in
          match flipEachRef center axis h1 refs' with
          | Some (h2, out) => Some (h2, newElement :: out)
          | None => None
          end
      | None => None
      end
  end.

Definition flipGroupElementsRef (h : Heap) (elements : list nat) (axis : Axis)
  : option (Heap * list nat) :=
  match derefAll h elements with
  | Some [] => Some (h, [])
  | Some (e0 :: rest) => flipEachRef (flipCenter e0 rest) axis h elements
  | None => None
  end.

Definition calculateRotatedPosition (x y w h ox oy k : Q) : Q * Q :=
  let radians := k * (Math_PI / 180) in
  let containerCenterX := x + w / 2 in
  let containerCenterY := y + h / 2 in
  let relativeX := ox - w / 2 in
  let relativeY := oy - h / 2 in
  let rotatedX := relativeX * Math_cos radians + relativeY * Math_sin radians in
  let rotatedY := - relativeX * Math_sin radians + relativeY * Math_cos radians in
  let graphicX := containerCenterX + rotatedX in
  let graphicY := containerCenterY + rotatedY in
  (graphicX, graphicY).


(* ------------------------------------------------------------------ *)
(** ** Element converters *)

Definition convertEmfDataUrlToPng (dataUrl : string) : M string :=
  let base64 := match secondField dataUrl with
                | Some f => orElseS f dataUrl
                | None => dataUrl
                end in
  let failed := _ <- message_error "EMF 图片转换失败" ;; ret dataUrl in
  match WMF2PNG_getPNG base64 with
  | Some pngHtml =>
      match matchSrc pngHtml with
      | Some g => ret g
      | None => failed
      end
  | None => failed
  end.

(** The four assignments [el.width = el.width * ratio], ... *)
Definition scale (ratio : Q) (c : Common) : Common :=
  {| left := left c * ratio; top := top c * ratio;
     width := width c * ratio; height := height c * ratio;
     order := order c; rotate := rotate c;
     isFlipH := isFlipH c; isFlipV := isFlipV c |}.

Definition scaleShadow (ratio : Q) (sh : Shadow) : Shadow :=
  {| sh_h := sh_h sh * ratio; sh_v := sh_v sh * ratio;
     sh_blur := sh_blur sh * ratio; sh_color := sh_color sh |}.

Definition outlineOf (b : Border) (ratio : Q) : Outline :=
  {| o_color := borderColor b;
     o_width := toFixedNum 2 (borderWidth b * ratio);
     o_style := borderType b |}.

(** [el.fill?.type === 'color' ? el.fill.value : ''] *)
Definition colorOf (f : option Fill) : string :=
  match f with Some (ColorFill v) => v | _ => "" end.

Definition convertStops (l : list RawStop) : list GradientColor :=
  map (fun item => {| gc_pos := Number_parseInt (rs_pos item);
                      gc_color := rs_color item |}) l.

Definition convertText (el : Common) (t : RawText) (ratio : Q)
  : M PPTTextElement :=
  id <- newId ;;
  th <- theme ;;
  ret {| te_id := id;
         te_width := width el; te_height := height el;
         te_left := left el; te_top := top el;
         te_rotate := rotate el;
         te_defaultFontName := fontName th;
         te_defaultColor := fontColor th;
         te_content := convertFontSizePtToPx (t_content t) ratio;
         te_lineHeight := 1;
         te_outline := outlineOf (t_border t) ratio;
         te_fill := colorOf (t_fill t);
         te_vertical := t_isVertical t;
         te_shadow := option_map (scaleShadow ratio) (t_shadow t) |}.

Definition clipShapeTypes : list string :=
  ["roundRect"; "ellipse"; "triangle"; "rhombus"; "pentagon"; "hexagon";
   "heptagon"; "octagon"; "parallelogram"; "trapezoid"].

Definition has (l : list string) (s : string) : bool :=
  existsb (String.eqb s) l.

Definition convertImage (el : Common) (i : RawImage) (ratio : Q)
  : M PPTImageElement :=
  src <- (if startsWith "data:image/x-emf" (i_src i) || endsWithEmf (i_src i)
          then convertEmfDataUrlToPng (i_src i)
          else ret (i_src i)) ;;
  id <- newId ;;
  let geomClip := match i_geom i with
                  | Some g => if truthyS g && has clipShapeTypes g
                              then Some g else None
                  | None => None
                  end in
  ret {| ie_id := id; ie_src := src;
         ie_width := width el; ie_height := height el;
         ie_left := left el; ie_top := top el;
         ie_fixedRatio := true;
         ie_rotate := rotate el;
         ie_flipH := isFlipH el; ie_flipV := isFlipV el;
         ie_outline :=
           if truthy (borderWidth (i_border i))
           then Some (outlineOf (i_border i) ratio) else None;
         ie_clip :=
           match i_rect i with
           | Some r =>
               Some {| clip_shape := match geomClip with
                                     | Some g => g | None => "rect" end;
                       clip_range := ((orElse (r_l r) 0, orElse (r_t r) 0),
                                      (100 - orElse (r_r r) 0,
                                       100 - orElse (r_b r) 0)) |}
           | None =>
               match geomClip with
               | Some g => Some {| clip_shape := g;
                                   clip_range := ((0, 0), (100, 100)) |}
               | None => None
               end
           end |}.

Definition convertMath (el : Common) (picBase64 : string) : M PPTImageElement :=
  id <- newId ;;
  ret {| ie_id := id; ie_src := picBase64;
         ie_width := width el; ie_height := height el;
         ie_left := left el; ie_top := top el;
         ie_fixedRatio := true; ie_rotate := Some 0;
         ie_flipH := None; ie_flipV := None;
         ie_outline := None; ie_clip := None |}.

Definition convertAudio (el : Common) (blob : string) : M PPTAudioElement :=
  id <- newId ;;
  th <- theme ;;
  ret {| ae_id := id; ae_src := blob;
         ae_width := width el; ae_height := height el;
         ae_left := left el; ae_top := top el;
         ae_rotate := 0; ae_fixedRatio := false;
         ae_color := hd_error (themeColors th);
         ae_loop := false; ae_autoplay := false |}.

Definition convertVideo (el : Common) (v : RawVideo) : M PPTVideoElement :=
  id <- newId ;;
  ret {| ve_id := id;
         ve_src := if truthyOS (v_blob v) then v_blob v else v_src v;
         ve_width := width el; ve_height := height el;
         ve_left := left el; ve_top := top el;
         ve_rotate := 0; ve_autoplay := false |}.


(** [shapeList]: the children of every entry of [SHAPE_LIST], in order. *)
Definition shapeList : list ShapePoolItem := List.concat SHAPE_LIST.

Definition vAlignMap (k : string) : option string :=
  if String.eqb k "mid" then Some "middle"
  else if String.eqb k "down" then Some "bottom"
  else if String.eqb k "up" then Some "top"
  else None.

Definition gradientTypeOf (path : string) : string :=
  if String.eqb path "line" then "linear" else "radial".

(** The [viewBox] derived from the range of a raw path. *)
Definition viewBoxOfRange (range : Q * Q) (originWidth originHeight : Q)
  : Q * Q :=
  let (maxX, maxY) := range in
  if jsGt (jsDiv maxX maxY) (originWidth / originHeight)
  then (maxX, maxX * originHeight / originWidth)
  else (maxY * originWidth / originHeight, maxY).

Definition defaultPath : string := "M 0 0 L 200 0 L 200 200 L 0 200 Z".

(** [item.pptxShapeType === shapType] *)
Definition hasShapeType (shapType : string) (item : ShapePoolItem) : bool :=
  match pptxShapeType item with
  | Some t => String.eqb t shapType
  | None => false
  end.

(** [el.shapType === 'line' || /Connector/.test(el.shapType)] *)
Definition isLineShape (s : RawShape) : bool :=
  String.eqb (s_shapType s) "line" || includes "Connector" (s_shapType s).

(** [el.path && !el.path.includes('NaN')] *)
Definition usablePath (path : option string) : bool :=
  match path with
  | Some path => truthyS path && negb (includes "NaN" path)
  | None => false
  end.

(** The branch of [parseElements] for a shape that is not a line. *)
Definition convertShape (el : Common) (s : RawShape) (ratio : Q)
    (originWidth originHeight : Q) (slide : Slide) : M Slide :=
  let shape := find (hasShapeType (s_shapType s)) shapeList in
  let gradient :=
    match s_fill s with
    | Some (GradientFill v) =>
        Some {| g_type := gradientTypeOf (rg_path v);
                g_colors := convertStops (rg_colors v);
                g_rotate := rg_rot v |}
    | _ => None
    end in
  let pattern :=
    match s_fill s with Some (ImageFill pic _) => Some pic | _ => None end in
  let fill := colorOf (s_fill s) in
  let opacity :=
    match s_fill s with Some (ImageFill _ o) => o | _ => 1 end in
  id <- newId ;;
  th <- theme ;;
  let element :=
    {| se_id := id;
       se_width := width el; se_height := height el;
       se_left := left el; se_top := top el;
       se_viewBox := (200, 200);
       se_path := defaultPath;
       se_fill := fill; se_gradient := gradient; se_pattern := pattern;
       se_opacity := opacity; se_fixedRatio := false;
       se_rotate := rotate el;
       se_outline := outlineOf (s_border s) ratio;
       se_text := {| st_content := convertFontSizePtToPx (s_content s) ratio;
                     st_defaultFontName := fontName th;
                     st_defaultColor := fontColor th;
                     st_align := match vAlignMap (s_vAlign s) with
                                 | Some a => a | None => "middle" end |};
       se_flipH := isFlipH el; se_flipV := isFlipV el;
       se_shadow := None; se_pathFormula := None;
       se_keypoints := None; se_special := None |} in
  let element :=
    match s_shadow s with
    | Some sh => set_shadow element (Some (scaleShadow ratio sh))
    | None => element
    end in
  element <-
    match shape with
    | Some shape =>
        let element := set_path element (sp_path shape) in
        let element := set_viewBox element (sp_viewBox shape) in
        if truthyOS (sp_pathFormula shape) then
          let element := set_pathFormula element (sp_pathFormula shape) in
          let element := set_viewBox element (width el, height el) in
          match SHAPE_PATH_FORMULAS
                  (match sp_pathFormula shape with
                   | Some n => n | None => "" end) with
          | Some pathFormula =>
              if pf_editable pathFormula then
                let element :=
                  set_path element
                    (pf_formula pathFormula (width el) (height el)
                       (Some (pf_defaultValue pathFormula))) in
                ret (set_keypoints element (Some (pf_defaultValue pathFormula)))
              else
                ret (set_path element
                       (pf_formula pathFormula (width el) (height el) None))
          | None => throw "TypeError"
          end
        else ret element
    | None =>
        if usablePath (s_path s) then
          let path := match s_path s with Some p => p | None => "" end in
          let element := set_path element path in
          ret (set_viewBox element
                 (viewBoxOfRange (getSvgPathRange path)
                    originWidth originHeight))
        else ret element
    end ;;
  element <-
    (if String.eqb (s_shapType s) "custom" then
       match s_path s with
       | None => throw "TypeError"
       | Some path =>
           let element :=
             if includes "NaN" path then
               let element :=
                 if Qeq_bool (se_width element) 0
                 then set_width element (1 # 10) else element in
               let element :=
                 if Qeq_bool (se_height element) 0
                 then set_height element (1 # 10) else element in
               set_path element (replaceAll "NaN" "0" path)
             else
               let element := set_special element (Some true) in
               set_path element path in
           ret (set_viewBox element
                  (viewBoxOfRange (getSvgPathRange (se_path element))
                     originWidth originHeight))
       end
     else ret element) ;;
  if truthyS (se_path element) then ret (push (PShape element) slide)
  else ret slide.

(** One cell of a table. *)
Definition convertCell (cellData : RawCell) (ratio : Q) : M TableCell :=
  let textDiv := cellDom (c_text cellData) in
  let align := orElseS (dom_textAlign textDiv) "left" in
  let fontsize :=
    if truthyS (dom_fontSize textDiv)
    then toFixed 1 (Number_parseInt (dom_fontSize textDiv) * ratio) ++ "px"
    else "" in
  let fontname := dom_fontFamily textDiv in
  let color := orElseS (dom_color textDiv) (c_fontColor cellData) in
  id <- newId ;;
  ret {| tc_id := id;
         tc_colspan := orElse (c_colSpan cellData) 1;
         tc_rowspan := orElse (c_rowSpan cellData) 1;
         tc_text := dom_innerText textDiv;
         tc_style :=
           {| cs_fontname := fontname; cs_color := color;
              cs_align := if has ["left"; "right"; "center"] align
                          then align else "left";
              cs_fontsize := fontsize;
              cs_bold := c_fontBold cellData;
              cs_backcolor := c_fillColor cellData |} |}.

(** [a || b] on optional objects. *)
Definition orO {A} (a b : option A) : option A :=
  match a with Some _ => a | None => b end.

Definition border_of {A} (f : CellBorders -> option A) (b : option CellBorders)
  : option A :=
  match b with Some b => f b | None => None end.

Definition convertTable (el : Common) (t : RawTable) (ratio : Q)
  : M PPTTableElement :=
  match tb_data t with
  | [] => throw "TypeError"
  | row0 :: _ =>
      let col := List.length row0 in
      data <- mapM (fun rowi =>
                mapM (fun j => match nth_error rowi j with
                               | Some cellData => convertCell cellData ratio
                               | None => throw "TypeError"
                               end) (seq 0 col)) (tb_data t) ;;
      let allWidth := fold_left Qplus (tb_colWidths t) 0 in
      let colWidths := map (fun item => jsDiv item allWidth) (tb_colWidths t) in
      match row0 with
      | [] => throw "TypeError"
      | firstCell :: _ =>
          let border :=
            orO (border_of b_top (c_borders firstCell))
           (orO (border_of b_bottom (c_borders firstCell))
           (orO (border_of b_top (tb_borders t))
           (orO (border_of b_bottom (tb_borders t))
           (orO (border_of b_left (c_borders firstCell))
           (orO (border_of b_right (c_borders firstCell))
           (orO (border_of b_left (tb_borders t))
                (border_of b_right (tb_borders t)))))))) in
          let borderWidth_ :=
            match border with Some b => orElse (borderWidth b) 0 | None => 0 end in
          let borderStyle :=
            match border with
            | Some b => orElseS (borderType b) "solid" | None => "solid" end in
          let borderColor_ :=
            match border with
            | Some b => orElseS (borderColor b) "#eeece1"
            | None => "#eeece1" end in
          id <- newId ;;
          ret {| tbe_id := id;
                 tbe_width := width el; tbe_height := height el;
                 tbe_left := left el; tbe_top := top el;
                 tbe_colWidths := colWidths;
                 tbe_rotate := 0;
                 tbe_data := data;
                 tbe_outline :=
                   {| o_width := toFixedNum 2 (orElse (borderWidth_ * ratio) 2);
                      o_style := borderStyle;
                      o_color := borderColor_ |};
                 tbe_cellMinHeight :=
                   match tb_rowHeights t with
                   | h :: _ => if truthy h then h * ratio else 36
                   | [] => 36
                   end |}
      end
  end.


(** [l.map((item, index) => f(index))] *)
Definition mapIndex {A B} (f : nat -> B) (l : list A) : list B :=
  map f (seq 0 (List.length l)).

(** [g === 'stacked' || g === 'percentStacked'] *)
Definition isStacked (g : option string) : bool :=
  match g with
  | Some g => String.eqb g "stacked" || String.eqb g "percentStacked"
  | None => false
  end.

(** The [switch (el.chartType)] of the chart branch: the chart type and
    the options it leaves. *)
Definition chartSwitch (c : RawChart) : string * ChartOptions :=
  let stack := if isStacked (ch_grouping c) then Some true else None in
  let ct := ch_chartType c in
  if String.eqb ct "barChart" || String.eqb ct "bar3DChart" then
    (match ch_barDir c with
     | Some d => if String.eqb d "bar" then "column" else "bar"
     | None => "bar"
     end, {| opt_stack := stack |})
  else if String.eqb ct "lineChart" || String.eqb ct "line3DChart" then
    ("line", {| opt_stack := stack |})
  else if String.eqb ct "areaChart" || String.eqb ct "area3DChart" then
    ("area", {| opt_stack := stack |})
  else if String.eqb ct "scatterChart" || String.eqb ct "bubbleChart" then
    ("scatter", {| opt_stack := None |})
  else if String.eqb ct "pieChart" || String.eqb ct "pie3DChart" then
    ("pie", {| opt_stack := None |})
  else if String.eqb ct "radarChart" then
    ("radar", {| opt_stack := None |})
  else if String.eqb ct "doughnutChart" then
    ("ring", {| opt_stack := None |})
  else ("bar", {| opt_stack := None |}).

Definition convertChart (el : Common) (c : RawChart) : M PPTChartElement :=
  data <-
    (if String.eqb (ch_chartType c) "scatterChart"
        || String.eqb (ch_chartType c) "bubbleChart"
     then match ch_data c with
          | ScatterData (d0 :: rest) =>
              ret {| cd_labels :=
                       mapIndex (fun index => "坐标" ++ string_of_nat (index + 1)) d0;
                     cd_legends := ["X"; "Y"];
                     cd_series := d0 :: rest |}
          | _ => throw "TypeError"
          end
     else match ch_data c with
          | CommonData (d0 :: rest) =>
              ret {| cd_labels := ci_xlabels d0;
                     cd_legends := map ci_key (d0 :: rest);
                     cd_series := map (fun item => map cv_y (ci_values item))
                                      (d0 :: rest) |}
          | _ => throw "TypeError"
          end) ;;
  let '(chartType, options) := chartSwitch c in
  id <- newId ;;
  th <- theme ;;
  ret {| ce_id := id; ce_chartType := chartType;
         ce_width := width el; ce_height := height el;
         ce_left := left el; ce_top := top el;
         ce_rotate := 0;
         ce_themeColors :=
           match ch_colors c with
           | Some (x :: l) => x :: l
           | _ => themeColors th
           end;
         ce_textColor := fontColor th;
         ce_data := data;
         ce_options := options |}.

(* ------------------------------------------------------------------ *)
(** ** The recursive flattener *)

(** [elements.sort((a, b) => a.order - b.order)]: a stable sort. *)
Fixpoint insertByOrder (x : Element) (l : list Element) : list Element :=
  match l with
  | [] => [x]
  | y :: l' =>
      if Qle_bool (order (common x)) (order (common y))
      then x :: y :: l'
      else y :: insertByOrder x l'
  end.

Definition sortByOrder (l : list Element) : list Element :=
  fold_right insertByOrder [] l.

(** The children of a group, moved into the frame of the slide. *)
Definition groupChildren (el : Common) (originWidth originHeight : Q)
    (elements : list Element) : list Element :=
  let originLeft := left el in
  let originTop := top el in
  let elements :=
    map (fun _el =>
           let c := common _el in
           let '(left_, top_) :=
             if truthyO (rotate el) then
               calculateRotatedPosition originLeft originTop
                 originWidth originHeight (left c) (top c)
                 (match rotate el with Some r => r | None => 0 end)
             else (left c + originLeft, top c + originTop) in
           El {| left := left_; top := top_;
                 width := width c; height := height c;
                 order := order c; rotate := rotate c;
                 isFlipH := match isFlipH c with
                            | Some b => if truthyB (isFlipH el)
                                        then Some true else Some b
                            | None => None
                            end;
                 isFlipV := match isFlipV c with
                            | Some b => if truthyB (isFlipV el)
                                        then Some true else Some b
                            | None => None
                            end |}
              (kind _el)) elements in
  let elements :=
    if truthyB (isFlipH el) then flipGroupElements elements AxisY
    else elements in
  let elements :=
    if truthyB (isFlipV el) then flipGroupElements elements AxisX
    else elements in
  elements.

(** The children of a diagram, moved into the frame of the slide. *)
Definition diagramChildren (el : Common) (elements : list Element)
  : list Element :=
  map (fun _el =>
         let c := common _el in
         El (withTop (withLeft c (left c + left el)) (top c + top el))
            (kind _el)) elements.

(** The body of the loop of [parseElements]; [recur] is [parseElements]
    itself. *)
Definition parseElement (recur : list Element -> Slide -> M Slide)
    (ratio : Q) (el0 : Element) (slide : Slide) : M Slide :=
  let originWidth := orElse (width (common el0)) 1 in
  let originHeight := orElse (height (common el0)) 1 in
  let el := scale ratio (common el0) in
  match kind el0 with
  | KText t =>
      textEl <- convertText el t ratio ;; ret (push (PText textEl) slide)
  | KImage i =>
      element <- convertImage el i ratio ;; ret (push (PImage element) slide)
  | KMath pic =>
      element <- convertMath el pic ;; ret (push (PImage element) slide)
  | KAudio blob =>
      element <- convertAudio el blob ;; ret (push (PAudio element) slide)
  | KVideo v =>
      element <- convertVideo el v ;; ret (push (PVideo element) slide)
  | KShape s =>
      if isLineShape s
      then lineElement <- parseLineElement el s ratio ;;
           ret (push (PLine lineElement) slide)
      else convertShape el s ratio originWidth originHeight slide
  | KTable t =>
      element <- convertTable el t ratio ;; ret (push (PTable element) slide)
  | KChart c =>
      element <- convertChart el c ;; ret (push (PChart element) slide)
  | KGroup elements =>
      recur (groupChildren (common el0) originWidth originHeight elements) slide
  | KDiagram elements =>
      recur (diagramChildren (common el0) elements) slide
  | KOther _ => ret slide
  end.

(** [parseElements(elements)], pushing into [slide]; [fuel] bounds the
    nesting of groups and diagrams. *)
Fixpoint parseElements (fuel : nat) (ratio : Q) (elements : list Element)
    (slide : Slide) : M Slide :=
  match fuel with
  | O => fun _ => OutOfFuel
  | S fuel' =>
      forOf (sortByOrder elements)
            (parseElement (parseElements fuel' ratio) ratio) slide
  end.

(** The nesting depth of a list of raw elements. *)
Fixpoint depth (e : Element) : nat :=
  match e with
  | El _ k =>
      match k with
      | KGroup l | KDiagram l => S (fold_right (fun x n => Nat.max (depth x) n) O l)
      | _ => O
      end
  end.

Definition depthList (l : list Element) : nat :=
  fold_right (fun x n => Nat.max (depth x) n) O l.

(* ------------------------------------------------------------------ *)
(** ** The slide assembler *)

Definition backgroundOf (fill : option Fill) : SlideBackground :=
  match fill with
  | Some (ImageFill pic _) => BgImage pic "cover"
  | Some (GradientFill value) =>
      BgGradient {| g_type := gradientTypeOf (rg_path value);
                    g_colors := convertStops (rg_colors value);
                    g_rotate := rg_rot value + 90 |}
  | Some (ColorFill value) => BgSolid (orElseS value "#fff")
  | None => BgSolid "#fff"
  end.

Definition orEmpty (l : option (list Element)) : list Element :=
  match l with Some l => l | None => [] end.

(** One turn of the loop over [json.slides].  The raw tree is finite, so
    the recursion of [parseElements] is bounded by its nesting depth: the
    fuel given here is enough ([parseElements_terminates]) and more fuel
    gives the same result ([parseElements_fuel]). *)
Definition processSlide (ratio : Q) (item : RawSlide) : M Slide :=
  let background := backgroundOf (sl_fill item) in
  id <- newId ;;
  let slide := {| slide_id := id; slide_elements := [];
                  slide_background := background;
                  slide_remark := sl_note item |} in
  let all := (orEmpty (sl_elements item) ++ orEmpty (sl_layoutElements item))%list in
  parseElements (S (depthList all)) ratio all slide.

(** The ratio of an import, and the viewport update it issues. *)
Definition setupRatio (size : option RawSize) (fixedViewport : bool) : M Q :=
  let ratio := 96 / 72 in
  match size with
  | Some sz =>
      if truthy (size_width sz) then
        let width_ := size_width sz in
        if fixedViewport then ret (1000 / width_)
        else _ <- storeCall (SetViewportSize (width_ * ratio)) ;; ret ratio
      else ret ratio
  | None => ret ratio
  end.

Definition processSlidesFromRawData (json : RawDocument) (fixedViewport : bool)
  : M (list Slide) :=
  ratio <- setupRatio (json_size json) fixedViewport ;;
  _ <- match json_themeColors json with
       | Some tc => storeCall (SetTheme tc)
       | None => ret tt
       end ;;
  mapM (processSlide ratio) (json_slides json).

End Hook.

(* ------------------------------------------------------------------ *)
(** ** The arithmetic of the hook in binary64

    The definitions above compute with exact rationals: they say which
    operation the hook applies to which operands.  A JavaScript [number]
    is a binary64 float, and three of the claims depend on how its
    operations round.  The numeric kernels those claims are about are
    given here a second time, line by line from the same source, on the
    binary64 floats of IEEE 754 with their own operations. *)
Module Binary64.

Import PrimFloat.
#[local] Set Warnings "-inexact-float".
#[local] Open Scope float_scope.

(** [Math.min(a, b)] and [Math.max(a, b)]: [NaN] when an argument is
    [NaN]; of the two zeros the negative one is the smaller. *)
Definition Math_min (a b : float) : float :=
  if is_nan a || is_nan b then nan
  else if ltb a b then a
  else if ltb b a then b
  else if get_sign a then a else b.

Definition Math_max (a b : float) : float :=
  if is_nan a || is_nan b then nan
  else if ltb a b then b
  else if ltb b a then a
  else if get_sign a then b else a.

(** [Math.min(...l)] and [Math.max(...l)]: the infinities on no argument. *)
Definition Math_min_list (l : list float) : float :=
  fold_left Math_min l infinity.

Definition Math_max_list (l : list float) : float :=
  fold_left Math_max l neg_infinity.

(** The four numeric properties every raw element has. *)
Record Box := { left : float; top : float; width : float; height : float }.

(** The four assignments [el.width = el.width * ratio], ... *)
Definition scale (ratio : float) (el : Box) : Box :=
  {| left := left el * ratio; top := top el * ratio;
     width := width el * ratio; height := height el * ratio |}.

(** [flipGroupElements(elements, axis)] *)
Definition flipGroupElements (elements : list Box) (axis : Axis) : list Box :=
  let minX := Math_min_list (map (fun el => left el) elements) in
  let maxX := Math_max_list (map (fun el => left el + width el) elements) in
  let minY := Math_min_list (map (fun el => top el) elements) in
  let maxY := Math_max_list (map (fun el => top el + height el) elements) in
  let centerX := (minX + maxX) / 2 in
  let centerY := (minY + maxY) / 2 in
  map (fun element =>
         match axis with
         | AxisY =>
             {| left := 2 * centerX - left element - width element;
                top := top element;
                width := width element; height := height element |}
         | AxisX =>
             {| left := left element;
                top := 2 * centerY - top element - height element;
                width := width element; height := height element |}
         end) elements.

(** The two lines of the table branch that normalise the column widths:
    [allWidth = colWidths.reduce((a, b) => a + b, 0)] and
    [colWidths.map(item => item / allWidth)]. *)
Definition colWidths (colWidths : list float) : list float :=
  let allWidth := fold_left add colWidths 0 in
  map (fun item => item / allWidth) colWidths.

(** [a === b] on numbers. *)
Definition strictEquals (a b : float) : bool := eqb a b.

(** Two siblings with decimal positions and sizes. *)
Definition twoBoxes : list Box :=
  [{| left := 10.1; top := 0; width := 50.2; height := 10 |};
   {| left := 100.3; top := 0; width := 20.4; height := 10 |}].

(** The box of the text element of the scaling example. *)
Definition exampleBox : Box :=
  {| left := 10; top := 20; width := 100; height := 50 |}.

End Binary64.

(* ------------------------------------------------------------------ *)
(** ** Sample collaborators and inputs

    A concrete instance of the collaborators, used to run the conversion
    on explicit inputs. *)

Definition sampleTheme (cs : list StoreCall) : Theme :=
  {| fontName := "Microsoft Yahei"; fontColor := "#333";
     themeColors :=
       fold_left (fun acc c => match c with
                               | SetTheme tc => tc
                               | SetViewportSize _ => acc
                               end) cs ["#5b9bd5"; "#ed7d31"] |}.

Definition sampleRect : ShapePoolItem :=
  {| pptxShapeType := Some "rect";
     sp_path := "M 0 0 L 200 0 L 200 200 L 0 200 Z";
     sp_viewBox := (200, 200); sp_pathFormula := None |}.

Definition sampleExternals : Externals :=
  {| nanoid := fun n => "id" ++ string_of_nat n;
     storeTheme := sampleTheme;
     SHAPE_LIST := [[sampleRect]];
     SHAPE_PATH_FORMULAS := fun _ => None;
     getSvgPathRange := fun _ => (0, 0);   (* the sample paths stay at the origin *)
     WMF2PNG_getPNG := fun _ => None;
     cellDom := fun text =>
       {| dom_textAlign := ""; dom_fontSize := ""; dom_fontFamily := "";
          dom_color := ""; dom_innerText := text |};
     Number_parseInt := fun _ => 0;
     Math_PI := 355 # 113;
     (* truncated series; the sample inputs are not rotated *)
     Math_cos := fun x => 1 - x * x / 2;
     Math_sin := fun x => x - x * x * x / 6 |}.

Definition world0 : World := {| calls := []; idsDrawn := 0; notices := [] |}.

Definition slide0 : Slide :=
  {| slide_id := "s"; slide_elements := [];
     slide_background := BgSolid "#fff"; slide_remark := "" |}.

Definition sampleBorder : Border :=
  {| borderColor := "#000"; borderWidth := 1; borderType := "solid" |}.

Definition box (l t w h : Q) : Common :=
  {| left := l; top := t; width := w; height := h; order := 0;
     rotate := Some 0; isFlipH := Some false; isFlipV := Some false |}.

Definition flipped (c : Common) (h v : bool) : Common :=
  {| left := left c; top := top c; width := width c; height := height c;
     order := order c; rotate := rotate c;
     isFlipH := Some h; isFlipV := Some v |}.

Definition sampleShape (shapType : string) (path : option string) : RawShape :=
  {| s_shapType := shapType; s_path := path; s_content := "";
     s_vAlign := "mid"; s_border := sampleBorder; s_fill := None;
     s_shadow := None |}.

Definition sampleText : RawText :=
  {| t_content := "<p>hello</p>"; t_border := sampleBorder;
     t_fill := None; t_isVertical := Some false; t_shadow := None |}.

Definition lineShape (border : Border) (path : option string)
    (content vAlign : string) (fill : option Fill) (shadow : option Shadow)
  : RawShape :=
  {| s_shapType := "line"; s_path := path; s_content := content;
     s_vAlign := vAlign; s_border := border; s_fill := fill;
     s_shadow := shadow |}.

Definition sampleChart (chartType : string) (barDir : option string) : RawChart :=
  {| ch_chartType := chartType;
     ch_data := CommonData
                  [{| ci_key := "Series 1";
                      ci_values := [{| cv_x := "A"; cv_y := 1 |}];
                      ci_xlabels := ["A"] |}];
     ch_barDir := barDir; ch_grouping := None; ch_colors := None |}.

Definition sampleGradient : RawGradient :=
  {| rg_path := "line"; rg_rot := 45;
     rg_colors := [{| rs_pos := "0%"; rs_color := "#fff" |};
                   {| rs_pos := "100%"; rs_color := "#000" |}] |}.

Definition gradientShape (shapType : string) : RawShape :=
  {| s_shapType := shapType; s_path := None; s_content := "";
     s_vAlign := "mid"; s_border := sampleBorder;
     s_fill := Some (GradientFill sampleGradient); s_shadow := None |}.

Definition gradientSlide : RawSlide :=
  {| sl_fill := Some (GradientFill sampleGradient); sl_note := "";
     sl_elements := Some [El (box 0 0 10 10) (KShape (gradientShape "rect"))];
     sl_layoutElements := None |}.

(** A shape of an unknown vendor type without a raw path, one with a raw
    path whose range is degenerate, and a rectangle. *)
Definition threeShapes : list Element :=
  [El (box 0 0 10 10) (KShape (sampleShape "unknownShape" None));
   El (box 20 0 10 10) (KShape (sampleShape "unknownShape" (Some "M 0 0 Z")));
   El (box 40 0 10 10) (KShape (sampleShape "rect" None))].

Definition sampleCell : RawCell :=
  {| c_text := "<p>cell</p>"; c_fontColor := "#000"; c_fontBold := None;
     c_fillColor := "#fff"; c_colSpan := 1; c_rowSpan := 1;
     c_borders := None |}.

(** A table of two rows and two columns with the given column widths. *)
Definition sampleTable (colWidths : list Q) : RawTable :=
  {| tb_data := [[sampleCell; sampleCell]; [sampleCell; sampleCell]];
     tb_colWidths := colWidths; tb_rowHeights := [20; 20];
     tb_borders := None |}.

Definition textSlide : RawSlide :=
  {| sl_fill := None; sl_note := "";
     sl_elements := Some [El (box 10 20 100 50) (KText sampleText)];
     sl_layoutElements := None |}.

(** A raw document that declares a canvas of width 1280. *)
Definition sampleDocument : RawDocument :=
  {| json_size := Some {| size_width := 1280 |};
     json_themeColors := Some ["#111"; "#222"];
     json_slides := [textSlide] |}.

Definition groupedText (g : Common) : Element :=
  El g (KGroup [El (box 10 20 100 50) (KText sampleText)]).

(** A deck without a declared size whose only slide holds the line of the
    second scenario: flipped horizontally only, 100 by 50, rotation 0. *)
Definition flipHLineDocument : RawDocument :=
  {| json_size := None; json_themeColors := None;
     json_slides :=
       [{| sl_fill := None; sl_note := "";
           sl_elements :=
             Some [El (flipped (box 0 0 100 50) true false)
                      (KShape (lineShape sampleBorder None "" "mid" None None))];
           sl_layoutElements := None |}] |}.

(** A line whose raw border width is 0. *)
Definition hairline : RawShape :=
  lineShape {| borderColor := "#000"; borderWidth := 0; borderType := "solid" |}
            None "" "mid" None None.

Definition threeSiblings : list Element :=
  [El (box 10 0 50 20) (KText sampleText);
   El (box 100 30 20 20) (KMath "pic");
   El (box 40 60 30 10) (KAudio "blob")].

Definition twoTexts : list Element :=
  [El (box 10 0 50 20) (KText sampleText);
   El (box 100 30 20 20) (KText sampleText)].

(** A container flipped horizontally, at the origin. *)
Definition flippedContainer : Common := flipped (box 0 0 200 100) true false.

(** A group in a group: two texts and an element of unknown type two
    levels down, a video beside them. *)
Definition nestedGroups : list Element :=
  [El (box 0 0 300 200)
      (KGroup [El (box 10 10 200 100) (KGroup twoTexts);
               El (box 0 0 1 1) (KOther "unknown")]);
   El (box 0 0 10 10) (KVideo {| v_blob := Some "blob"; v_src := None |})].

(** A table whose second row is shorter than the first. *)
Definition raggedTable : RawTable :=
  {| tb_data := [[sampleCell; sampleCell]; [sampleCell]];
     tb_colWidths := [1; 1]; tb_rowHeights := [20; 20];
     tb_borders := None |}.

(** A text, then a ragged table inside a group, then a video. *)
Definition brokenDeck : list Element :=
  [El (box 0 0 10 10) (KText sampleText);
   El (box 0 0 100 100) (KGroup [El (box 0 0 50 50) (KTable raggedTable)]);
   El (box 0 0 10 10) (KVideo {| v_blob := Some "blob"; v_src := None |})].

(** A document whose only slide holds [brokenDeck]. *)
Definition brokenDocument : RawDocument :=
  {| json_size := Some {| size_width := 1280 |};
     json_themeColors := None;
     json_slides := [{| sl_fill := None; sl_note := "";
                        sl_elements := Some brokenDeck;
                        sl_layoutElements := None |}] |}.

(** A stacked line chart with two series of three values. *)
Definition stackedChart : RawChart :=
  {| ch_chartType := "lineChart";
     ch_data := CommonData
       [{| ci_key := "2023";
           ci_values := [{| cv_x := "a"; cv_y := 1 |}; {| cv_x := "b"; cv_y := 2 |};
                         {| cv_x := "c"; cv_y := 3 |}];
           ci_xlabels := ["a"; "b"; "c"] |};
        {| ci_key := "2024";
           ci_values := [{| cv_x := "a"; cv_y := 4 |}; {| cv_x := "b"; cv_y := 5 |};
                         {| cv_x := "c"; cv_y := 6 |}];
           ci_xlabels := ["a"; "b"; "c"] |}];
     ch_barDir := None; ch_grouping := Some "stacked"; ch_colors := None |}.

(* ------------------------------------------------------------------ *)
(** ** Vocabulary of the properties *)

(** The vendor chart types the [switch] of the chart branch names, and
    the chart types of the editor. *)
Definition recognizedChartTypes : list string :=
  ["barChart"; "bar3DChart"; "lineChart"; "line3DChart"; "areaChart";
   "area3DChart"; "scatterChart"; "bubbleChart"; "pieChart"; "pie3DChart";
   "radarChart"; "doughnutChart"].

Definition internalChartTypes : list string :=
  ["bar"; "column"; "line"; "area"; "scatter"; "pie"; "radar"; "ring"].

(** [slide] after pushing the elements [new], in order. *)
Definition pushAll (slide : Slide) (new : list PPTElement) : Slide :=
  {| slide_id := slide_id slide;
     slide_elements := (slide_elements slide ++ new)%list;
     slide_background := slide_background slide;
     slide_remark := slide_remark slide |}.

(** A computation on a slide that, when it returns, has only pushed
    elements. *)
Definition appendsOnly (m : M Slide) (slide : Slide) : Prop :=
  forall w slide' w', m w = Ok slide' w' -> exists new, slide' = pushAll slide new.

(** A computation that sends nothing to the store, whether it returns or
    throws. *)
Definition keepsCalls {A} (m : M A) : Prop :=
  forall w w', worldOf (m w) = Some w' -> calls w' = calls w.

(** A computation that never runs out of fuel. *)
Definition terminates {A} (m : M A) : Prop :=
  forall w, m w <> OutOfFuel.

(** Two raw elements that agree on every property, [left] and [top] as
    numbers. *)
Definition samePlace (a b : Element) : Prop :=
  left (common a) == left (common b) /\
  top (common a) == top (common b) /\
  width (common a) = width (common b) /\
  height (common a) = height (common b) /\
  order (common a) = order (common b) /\
  rotate (common a) = rotate (common b) /\
  isFlipH (common a) = isFlipH (common b) /\
  isFlipV (common a) = isFlipV (common b) /\
  kind a = kind b.

(** [ch'] is the child [ch] of the group [g] moved into the frame of the
    slide: translated by the origin of [g], or placed by
    [calculateRotatedPosition] when [g] is rotated; nothing else but the
    flip flags, which the group sets on the children that have them, may
    differ. *)
Definition movedBy {E : Externals} (g : Common) (ow oh : Q)
    (ch ch' : Element) : Prop :=
  kind ch' = kind ch /\
  width (common ch') = width (common ch) /\
  height (common ch') = height (common ch) /\
  order (common ch') = order (common ch) /\
  rotate (common ch') = rotate (common ch) /\
  isFlipH (common ch') =
    option_map (fun b => if truthyB (isFlipH g) then true else b)
               (isFlipH (common ch)) /\
  isFlipV (common ch') =
    option_map (fun b => if truthyB (isFlipV g) then true else b)
               (isFlipV (common ch)) /\
  (left (common ch'), top (common ch')) =
    match rotate g with
    | Some k =>
        if truthy k
        then calculateRotatedPosition (left g) (top g) ow oh
               (left (common ch)) (top (common ch)) k
        else (left (common ch) + left g, top (common ch) + top g)
    | None => (left (common ch) + left g, top (common ch) + top g)
    end.

(** [ch'] is the child [ch] of the diagram [g] translated by the origin of
    [g]. *)
Definition translatedBy (g : Common) (ch ch' : Element) : Prop :=
  kind ch' = kind ch /\
  width (common ch') = width (common ch) /\
  height (common ch') = height (common ch) /\
  order (common ch') = order (common ch) /\
  rotate (common ch') = rotate (common ch) /\
  isFlipH (common ch') = isFlipH (common ch) /\
  isFlipV (common ch') = isFlipV (common ch) /\
  left (common ch') = left (common ch) + left g /\
  top (common ch') = top (common ch) + top g.

(** The horizontal and the vertical extent of the joint bounding box of
    the non-empty array [e0 :: rest]: [(minX, maxX)] and [(minY, maxY)],
    as [flipGroupElements] computes them. *)
Definition extentX (e0 : Element) (rest : list Element) : Q * Q :=
  (Math_min_list (left (common e0)) (map (fun el => left (common el)) rest),
   Math_max_list (left (common e0) + width (common e0))
     (map (fun el => left (common el) + width (common el)) rest)).

Definition extentY (e0 : Element) (rest : list Element) : Q * Q :=
  (Math_min_list (top (common e0)) (map (fun el => top (common el)) rest),
   Math_max_list (top (common e0) + height (common e0))
     (map (fun el => top (common el) + height (common el)) rest)).

(** [a] may come before [b] in the order of conversion. *)
Definition orderLe (a b : Element) : Prop :=
  order (common a) <= order (common b).

(** The elements whose [order] is [k], as they follow one another. *)
Definition withOrder (k : Q) (l : list Element) : list Element :=
  filter (fun e => Qeq_bool (order (common e)) k) l.

(** The number of raw elements of a tree that are not containers and
    have a type the flattener knows. *)
Fixpoint leaves (e : Element) : nat :=
  match e with
  | El _ k =>
      match k with
      | KGroup l | KDiagram l => fold_right (fun x n => (leaves x + n)%nat) O l
      | KOther _ => O
      | _ => 1%nat
      end
  end.

Definition leavesList (l : list Element) : nat :=
  fold_right (fun x n => (leaves x + n)%nat) O l.

(** A computation on a slide that, when it returns, has pushed at most
    [n] elements. *)
Definition pushesAtMost (n : nat) (m : M Slide) (slide : Slide) : Prop :=
  forall w slide' w',
    m w = Ok slide' w' ->
    exists new, slide' = pushAll slide new /\ (List.length new <= n)%nat.

(** Whether a computation returns or throws a [TypeError], when that does
    not depend on the world it starts in: it returns if [b] holds and
    throws otherwise. *)
Definition decides {A} (b : bool) (m : M A) : Prop :=
  forall w,
    if b then exists a w', m w = Ok a w'
    else exists w', m w = Throw "TypeError" w'.

(** A table the table branch can read: it has a first row, that row has a
    first cell, and no row is shorter than the first. *)
Definition tableConverts (t : RawTable) : bool :=
  match tb_data t with
  | [] => false
  | row0 :: _ =>
      forallb (fun rowi => Nat.leb (List.length row0) (List.length rowi))
              (tb_data t)
      && negb (Nat.eqb (List.length row0) 0)
  end.

(** A chart the chart branch can read: two coordinate arrays or more for a
    scatter or bubble chart, one series or more for the others. *)
Definition chartConverts (c : RawChart) : bool :=
  if String.eqb (ch_chartType c) "scatterChart"
     || String.eqb (ch_chartType c) "bubbleChart"
  then match ch_data c with ScatterData (_ :: _) => true | _ => false end
  else match ch_data c with CommonData (_ :: _) => true | _ => false end.

(** A shape the shape branch can resolve: the formula its table entry
    names exists, and a 'custom' shape has a raw path. *)
Definition shapeConverts {E : Externals} (s : RawShape) : bool :=
  match find (hasShapeType (s_shapType s)) shapeList with
  | Some shape =>
      if truthyOS (sp_pathFormula shape) then
        match SHAPE_PATH_FORMULAS
                (match sp_pathFormula shape with Some n => n | None => "" end)
        with Some _ => true | None => false end
      else true
  | None => true
  end
  && (if String.eqb (s_shapType s) "custom"
      then match s_path s with Some _ => true | None => false end
      else true).

(** A raw element all of whose leaves can be converted. *)
Fixpoint converts {E : Externals} (e : Element) : bool :=
  match e with
  | El _ k =>
      match k with
      | KShape s => if isLineShape s then true else shapeConverts s
      | KTable t => tableConverts t
      | KChart c => chartConverts c
      | KGroup l | KDiagram l => forallb converts l
      | _ => true
      end
  end.

(** A raw slide all of whose elements, own and of the layout, can be
    converted. *)
Definition slideConverts {E : Externals} (item : RawSlide) : bool :=
  forallb converts
    (orEmpty (sl_elements item) ++ orEmpty (sl_layoutElements item))%list.

(** The vendor chart types for which the [switch] looks at the grouping. *)
Definition stackableChartTypes : list string :=
  ["barChart"; "bar3DChart"; "lineChart"; "line3DChart"; "areaChart";
   "area3DChart"].

(** Every character of a string is in a class. *)
Fixpoint allChars (p : ascii -> bool) (s : string) : bool :=
  match s with
  | EmptyString => true
  | String c s' => p c && allChars p s'
  end.

(** The attribute the pattern of [convertEmfDataUrlToPng] looks for: the
    letters src, an equals sign and the value between double quotes. *)
Definition srcAttribute (value : string) : string :=
  String "s" (String "r" (String "c" (String "="
    (String quoteChar (value ++ String quoteChar EmptyString))))).

(** The path the shape branch leaves in [element.path] for a raw shape
    that is not a line, by the assignments to it in source order: the
    default rectangle, then the path of the table entry or of its formula
    (or the usable raw path when the table has no entry), then the raw
    path of a 'custom' shape; [None] where the branch throws.  [el] is the
    scaled box of the element. *)
Definition resolvedPath {E : Externals} (el : Common) (s : RawShape)
  : option string :=
  let fromTable :=
    match find (hasShapeType (s_shapType s)) shapeList with
    | Some shape =>
        if truthyOS (sp_pathFormula shape) then
          match SHAPE_PATH_FORMULAS
                  (match sp_pathFormula shape with Some n => n | None => "" end)
          with
          | Some pathFormula =>
              Some (if pf_editable pathFormula
                    then pf_formula pathFormula (width el) (height el)
                           (Some (pf_defaultValue pathFormula))
                    else pf_formula pathFormula (width el) (height el) None)
          | None => None
          end
        else Some (sp_path shape)
    | None =>
        Some (if usablePath (s_path s)
              then match s_path s with Some p => p | None => "" end
              else defaultPath)
    end in
  match fromTable with
  | None => None
  | Some path =>
      if String.eqb (s_shapType s) "custom" then
        match s_path s with
        | None => None
        | Some raw =>
            Some (if includes "NaN" raw then replaceAll "NaN" "0" raw else raw)
        end
      else Some path
  end.

(** [e'] is [e] with one coordinate reflected about [center], as the
    callback of [flipGroupElements] writes it: the left for the axis 'y',
    the top for the axis 'x'; every other property is copied. *)
Definition reflectedBy (center : Q * Q) (axis : Axis) (e e' : Element) : Prop :=
  kind e' = kind e /\
  width (common e') = width (common e) /\
  height (common e') = height (common e) /\
  order (common e') = order (common e) /\
  rotate (common e') = rotate (common e) /\
  isFlipH (common e') = isFlipH (common e) /\
  isFlipV (common e') = isFlipV (common e) /\
  match axis with
  | AxisY =>
      top (common e') = top (common e) /\
      left (common e') = 2 * fst center - left (common e) - width (common e)
  | AxisX =>
      left (common e') = left (common e) /\
      top (common e') = 2 * snd center - top (common e) - height (common e)
  end.

(** [e'] agrees with [e] on every property but the coordinate a flip about
    [axis] writes. *)
Definition sameButFlipped (axis : Axis) (e e' : Element) : Prop :=
  kind e' = kind e /\
  width (common e') = width (common e) /\
  height (common e') = height (common e) /\
  order (common e') = order (common e) /\
  rotate (common e') = rotate (common e) /\
  isFlipH (common e') = isFlipH (common e) /\
  isFlipV (common e') = isFlipV (common e) /\
  match axis with
  | AxisY => top (common e') = top (common e)
  | AxisX => left (common e') = left (common e)
  end.

(** The sum of a list of numbers. *)
Definition sumQ (l : list Q) : Q := fold_left Qplus l 0.

(** The viewport updates among the calls received by the store. *)
Definition viewportUpdates (cs : list StoreCall) : list Q :=
  flat_map (fun c => match c with
                     | SetViewportSize px => [px]
                     | SetTheme _ => []
                     end) cs.

(* ------------------------------------------------------------------ *)
(** * Properties *)

(** ** Lines and connectors *)

Section LineProperties.
Context {E : Externals}.

(** Without a rotation the end points of a converted line are read off the
    two flip flags; a bent or curved connector only adds control points. *)
Lemma parseLineElement_unrotated (c : Common) (s : RawShape) (ratio : Q)
    (w : World) :
  truthyO (rotate c) = false ->
  exists data w',
    parseLineElement c s ratio w = Ok data w' /\
    le_left data = left c /\ le_top data = top c /\
    (le_start data, le_end data) =
      match truthyB (isFlipV c), truthyB (isFlipH c) with
      | false, false => ((0, 0), (width c, height c))
      | true, true => ((width c, height c), (0, 0))
      | true, false => ((0, height c), (width c, 0))
      | false, true => ((width c, 0), (0, height c))
      end.
Proof.
  intros Hrot. unfold parseLineElement, bind, newId, ret.
  assert (Hdata :
    match rotate c with
    | Some r => truthy r
    | None => false
    end = false) by exact Hrot.
  destruct (truthyB (isFlipV c)), (truthyB (isFlipH c)); cbn [negb andb];
    destruct (rotate c) as [r|]; try rewrite Hdata;
    destruct (includes "bentConnector" (s_shapType s));
    destruct (includes "curvedConnector" (s_shapType s));
    do 2 eexists; (split; [reflexivity | cbn; auto]).
Qed.

(** The stroke of a converted line: the raw border width, 1 when that is
    0, times the ratio, rounded to two decimals. *)
Lemma parseLineElement_width (c : Common) (s : RawShape) (ratio : Q)
    (w : World) :
  exists data w',
    parseLineElement c s ratio w = Ok data w' /\
    le_width data = toFixedNum 2 (orElse (borderWidth (s_border s)) 1 * ratio).
Proof.
  unfold parseLineElement, bind, newId, ret.
  destruct (negb (truthyB (isFlipV c)) && negb (truthyB (isFlipH c)))%bool;
    [| destruct (truthyB (isFlipV c) && truthyB (isFlipH c))%bool;
       [| destruct (truthyB (isFlipV c) && negb (truthyB (isFlipH c)))%bool]];
    (destruct (rotate c) as [r |]; [destruct (truthy r) |]);
    destruct (includes "bentConnector" (s_shapType s));
    destruct (includes "curvedConnector" (s_shapType s));
    do 2 eexists; (split; [reflexivity | reflexivity]).
Qed.

(** C2 (as amended): for every raw line or connector without rotation the
    start and end points follow a four-way lookup on (isFlipV, isFlipH):
    neither set, top-left [0,0] to bottom-right [width,height]; both set,
    bottom-right to top-left; isFlipV only, bottom-left [0,height] to
    top-right [width,0]; isFlipH only, top-right [width,0] to bottom-left
    [0,height]. *)
Theorem parseLineElement_endpoints (c : Common) (s : RawShape) (ratio : Q)
    (w : World) :
  truthyO (rotate c) = false ->
  exists data w',
    parseLineElement c s ratio w = Ok data w' /\
    (truthyB (isFlipV c) = false -> truthyB (isFlipH c) = false ->
       le_start data = (0, 0) /\ le_end data = (width c, height c)) /\
    (truthyB (isFlipV c) = true -> truthyB (isFlipH c) = true ->
       le_start data = (width c, height c) /\ le_end data = (0, 0)) /\
    (truthyB (isFlipV c) = true -> truthyB (isFlipH c) = false ->
       le_start data = (0, height c) /\ le_end data = (width c, 0)) /\
    (truthyB (isFlipV c) = false -> truthyB (isFlipH c) = true ->
       le_start data = (width c, 0) /\ le_end data = (0, height c)).
Proof.
  intros Hrot.
  destruct (parseLineElement_unrotated c s ratio w Hrot)
    as (data & w' & Hrun & _ & _ & Hpts).
  exists data, w'. split; [exact Hrun |].
  split; [| split; [| split]]; intros HV HH; rewrite HV, HH in Hpts;
    inversion Hpts; split; reflexivity.
Qed.


End LineProperties.

(** C8, as stated, fails: a deck that declares no size is converted at the
    ratio 96/72, and the line of the scenario then goes from
    [100 * 96/72, 0] to [0, 50 * 96/72], not from [100,0] to [0,50]. *)
Lemma line_flipH_scaled_counterexample :
  exists slide data w',
    processSlidesFromRawData (E := sampleExternals) flipHLineDocument false
      world0 = Ok [slide] w' /\
    slide_elements slide = [PLine data] /\
    le_start data = (100 * (96 / 72), 0) /\
    le_end data = (0, 50 * (96 / 72)) /\
    ~ fst (le_start data) == 100 /\ ~ snd (le_end data) == 50.
Proof.
  do 3 eexists. split; [cbv; reflexivity |].
  cbn. repeat split; try reflexivity; discriminate.
Qed.

(** C2, witness: a line flipped vertically only. *)
Lemma parseLineElement_endpoints_witness :
  exists data w',
    parseLineElement (E := sampleExternals) (flipped (box 0 0 100 50) false true)
      (sampleShape "line" None) 1 world0 = Ok data w' /\
    le_start data = (0, 50) /\ le_end data = (100, 0).
Proof.
  destruct (parseLineElement_endpoints (E := sampleExternals)
              (flipped (box 0 0 100 50) false true)
              (sampleShape "line" None) 1 world0 eq_refl)
    as (data & w' & Hrun & _ & _ & HV & _).
  exists data, w'. split; [exact Hrun |].
  exact (HV eq_refl eq_refl).
Defined.

(** C2, as stated, fails: with isFlipV only, the line starts at the
    bottom-left corner [0,50], not at the top-right corner [100,0]. *)
Lemma parseLineElement_flipV_only_counterexample :
  exists data w',
    parseLineElement (E := sampleExternals) (flipped (box 0 0 100 50) false true)
      (sampleShape "line" None) 1 world0 = Ok data w' /\
    le_start data = (0, 50) /\ le_end data = (100, 0) /\
    le_start data <> (100, 0) /\ le_end data <> (0, 50).
Proof.
  do 2 eexists. split; [reflexivity |].
  cbn. repeat split; discriminate.
Qed.

(* ------------------------------------------------------------------ *)
(** ** Reasoning about [M] *)

Lemma bind_Ok {A B} (m : M A) (f : A -> M B) (w : World) (b : B) (w' : World) :
  bind m f w = Ok b w' ->
  exists a w1, m w = Ok a w1 /\ f a w1 = Ok b w'.
Proof.
  unfold bind. destruct (m w) as [a w1 | e w1 |]; try discriminate.
  intros H. exists a, w1. split; [reflexivity | exact H].
Qed.

Lemma ret_Ok {A} (a b : A) (w w' : World) : ret a w = Ok b w' -> a = b /\ w = w'.
Proof. unfold ret. intros H. inversion H. split; reflexivity. Qed.

Lemma throw_Ok {A} (e : string) (w : World) (b : A) (w' : World) :
  throw e w = Ok b w' -> False.
Proof. unfold throw. discriminate. Qed.

Arguments convertFontSizePtToPx : simpl never.
Arguments toFixedNum : simpl never.
Arguments toFixed : simpl never.
Arguments includes : simpl never.
Arguments replaceAll : simpl never.
Arguments Qmult : simpl never.
Arguments Qplus : simpl never.
Arguments Qdiv : simpl never.

(** Decompose a successful run, one [bind] at a time. *)
Tactic Notation "inv_bind" hyp(H) "as" ident(a) ident(w) ident(H1) :=
  apply bind_Ok in H; destruct H as (a & w & H1 & H).

Ltac inv_ret H :=
  lazymatch type of H with
  | ret _ _ = Ok _ _ => apply ret_Ok in H; destruct H as [? ?]; subst
  | throw _ _ = Ok _ _ => exfalso; exact (throw_Ok H)
  end.

(** Case analysis on every branch a run went through. *)
Ltac inv_branches H :=
  repeat match type of H with
         | context [match ?x with _ => _ end] => destruct x eqn:?
         end;
  try inv_ret H.

(* ------------------------------------------------------------------ *)
(** ** Charts *)

Section ChartProperties.
Context {E : Externals}.

Lemma convertChart_type (el : Common) (c : RawChart) (w : World)
    (e : PPTChartElement) (w' : World) :
  convertChart el c w = Ok e w' -> ce_chartType e = fst (chartSwitch c).
Proof.
  unfold convertChart. intros H.
  inv_bind H as data w1 Hdata. destruct (chartSwitch c) as [chartType options].
  inv_bind H as id w2 Hid. inv_bind H as th w3 Hth. inv_ret H. reflexivity.
Qed.

Lemma chartSwitch_table (c : RawChart) :
  let ct := ch_chartType c in
  let out := fst (chartSwitch c) in
  (ct = "barChart" \/ ct = "bar3DChart" ->
     (ch_barDir c = Some "bar" -> out = "column") /\
     (ch_barDir c <> Some "bar" -> out = "bar")) /\
  (ct = "lineChart" \/ ct = "line3DChart" -> out = "line") /\
  (ct = "areaChart" \/ ct = "area3DChart" -> out = "area") /\
  (ct = "scatterChart" \/ ct = "bubbleChart" -> out = "scatter") /\
  (ct = "pieChart" \/ ct = "pie3DChart" -> out = "pie") /\
  (ct = "radarChart" -> out = "radar") /\
  (ct = "doughnutChart" -> out = "ring") /\
  (~ In ct recognizedChartTypes -> out = "bar") /\
  In out internalChartTypes.
Proof.
  cbv zeta. unfold chartSwitch.
  repeat match goal with |- _ /\ _ => split end.
  - intros [H | H]; rewrite H; cbn; split.
    + intros Hd; rewrite Hd; reflexivity.
    + intros Hd. destruct (ch_barDir c) as [d|]; [| reflexivity].
      destruct (String.eqb_spec d "bar"); [subst; congruence | reflexivity].
    + intros Hd; rewrite Hd; reflexivity.
    + intros Hd. destruct (ch_barDir c) as [d|]; [| reflexivity].
      destruct (String.eqb_spec d "bar"); [subst; congruence | reflexivity].
  - intros [H | H]; rewrite H; reflexivity.
  - intros [H | H]; rewrite H; reflexivity.
  - intros [H | H]; rewrite H; reflexivity.
  - intros [H | H]; rewrite H; reflexivity.
  - intros H; rewrite H; reflexivity.
  - intros H; rewrite H; reflexivity.
  - intros Hnot. unfold recognizedChartTypes in Hnot. cbn in Hnot.
    repeat match goal with
    | |- context [String.eqb ?a ?b] =>
        destruct (String.eqb_spec a b) as [Heq | _];
        [exfalso; apply Hnot; rewrite Heq; tauto |]
    end.
    reflexivity.
  - unfold internalChartTypes.
    repeat match goal with
    | |- context [String.eqb (ch_chartType c) ?b] =>
        destruct (String.eqb (ch_chartType c) b)
    end; cbn [orb fst];
    try (destruct (ch_barDir c) as [d|]; [destruct (String.eqb d "bar") |]);
    cbn; tauto.
Qed.

End ChartProperties.

(* ------------------------------------------------------------------ *)
(** ** Frame properties of the converters *)

Section Frames.
Context {E : Externals}.

Lemma keepsCalls_ret {A} (a : A) : keepsCalls (ret a).
Proof. intros w w' H. cbn in H. congruence. Qed.

Lemma keepsCalls_throw {A} (e : string) : keepsCalls (@throw A e).
Proof. intros w w' H. cbn in H. congruence. Qed.

Lemma keepsCalls_bind {A B} (m : M A) (f : A -> M B) :
  keepsCalls m -> (forall a, keepsCalls (f a)) -> keepsCalls (bind m f).
Proof.
  intros Hm Hf w w' H. unfold bind in H.
  destruct (m w) as [a w1 | e w1 |] eqn:Hmw.
  - rewrite (Hf a w1 w' H). apply Hm. rewrite Hmw. reflexivity.
  - apply Hm. rewrite Hmw. exact H.
  - discriminate.
Qed.

Lemma keepsCalls_newId : keepsCalls newId.
Proof. intros w w' H. cbn in H. inversion H. reflexivity. Qed.

Lemma keepsCalls_theme : keepsCalls theme.
Proof. intros w w' H. cbn in H. congruence. Qed.

Lemma keepsCalls_message_error (s : string) : keepsCalls (message_error s).
Proof. intros w w' H. cbn in H. inversion H. reflexivity. Qed.

Lemma keepsCalls_forOf {A S} (l : list A) (body : A -> S -> M S) :
  (forall x s, In x l -> keepsCalls (body x s)) ->
  forall s, keepsCalls (forOf l body s).
Proof.
  induction l as [| x l IH]; intros Hbody s; cbn.
  - apply keepsCalls_ret.
  - apply keepsCalls_bind.
    + apply Hbody. left. reflexivity.
    + intros s'. apply IH. intros y s0 Hy. apply Hbody. right. exact Hy.
Qed.

Lemma keepsCalls_mapM {A B} (f : A -> M B) (l : list A) :
  (forall x, keepsCalls (f x)) -> keepsCalls (mapM f l).
Proof.
  intros Hf. induction l as [| x l IH]; cbn.
  - apply keepsCalls_ret.
  - apply keepsCalls_bind; [apply Hf |].
    intros y. apply keepsCalls_bind; [exact IH |].
    intros ys. apply keepsCalls_ret.
Qed.

Lemma terminates_ret {A} (a : A) : terminates (ret a).
Proof. intros w. discriminate. Qed.

Lemma terminates_throw {A} (e : string) : terminates (@throw A e).
Proof. intros w. discriminate. Qed.

Lemma terminates_bind {A B} (m : M A) (f : A -> M B) :
  terminates m -> (forall a, terminates (f a)) -> terminates (bind m f).
Proof.
  intros Hm Hf w. unfold bind.
  destruct (m w) as [a w1 | e w1 |] eqn:Hmw.
  - apply Hf.
  - discriminate.
  - exfalso. exact (Hm w Hmw).
Qed.

Lemma terminates_newId : terminates newId.
Proof. intros w. discriminate. Qed.

Lemma terminates_theme : terminates theme.
Proof. intros w. discriminate. Qed.

Lemma terminates_message_error (s : string) : terminates (message_error s).
Proof. intros w. discriminate. Qed.

Lemma terminates_storeCall (c : StoreCall) : terminates (storeCall c).
Proof. intros w. discriminate. Qed.

Lemma terminates_forOf {A S} (l : list A) (body : A -> S -> M S) :
  (forall x s, In x l -> terminates (body x s)) ->
  forall s, terminates (forOf l body s).
Proof.
  induction l as [| x l IH]; intros Hbody s; cbn.
  - apply terminates_ret.
  - apply terminates_bind.
    + apply Hbody. left. reflexivity.
    + intros s'. apply IH. intros y s0 Hy. apply Hbody. right. exact Hy.
Qed.

Lemma terminates_mapM {A B} (f : A -> M B) (l : list A) :
  (forall x, terminates (f x)) -> terminates (mapM f l).
Proof.
  intros Hf. induction l as [| x l IH]; cbn.
  - apply terminates_ret.
  - apply terminates_bind; [apply Hf |].
    intros y. apply terminates_bind; [exact IH |].
    intros ys. apply terminates_ret.
Qed.

End Frames.

Create HintDb frames.
#[export] Hint Resolve keepsCalls_ret keepsCalls_throw keepsCalls_newId
  keepsCalls_theme keepsCalls_message_error terminates_ret terminates_throw
  terminates_newId terminates_theme terminates_message_error
  terminates_storeCall : frames.

(** Walk down a converter: every step is a [bind], a branch or a leaf. *)
Ltac frame_step :=
  first
    [ solve [auto with frames]
    | apply keepsCalls_bind; [| intros ?]
    | apply terminates_bind; [| intros ?]
    | apply keepsCalls_mapM; intros ?
    | apply terminates_mapM; intros ?
    | match goal with
      | |- keepsCalls (match ?x with _ => _ end) => destruct x
      | |- terminates (match ?x with _ => _ end) => destruct x
      | |- keepsCalls (let (_, _) := ?x in _) => destruct x
      | |- terminates (let (_, _) := ?x in _) => destruct x
      end
    | progress cbv zeta ].

Ltac frame := repeat frame_step.

(** A branch that converts one element and pushes it. *)
Ltac leaf_frame lem :=
  first [apply keepsCalls_bind | apply terminates_bind];
  [apply lem | intros ?; auto with frames].

Section ConverterFrames.
Context {E : Externals}.

Lemma convertEmf_frame (u : string) :
  keepsCalls (convertEmfDataUrlToPng u) /\ terminates (convertEmfDataUrlToPng u).
Proof. split; unfold convertEmfDataUrlToPng; frame. Qed.

Lemma convertText_frame el t r :
  keepsCalls (convertText el t r) /\ terminates (convertText el t r).
Proof. split; unfold convertText; frame. Qed.

Lemma convertImage_frame el i r :
  keepsCalls (convertImage el i r) /\ terminates (convertImage el i r).
Proof.
  split; unfold convertImage; frame; apply convertEmf_frame.
Qed.

Lemma convertMath_frame el p :
  keepsCalls (convertMath el p) /\ terminates (convertMath el p).
Proof. split; unfold convertMath; frame. Qed.

Lemma convertAudio_frame el b :
  keepsCalls (convertAudio el b) /\ terminates (convertAudio el b).
Proof. split; unfold convertAudio; frame. Qed.

Lemma convertVideo_frame el v :
  keepsCalls (convertVideo el v) /\ terminates (convertVideo el v).
Proof. split; unfold convertVideo; frame. Qed.

Lemma parseLineElement_frame el s r :
  keepsCalls (parseLineElement el s r) /\ terminates (parseLineElement el s r).
Proof. split; unfold parseLineElement; frame. Qed.

Lemma convertShape_frame el s r ow oh slide :
  keepsCalls (convertShape el s r ow oh slide) /\
  terminates (convertShape el s r ow oh slide).
Proof. split; unfold convertShape; frame. Qed.

Lemma convertCell_frame c r :
  keepsCalls (convertCell c r) /\ terminates (convertCell c r).
Proof. split; unfold convertCell; frame. Qed.

Lemma convertTable_frame el t r :
  keepsCalls (convertTable el t r) /\ terminates (convertTable el t r).
Proof.
  split; unfold convertTable; frame; apply convertCell_frame.
Qed.

Lemma convertChart_frame el c :
  keepsCalls (convertChart el c) /\ terminates (convertChart el c).
Proof. split; unfold convertChart; frame. Qed.

End ConverterFrames.

(* ------------------------------------------------------------------ *)
(** ** The flattener only appends *)

Lemma pushAll_nil (s : Slide) : pushAll s [] = s.
Proof. destruct s. unfold pushAll. cbn. rewrite app_nil_r. reflexivity. Qed.

Lemma pushAll_app (s : Slide) (a b : list PPTElement) :
  pushAll (pushAll s a) b = pushAll s (a ++ b).
Proof. unfold pushAll. cbn. rewrite app_assoc. reflexivity. Qed.

Lemma push_pushAll (e : PPTElement) (s : Slide) : push e s = pushAll s [e].
Proof. reflexivity. Qed.

Lemma In_insertByOrder (x y : Element) (l : list Element) :
  In y (insertByOrder x l) <-> y = x \/ In y l.
Proof.
  induction l as [| z l IH]; cbn.
  - intuition auto.
  - destruct (Qle_bool (order (common x)) (order (common z))); cbn.
    + intuition auto.
    + rewrite IH. intuition auto.
Qed.

Lemma In_sortByOrder (y : Element) (l : list Element) :
  In y (sortByOrder l) <-> In y l.
Proof.
  induction l as [| x l IH]; cbn.
  - tauto.
  - rewrite In_insertByOrder, IH. intuition auto.
Qed.

Section Flattener.
Context {E : Externals}.

(** What a successful run of the shape branch leaves: it resolves one
    shape element, whose position, outline and gradient are those computed
    before the path is resolved, and pushes it unless its path is empty.
    Only a 'custom' shape may have its size changed. *)
Lemma convertShape_Ok el s r ow oh slide w slide' w' :
  convertShape el s r ow oh slide w = Ok slide' w' ->
  exists e,
    slide' = (if truthyS (se_path e) then push (PShape e) slide else slide) /\
    se_left e = left el /\ se_top e = top el /\
    se_gradient e =
      match s_fill s with
      | Some (GradientFill v) =>
          Some {| g_type := gradientTypeOf (rg_path v);
                  g_colors := convertStops (rg_colors v);
                  g_rotate := rg_rot v |}
      | _ => None
      end /\
    se_outline e = outlineOf (s_border s) r /\
    se_shadow e = option_map (scaleShadow r) (s_shadow s) /\
    (String.eqb (s_shapType s) "custom" = false ->
     se_width e = width el /\ se_height e = height el).
Proof.
  unfold convertShape. intros H.
  inv_bind H as id w1 Hid. inv_bind H as th w2 Hth.
  inv_bind H as e1 w3 Hresolve. inv_bind H as e2 w4 Hcustom.
  unfold newId in Hid. inversion Hid; subst; clear Hid.
  unfold theme in Hth. inversion Hth; subst; clear Hth.
  exists e2. split.
  { destruct (truthyS (se_path e2)); inv_ret H; reflexivity. }
  clear H.
  assert (Hinv : se_left e1 = left el /\ se_top e1 = top el /\
                 se_gradient e1 =
                   match s_fill s with
                   | Some (GradientFill v) =>
                       Some {| g_type := gradientTypeOf (rg_path v);
                               g_colors := convertStops (rg_colors v);
                               g_rotate := rg_rot v |}
                   | _ => None
                   end /\
                 se_outline e1 = outlineOf (s_border s) r /\
                 se_shadow e1 = option_map (scaleShadow r) (s_shadow s) /\
                 se_width e1 = width el /\ se_height e1 = height el).
  { clear Hcustom. destruct (s_shadow s); inv_branches Hresolve;
      cbn; repeat split; reflexivity. }
  clear Hresolve. destruct Hinv as (Hl & Ht & Hg & Ho & Hs & Hw & Hh).
  destruct (String.eqb (s_shapType s) "custom") eqn:Hc.
  - inv_branches Hcustom; cbn; repeat split; auto; discriminate.
  - inv_ret Hcustom. repeat split; auto.
Qed.

Lemma depth_kind (a b : Element) : kind a = kind b -> depth a = depth b.
Proof. destruct a as [ca ka], b as [cb kb]. cbn. intros ->. reflexivity. Qed.

Lemma depthList_map (f : Element -> Element) (l : list Element) :
  (forall x, kind (f x) = kind x) -> depthList (map f l) = depthList l.
Proof.
  intros Hf. induction l as [| x l IH]; cbn; [reflexivity |].
  unfold depthList in IH. rewrite IH, (depth_kind (f x) x (Hf x)). reflexivity.
Qed.

Lemma depthList_flip (l : list Element) (axis : Axis) :
  depthList (flipGroupElements l axis) = depthList l.
Proof.
  unfold flipGroupElements. destruct l as [| e0 rest]; [reflexivity |].
  apply depthList_map. intros x. destruct axis; reflexivity.
Qed.

Lemma depthList_groupChildren (c : Common) (ow oh : Q) (l : list Element) :
  depthList (groupChildren c ow oh l) = depthList l.
Proof.
  unfold groupChildren.
  destruct (truthyB (isFlipH c)), (truthyB (isFlipV c));
    rewrite ?depthList_flip; apply depthList_map; intros x;
    destruct (truthyO (rotate c)); reflexivity.
Qed.

Lemma depthList_diagramChildren (c : Common) (l : list Element) :
  depthList (diagramChildren c l) = depthList l.
Proof. apply depthList_map. intros x. reflexivity. Qed.

Lemma depth_le_depthList (x : Element) (l : list Element) :
  In x l -> (depth x <= depthList l)%nat.
Proof.
  induction l as [| y l IH]; cbn; [tauto |].
  intros [-> | H]; [lia |]. specialize (IH H). unfold depthList in IH. lia.
Qed.

Lemma depth_group (c : Common) (l : list Element) :
  depth (El c (KGroup l)) = S (depthList l).
Proof. reflexivity. Qed.

Lemma depth_diagram (c : Common) (l : list Element) :
  depth (El c (KDiagram l)) = S (depthList l).
Proof. reflexivity. Qed.

(** One turn of the loop terminates, sends nothing to the store and only
    appends, provided the recursive call does on the children. *)
Lemma parseElement_terminates recur r el slide :
  (forall l s, (S (depthList l) <= depth el)%nat -> terminates (recur l s)) ->
  terminates (parseElement recur r el slide).
Proof.
  intros Hrec. destruct el as [c k]. unfold parseElement. cbn [kind common].
  destruct k.
  - leaf_frame convertText_frame.
  - leaf_frame convertImage_frame.
  - leaf_frame convertMath_frame.
  - leaf_frame convertAudio_frame.
  - leaf_frame convertVideo_frame.
  - destruct (isLineShape s);
      [leaf_frame parseLineElement_frame | apply convertShape_frame].
  - leaf_frame convertTable_frame.
  - leaf_frame convertChart_frame.
  - apply Hrec. rewrite depthList_groupChildren, depth_group. lia.
  - apply Hrec. rewrite depthList_diagramChildren, depth_diagram. lia.
  - auto with frames.
Qed.

Lemma parseElement_keepsCalls recur r el slide :
  (forall l s, keepsCalls (recur l s)) ->
  keepsCalls (parseElement recur r el slide).
Proof.
  intros Hrec. destruct el as [c k]. unfold parseElement. cbn [kind common].
  destruct k.
  - leaf_frame convertText_frame.
  - leaf_frame convertImage_frame.
  - leaf_frame convertMath_frame.
  - leaf_frame convertAudio_frame.
  - leaf_frame convertVideo_frame.
  - destruct (isLineShape s);
      [leaf_frame parseLineElement_frame | apply convertShape_frame].
  - leaf_frame convertTable_frame.
  - leaf_frame convertChart_frame.
  - apply Hrec.
  - apply Hrec.
  - auto with frames.
Qed.

(** With more fuel than the nesting depth, [parseElements] returns or
    throws: it does not run out of fuel. *)
Lemma parseElements_terminates (fuel : nat) (r : Q) :
  forall (elements : list Element) (slide : Slide),
    (depthList elements < fuel)%nat ->
    terminates (parseElements fuel r elements slide).
Proof.
  induction fuel as [| fuel IH]; intros elements slide Hd; [lia |].
  cbn [parseElements]. apply terminates_forOf.
  intros x s Hx. apply (proj1 (In_sortByOrder x elements)) in Hx.
  apply parseElement_terminates. intros l s' Hl.
  apply IH. pose proof (depth_le_depthList x elements Hx). lia.
Qed.

Lemma parseElements_keepsCalls (fuel : nat) (r : Q) :
  forall (elements : list Element) (slide : Slide),
    keepsCalls (parseElements fuel r elements slide).
Proof.
  induction fuel as [| fuel IH]; intros elements slide.
  - intros w w' H. discriminate.
  - cbn [parseElements]. apply keepsCalls_forOf.
    intros x s _. apply parseElement_keepsCalls. exact IH.
Qed.

Lemma forOf_appends {A} (l : list A) (body : A -> Slide -> M Slide) :
  (forall x s, In x l -> appendsOnly (body x s) s) ->
  forall s, appendsOnly (forOf l body s) s.
Proof.
  induction l as [| x l IH]; intros Hbody s w s' w' H; cbn in H.
  - inv_ret H. exists []. symmetry. apply pushAll_nil.
  - inv_bind H as s1 w1 Hx.
    destruct (Hbody x s (or_introl eq_refl) _ _ _ Hx) as [new1 ->].
    destruct (IH (fun y s0 Hy => Hbody y s0 (or_intror Hy)) _ _ _ _ H)
      as [new2 ->].
    exists (new1 ++ new2)%list. apply pushAll_app.
Qed.

Lemma pushed_appends {A} (m : M A) (f : A -> PPTElement) (slide : Slide) :
  appendsOnly (bind m (fun e => ret (push (f e) slide))) slide.
Proof.
  intros w s' w' H. inv_bind H as e w1 He. inv_ret H.
  exists [f e]. reflexivity.
Qed.

Lemma convertShape_appends el s r ow oh slide :
  appendsOnly (convertShape el s r ow oh slide) slide.
Proof.
  intros w s' w' H.
  destruct (convertShape_Ok _ _ _ _ _ _ _ H) as (e & -> & _).
  destruct (truthyS (se_path e)).
  - exists [PShape e]. reflexivity.
  - exists []. symmetry. apply pushAll_nil.
Qed.

Lemma parseElement_appends recur r el slide :
  (forall l s, appendsOnly (recur l s) s) ->
  appendsOnly (parseElement recur r el slide) slide.
Proof.
  intros Hrec. destruct el as [c k]. unfold parseElement. cbn [kind common].
  destruct k; try apply pushed_appends; try apply Hrec.
  - destruct (isLineShape s);
      [apply pushed_appends | apply convertShape_appends].
  - intros w s' w' H. inv_ret H. exists []. symmetry. apply pushAll_nil.
Qed.

Lemma parseElements_appends (fuel : nat) (r : Q) :
  forall (elements : list Element) (slide : Slide),
    appendsOnly (parseElements fuel r elements slide) slide.
Proof.
  induction fuel as [| fuel IH]; intros elements slide.
  - intros w s' w' H. discriminate.
  - cbn [parseElements]. apply forOf_appends.
    intros x s _. apply parseElement_appends. exact IH.
Qed.

(** Fuel beyond the nesting depth does not change the result. *)
Lemma forOf_ext {A S} (l : list A) (f g : A -> S -> M S) :
  (forall x s w, In x l -> f x s w = g x s w) ->
  forall s w, forOf l f s w = forOf l g s w.
Proof.
  induction l as [| x l IH]; intros Hfg s w; cbn; [reflexivity |].
  unfold bind. rewrite (Hfg x s w (or_introl eq_refl)).
  destruct (g x s w) as [s1 w1 | e w1 |]; try reflexivity.
  apply IH. intros y s0 w0 Hy. apply Hfg. right. exact Hy.
Qed.

Lemma parseElement_ext recur1 recur2 r el slide w :
  (forall l s w0, (S (depthList l) <= depth el)%nat ->
                  recur1 l s w0 = recur2 l s w0) ->
  parseElement recur1 r el slide w = parseElement recur2 r el slide w.
Proof.
  intros Hrec. destruct el as [c k]. unfold parseElement. cbn [kind common].
  destruct k; try reflexivity; apply Hrec.
  - rewrite depthList_groupChildren, depth_group. lia.
  - rewrite depthList_diagramChildren, depth_diagram. lia.
Qed.

Lemma parseElements_fuel (f1 : nat) (r : Q) :
  forall (f2 : nat) (elements : list Element) (slide : Slide) (w : World),
    (depthList elements < f1)%nat -> (depthList elements < f2)%nat ->
    parseElements f1 r elements slide w = parseElements f2 r elements slide w.
Proof.
  induction f1 as [| f1 IH]; intros f2 elements slide w H1 H2; [lia |].
  destruct f2 as [| f2]; [lia |].
  cbn [parseElements]. apply forOf_ext.
  intros x s w0 Hx. apply (proj1 (In_sortByOrder x elements)) in Hx.
  apply parseElement_ext. intros l s0 w1 Hl.
  pose proof (depth_le_depthList x elements Hx).
  apply IH; lia.
Qed.

End Flattener.

(* ------------------------------------------------------------------ *)
(** ** Chart types *)

Section ChartClaims.
Context {E : Externals}.

(** C6: the vendor chart-type mapping is total.  barChart and bar3DChart
    give bar, or column when the bar direction is 'bar'; lineChart and
    line3DChart give line; areaChart and area3DChart give area;
    scatterChart and bubbleChart give scatter; pieChart and pie3DChart
    give pie; radarChart gives radar; doughnutChart gives ring; every
    other string gives bar.  The converted chart element carries exactly
    that type. *)
Theorem chart_type_mapping (el : Common) (c : RawChart) (w : World)
    (e : PPTChartElement) (w' : World) :
  convertChart el c w = Ok e w' ->
  let ct := ch_chartType c in
  let out := ce_chartType e in
  out = fst (chartSwitch c) /\
  (ct = "barChart" \/ ct = "bar3DChart" ->
     (ch_barDir c = Some "bar" -> out = "column") /\
     (ch_barDir c <> Some "bar" -> out = "bar")) /\
  (ct = "lineChart" \/ ct = "line3DChart" -> out = "line") /\
  (ct = "areaChart" \/ ct = "area3DChart" -> out = "area") /\
  (ct = "scatterChart" \/ ct = "bubbleChart" -> out = "scatter") /\
  (ct = "pieChart" \/ ct = "pie3DChart" -> out = "pie") /\
  (ct = "radarChart" -> out = "radar") /\
  (ct = "doughnutChart" -> out = "ring") /\
  (~ In ct recognizedChartTypes -> out = "bar") /\
  In out internalChartTypes.
Proof.
  intros H. cbv zeta. rewrite (convertChart_type _ _ _ H).
  split; [reflexivity | apply chartSwitch_table].
Qed.

End ChartClaims.

(** C6, witness: a bar chart whose bar direction is 'bar' becomes a
    column chart. *)
Lemma chart_type_mapping_witness :
  exists e w',
    convertChart (E := sampleExternals) (box 0 0 10 10)
      (sampleChart "barChart" (Some "bar")) world0 = Ok e w' /\
    ce_chartType e = "column".
Proof.
  do 2 eexists. split; [reflexivity |].
  refine (proj1 (proj1 (proj2 (chart_type_mapping (E := sampleExternals)
            (box 0 0 10 10) (sampleChart "barChart" (Some "bar")) world0
            eq_refl)) (or_introl eq_refl)) eq_refl).
Defined.

(* ------------------------------------------------------------------ *)
(** ** Gradients *)

Section GradientClaims.
Context {E : Externals}.

Lemma push_inj (a b : PPTElement) (s : Slide) : push a s = push b s -> a = b.
Proof.
  unfold push. intros H. injection H as H.
  apply app_inv_head in H. congruence.
Qed.

Lemma push_neq (a : PPTElement) (s : Slide) : push a s <> s.
Proof.
  unfold push. destruct s as [i els b r]. cbn. intros H. injection H as H.
  apply (f_equal (@List.length _)) in H. rewrite length_app in H. cbn in H. lia.
Qed.

Lemma processSlide_background (ratio : Q) (item : RawSlide) (w : World)
    (slide : Slide) (w' : World) :
  processSlide ratio item w = Ok slide w' ->
  slide_background slide = backgroundOf (sl_fill item).
Proof.
  unfold processSlide. intros H. inv_bind H as id w1 Hid.
  destruct (parseElements_appends _ _ _ _ _ H) as [new ->]. reflexivity.
Qed.

(** C10: a shape whose fill is a gradient gets a gradient with the raw
    rotation unchanged; a slide whose background fill is a gradient gets
    the raw rotation plus 90; in both the type is 'linear' when the raw
    path is 'line' and 'radial' otherwise. *)
Theorem gradient_rotation (v : RawGradient) :
  let type := if String.eqb (rg_path v) "line" then "linear" else "radial" in
  (forall recur r c s slide w slide' w' e,
     s_fill s = Some (GradientFill v) ->
     parseElement recur r (El c (KShape s)) slide w = Ok slide' w' ->
     slide' = push (PShape e) slide ->
     se_gradient e = Some {| g_type := type;
                             g_colors := convertStops (rg_colors v);
                             g_rotate := rg_rot v |}) /\
  (forall r item w slide w',
     sl_fill item = Some (GradientFill v) ->
     processSlide r item w = Ok slide w' ->
     slide_background slide =
       BgGradient {| g_type := type;
                     g_colors := convertStops (rg_colors v);
                     g_rotate := rg_rot v + 90 |}).
Proof.
  cbv zeta. split.
  - intros recur r c s slide w slide' w' e Hfill Hrun Hpush.
    unfold parseElement in Hrun. cbn [kind common] in Hrun.
    destruct (isLineShape s).
    + inv_bind Hrun as l w1 Hl. inv_ret Hrun.
      apply push_inj in Hpush. discriminate.
    + destruct (convertShape_Ok _ _ _ _ _ _ _ Hrun)
        as (e' & Hs & _ & _ & Hg & _).
      rewrite Hfill in Hg. rewrite Hs in Hpush.
      destruct (truthyS (se_path e')).
      * apply push_inj in Hpush. injection Hpush as ->. exact Hg.
      * symmetry in Hpush. exfalso. exact (push_neq Hpush).
  - intros r item w slide w' Hfill Hrun.
    rewrite (processSlide_background _ _ _ Hrun), Hfill. reflexivity.
Qed.

End GradientClaims.

(** C10, witness: a rectangle and a slide background, both filled with a
    linear gradient rotated by 45. *)
Lemma gradient_rotation_witness :
  (exists e w',
     parseElement (E := sampleExternals)
       (parseElements (E := sampleExternals) 0 1) 1
       (El (box 0 0 10 10) (KShape (gradientShape "rect"))) slide0 world0
     = Ok (push (PShape e) slide0) w' /\
     option_map g_rotate (se_gradient e) = Some 45 /\
     option_map g_type (se_gradient e) = Some "linear") /\
  (exists slide w',
     processSlide (E := sampleExternals) 1 gradientSlide world0 = Ok slide w' /\
     slide_background slide =
       BgGradient {| g_type := "linear";
                     g_colors := convertStops (E := sampleExternals)
                                   (rg_colors sampleGradient);
                     g_rotate := 45 + 90 |}).
Proof.
  split.
  - do 2 eexists. split; [reflexivity |].
    erewrite (proj1 (gradient_rotation (E := sampleExternals) sampleGradient)
                (parseElements (E := sampleExternals) 0 1) 1 (box 0 0 10 10)
                (gradientShape "rect") slide0 world0);
      [split; reflexivity | reflexivity | reflexivity | reflexivity].
  - do 2 eexists. split; [cbv; reflexivity |].
    exact (proj2 (gradient_rotation (E := sampleExternals) sampleGradient)
             1 gradientSlide world0 _ _ eq_refl eq_refl).
Defined.

(* ------------------------------------------------------------------ *)
(** ** Shapes without a table entry *)

Section ShapeClaims.
Context {E : Externals}.

(** What the shape branch does, by the path it resolves: it throws when
    there is none, and otherwise resolves one shape element with that path,
    which it pushes unless the path is empty. *)
Lemma convertShape_resolved el (s : RawShape) (r ow oh : Q) (slide : Slide)
    (w : World) :
  match resolvedPath el s with
  | Some path =>
      exists e w',
        convertShape el s r ow oh slide w
          = Ok (if truthyS path then push (PShape e) slide else slide) w' /\
        se_path e = path
  | None => exists w', convertShape el s r ow oh slide w = Throw "TypeError" w'
  end.
Proof.
  unfold resolvedPath, convertShape, bind, newId, theme, ret, throw.
  destruct (s_shadow s);
    (destruct (find _ _) as [shape |];
     [destruct (truthyOS (sp_pathFormula shape));
      [destruct (SHAPE_PATH_FORMULAS _) as [pf |];
       [destruct (pf_editable pf) |] |]
     | destruct (usablePath (s_path s))]);
    destruct (String.eqb (s_shapType s) "custom");
    try (destruct (s_path s) as [raw |]; [destruct (includes "NaN" raw) |]);
    cbn [se_path set_path set_viewBox set_shadow set_pathFormula set_keypoints
         set_special set_width set_height];
    try (eexists; reflexivity);
    match goal with
    | |- context [PShape ?e] =>
        exists e; eexists;
        split; [destruct (truthyS _); reflexivity | reflexivity]
    end.
Qed.

(** C1 (as amended): a raw shape that is not a line, whose vendor type
    matches no entry of the shape table and is not 'custom', is always
    pushed: with its raw path and the viewBox computed from the range of
    that path when the raw path is usable (even if that viewBox is
    degenerate), and with the default rectangle path and viewBox [200,200]
    when the raw path is absent, empty or contains NaN.  Whenever the
    conversion of a shape returns, the shape has a resolved path, the
    resolved element carries it, and the element is left out of the slide
    exactly when that path is the empty string; the loop then goes on
    with the remaining elements.  The conversion returns whenever the
    shape has a resolved path, and throws a TypeError otherwise. *)
Theorem shape_without_table_entry recur (r : Q) (c : Common) (s : RawShape)
    (slide : Slide) (w : World) :
  isLineShape s = false ->
  (find (hasShapeType (s_shapType s)) shapeList = None ->
   s_shapType s <> "custom" ->
   exists e w',
     parseElement recur r (El c (KShape s)) slide w
       = Ok (push (PShape e) slide) w' /\
     (se_path e, se_viewBox e) =
       (if usablePath (s_path s)
        then (match s_path s with Some p => p | None => "" end,
              viewBoxOfRange
                (getSvgPathRange (match s_path s with Some p => p | None => "" end))
                (orElse (width c) 1) (orElse (height c) 1))
        else (defaultPath, (200, 200)))) /\
  (forall slide' w',
     parseElement recur r (El c (KShape s)) slide w = Ok slide' w' ->
     exists e,
       resolvedPath (scale r c) s = Some (se_path e) /\
       slide' = (if truthyS (se_path e) then push (PShape e) slide else slide) /\
       (slide' = slide <-> se_path e = "") /\
       forall rest,
         forOf (El c (KShape s) :: rest) (parseElement recur r) slide w
           = forOf rest (parseElement recur r) slide' w') /\
  (forall path,
     resolvedPath (scale r c) s = Some path ->
     exists slide' w',
       parseElement recur r (El c (KShape s)) slide w = Ok slide' w') /\
  (resolvedPath (scale r c) s = None ->
   exists w',
     parseElement recur r (El c (KShape s)) slide w = Throw "TypeError" w').
Proof.
  intros Hline. split; [| split; [| split]].
  - intros Hfind Hcustom.
    unfold parseElement. cbn [kind common]. rewrite Hline.
    unfold convertShape. rewrite Hfind.
    apply String.eqb_neq in Hcustom. rewrite Hcustom.
    unfold bind, newId, theme, ret.
    destruct (s_shadow s); unfold usablePath;
      destruct (s_path s) as [p |];
      try (destruct (truthyS p && negb (includes "NaN" p))%bool eqn:Hp;
           [apply andb_prop in Hp; destruct Hp as [Hp _] |]);
      cbn; try rewrite Hp; do 2 eexists; (split; [reflexivity | reflexivity]).
  - intros slide' w' Hrun.
    assert (Hsame : parseElement recur r (El c (KShape s)) slide w
                    = convertShape (scale r c) s r (orElse (width c) 1)
                        (orElse (height c) 1) slide w).
    { unfold parseElement. cbn [kind common]. rewrite Hline. reflexivity. }
    pose proof (convertShape_resolved (scale r c) s r (orElse (width c) 1)
                  (orElse (height c) 1) slide w) as Hres.
    destruct (resolvedPath (scale r c) s) as [path |].
    + destruct Hres as (e & w1 & Hconv & Hpath).
      rewrite Hsame, Hconv in Hrun. inversion Hrun; subst slide' w1.
      exists e. rewrite Hpath. split; [reflexivity |]. split; [reflexivity |].
      split.
      * destruct path as [| a path]; cbn [truthyS].
        -- split; reflexivity.
        -- split; [intros H; exfalso; exact (push_neq H) | discriminate].
      * intros rest. cbn [forOf]. unfold bind at 1.
        rewrite Hsame, Hconv. reflexivity.
    + destruct Hres as (w1 & Hconv). rewrite Hsame, Hconv in Hrun. discriminate.
  - intros path Hpath.
    pose proof (convertShape_resolved (scale r c) s r (orElse (width c) 1)
                  (orElse (height c) 1) slide w) as Hres.
    rewrite Hpath in Hres. destruct Hres as (e & w1 & Hconv & _).
    unfold parseElement. cbn [kind common]. rewrite Hline.
    do 2 eexists. exact Hconv.
  - intros Hnone.
    pose proof (convertShape_resolved (scale r c) s r (orElse (width c) 1)
                  (orElse (height c) 1) slide w) as Hres.
    rewrite Hnone in Hres. destruct Hres as (w1 & Hconv).
    unfold parseElement. cbn [kind common]. rewrite Hline.
    eexists. exact Hconv.
Qed.

(** A 'custom' shape without a raw path stops the conversion: the read of
    [el.path] throws. *)
Lemma custom_shape_without_path_throws el (s : RawShape) (r ow oh : Q)
    (slide : Slide) (w : World) :
  s_shapType s = "custom" -> s_path s = None ->
  exists w', convertShape el s r ow oh slide w = Throw "TypeError" w'.
Proof.
  intros Hc Hp. unfold convertShape. rewrite Hc, Hp.
  unfold bind, newId, theme, ret, throw. cbn [usablePath String.eqb].
  destruct (s_shadow s);
    (destruct (find _ _) as [shape |];
     [destruct (truthyOS (sp_pathFormula shape));
      [destruct (SHAPE_PATH_FORMULAS _) as [pf |];
       [destruct (pf_editable pf) |] |] |]);
    cbn; eexists; reflexivity.
Qed.

End ShapeClaims.

(** C1, witness: a shape of an unknown vendor type without a raw path is
    pushed with the default rectangle. *)
Lemma shape_without_table_entry_witness :
  exists e w',
    parseElement (E := sampleExternals)
      (parseElements (E := sampleExternals) 0 1) 1
      (El (box 0 0 10 10) (KShape (sampleShape "unknownShape" None)))
      slide0 world0 = Ok (push (PShape e) slide0) w' /\
    (se_path e, se_viewBox e) = (defaultPath, (200, 200)).
Proof.
  exact (proj1 (shape_without_table_entry (E := sampleExternals)
                  (parseElements (E := sampleExternals) 0 1) 1
                  (box 0 0 10 10) (sampleShape "unknownShape" None)
                  slide0 world0 eq_refl)
           eq_refl ltac:(discriminate)).
Defined.

(** C1, as stated, fails: a shape whose vendor type matches no table entry
    and whose raw path is absent is not dropped, it is pushed as the
    default rectangle; one whose raw path gives a degenerate viewBox
    [0,0] is pushed too; the next element follows. *)
Lemma unresolved_shape_counterexample :
  exists e1 e2 e3 slide' w',
    parseElements (E := sampleExternals) 1 1 threeShapes slide0 world0
      = Ok slide' w' /\
    slide_elements slide' = [PShape e1; PShape e2; PShape e3] /\
    find (hasShapeType "unknownShape") (shapeList (E := sampleExternals)) = None /\
    se_left e1 = 0 /\ se_path e1 = "M 0 0 L 200 0 L 200 200 L 0 200 Z" /\
    se_viewBox e1 = (200, 200) /\
    se_left e2 = 20 /\ se_path e2 = "M 0 0 Z" /\
    fst (se_viewBox e2) == 0 /\ snd (se_viewBox e2) == 0 /\
    se_left e3 = 40.
Proof.
  do 5 eexists. split; [cbv; reflexivity |].
  cbn. repeat split; reflexivity.
Qed.

(* ------------------------------------------------------------------ *)
(** ** Table column widths *)

Lemma fold_left_Qplus_compat (l : list Q) (a b : Q) :
  a == b -> fold_left Qplus l a == fold_left Qplus l b.
Proof.
  revert a b. induction l as [| x l IH]; intros a b Hab; cbn.
  - exact Hab.
  - apply IH. rewrite Hab. reflexivity.
Qed.

Lemma fold_left_Qplus_div (l : list Q) (t a : Q) :
  ~ t == 0 ->
  fold_left Qplus (map (fun x => x / t) l) (a / t) == fold_left Qplus l a / t.
Proof.
  intros Ht. revert a. induction l as [| x l IH]; intros a; cbn.
  - reflexivity.
  - rewrite <- IH. apply fold_left_Qplus_compat. field. exact Ht.
Qed.

Lemma sumQ_normalized (l : list Q) :
  ~ sumQ l == 0 -> sumQ (map (fun x => x / sumQ l) l) == 1.
Proof.
  intros Ht. unfold sumQ at 1.
  assert (H0 : 0 == 0 / sumQ l) by (field; exact Ht).
  rewrite (fold_left_Qplus_compat _ H0).
  rewrite (fold_left_Qplus_div l 0 Ht).
  fold (sumQ l). field. exact Ht.
Qed.

Lemma jsDiv_finite (a b : Q) : ~ b == 0 -> jsDiv a b = Finite (a / b).
Proof.
  intros Hb. unfold jsDiv.
  destruct (Qeq_bool b 0) eqn:Heq; [| reflexivity].
  apply Qeq_bool_eq in Heq. contradiction.
Qed.

Section TableClaims.
Context {E : Externals}.

Lemma convertTable_colWidths el t r w e w' :
  convertTable el t r w = Ok e w' ->
  tbe_colWidths e =
    map (fun item => jsDiv item (sumQ (tb_colWidths t))) (tb_colWidths t).
Proof.
  unfold convertTable. intros H.
  destruct (tb_data t) as [| row0 rows]; [inv_ret H |].
  inv_bind H as data w1 Hdata.
  destruct row0 as [| firstCell row0]; [inv_ret H |].
  inv_bind H as id w2 Hid. inv_ret H. reflexivity.
Qed.


End TableClaims.



(* ------------------------------------------------------------------ *)
(** ** Scaling *)

(** [+x.toFixed(2)] is within half a hundredth of [x]. *)
Lemma roundScaled_close (x : Q) :
  Qabs (inject_Z (roundScaled 2 x) / inject_Z (10 ^ Z.of_nat 2) - x) <= 1 # 200.
Proof.
  unfold roundScaled.
  pose proof (Qfloor_le (x * inject_Z (10 ^ Z.of_nat 2) + (1 # 2))) as Hle.
  pose proof (Qlt_floor (x * inject_Z (10 ^ Z.of_nat 2) + (1 # 2))) as Hlt.
  set (n := Qfloor (x * inject_Z (10 ^ Z.of_nat 2) + (1 # 2))) in *.
  rewrite inject_Z_plus in Hlt.
  change (inject_Z (10 ^ Z.of_nat 2)) with (100 # 1) in *.
  change (inject_Z 1) with 1 in Hlt.
  unfold Qdiv. change (/ (100 # 1)) with (1 # 100).
  apply Qabs_Qle_condition. split; lra.
Qed.

Lemma toFixedNum_close (x : Q) : Qabs (toFixedNum 2 x - x) <= 1 # 200.
Proof.
  unfold toFixedNum. destruct (Qle_bool 0 x).
  - apply roundScaled_close.
  - pose proof (roundScaled_close (- x)) as H.
    rewrite <- Qabs_opp.
    setoid_replace
      (- (- (inject_Z (roundScaled 2 (- x)) / inject_Z (10 ^ Z.of_nat 2)) - x))
      with (inject_Z (roundScaled 2 (- x)) / inject_Z (10 ^ Z.of_nat 2) - - x)
      by ring.
    exact H.
Qed.

Section ScalingClaims.
Context {E : Externals}.

(** The text branch: the element pushed for a raw text element. *)
Lemma parseElement_text recur (r : Q) (c : Common) (t : RawText)
    (slide : Slide) (w : World) :
  exists e w',
    parseElement recur r (El c (KText t)) slide w
      = Ok (push (PText e) slide) w' /\
    te_left e = left c * r /\ te_top e = top c * r /\
    te_width e = width c * r /\ te_height e = height c * r /\
    o_width (te_outline e) = toFixedNum 2 (borderWidth (t_border t) * r) /\
    te_shadow e = option_map (scaleShadow r) (t_shadow t).
Proof.
  unfold parseElement, convertText, bind, newId, theme, ret. cbn.
  do 2 eexists. split; [reflexivity |]. cbn. repeat split; reflexivity.
Qed.

Lemma parseElements_singleton (fuel : nat) (r : Q) (x : Element)
    (slide : Slide) (w : World) :
  parseElements (S fuel) r [x] slide w
    = parseElement (parseElements fuel r) r x slide w.
Proof.
  cbn [parseElements sortByOrder fold_right insertByOrder forOf].
  unfold bind. destruct (parseElement _ r x slide w); reflexivity.
Qed.

Lemma parseElement_group recur (r : Q) (c : Common) (l : list Element)
    (slide : Slide) :
  parseElement recur r (El c (KGroup l)) slide
    = recur (groupChildren c (orElse (width c) 1) (orElse (height c) 1) l) slide.
Proof. reflexivity. Qed.

Lemma parseElement_diagram recur (r : Q) (c : Common) (l : list Element)
    (slide : Slide) :
  parseElement recur r (El c (KDiagram l)) slide
    = recur (diagramChildren c l) slide.
Proof. reflexivity. Qed.

(** The children of an unrotated, unflipped group are translated by the
    origin of the group, like the children of a diagram. *)
Lemma groupChildren_plain (g : Common) (ow oh : Q) (l : list Element) :
  truthyO (rotate g) = false ->
  truthyB (isFlipH g) = false -> truthyB (isFlipV g) = false ->
  groupChildren g ow oh l = diagramChildren g l.
Proof.
  intros Hrot HH HV. unfold groupChildren, diagramChildren.
  rewrite Hrot, HH, HV. apply map_ext.
  intros [[l0 t0 w0 h0 o0 r0 fh fv] k]. cbn.
  destruct fh, fv; reflexivity.
Qed.

Ltac inv_bind_auto H :=
  let a := fresh "a" in
  let w := fresh "w" in
  let H1 := fresh "Hrun" in
  apply bind_Ok in H; destruct H as (a & w & H1 & H).

(** Follow a successful run to the record it returns. *)
Ltac inv_conv H :=
  repeat first
    [ inv_ret H
    | inv_bind_auto H
    | match type of H with
      | context [match ?x with _ => _ end] => destruct x eqn:?
      end ].

Lemma convertImage_box el i r w e w' :
  convertImage el i r w = Ok e w' ->
  ie_left e = left el /\ ie_top e = top el /\
  ie_width e = width el /\ ie_height e = height el.
Proof. unfold convertImage. intros H. inv_conv H; cbn; auto. Qed.

Lemma convertMath_box el p w e w' :
  convertMath el p w = Ok e w' ->
  ie_left e = left el /\ ie_top e = top el /\
  ie_width e = width el /\ ie_height e = height el.
Proof. unfold convertMath. intros H. inv_conv H; cbn; auto. Qed.

Lemma convertAudio_box el b w e w' :
  convertAudio el b w = Ok e w' ->
  ae_left e = left el /\ ae_top e = top el /\
  ae_width e = width el /\ ae_height e = height el.
Proof. unfold convertAudio. intros H. inv_conv H; cbn; auto. Qed.

Lemma convertVideo_box el v w e w' :
  convertVideo el v w = Ok e w' ->
  ve_left e = left el /\ ve_top e = top el /\
  ve_width e = width el /\ ve_height e = height el.
Proof. unfold convertVideo. intros H. inv_conv H; cbn; auto. Qed.

Lemma convertTable_box el t r w e w' :
  convertTable el t r w = Ok e w' ->
  tbe_left e = left el /\ tbe_top e = top el /\
  tbe_width e = width el /\ tbe_height e = height el.
Proof.
  unfold convertTable. intros H.
  destruct (tb_data t) as [| row0 rows]; [inv_ret H |].
  inv_bind H as data w1 Hdata.
  destruct row0 as [| firstCell row0]; [inv_ret H |].
  inv_bind H as id w2 Hid. inv_ret H. cbn. auto.
Qed.

Lemma convertChart_box el c w e w' :
  convertChart el c w = Ok e w' ->
  ce_left e = left el /\ ce_top e = top el /\
  ce_width e = width el /\ ce_height e = height el.
Proof.
  unfold convertChart. intros H.
  inv_bind H as data w1 Hdata. destruct (chartSwitch c) as [chartType options].
  inv_bind H as id w2 Hid. inv_bind H as th w3 Hth. inv_ret H. cbn. auto.
Qed.

(** Where a raw element that is not a container ends up. *)
Lemma parseElement_leaf recur (r : Q) (c : Common) (k : Kind)
    (slide : Slide) (w : World) (slide' : Slide) (w' : World) :
  parseElement recur r (El c k) slide w = Ok slide' w' ->
  match k with
  | KGroup _ | KDiagram _ => True
  | KOther _ => slide' = slide
  | KShape s =>
      if isLineShape s then
        exists e,
          slide' = push (PLine e) slide /\
          le_width e = toFixedNum 2 (orElse (borderWidth (s_border s)) 1 * r) /\
          (truthyO (rotate c) = false ->
           le_left e = left c * r /\ le_top e = top c * r)
      else
        exists e,
          slide' = (if truthyS (se_path e) then push (PShape e) slide
                    else slide) /\
          se_left e = left c * r /\ se_top e = top c * r /\
          o_width (se_outline e) = toFixedNum 2 (borderWidth (s_border s) * r) /\
          se_shadow e = option_map (scaleShadow r) (s_shadow s) /\
          (String.eqb (s_shapType s) "custom" = false ->
           se_width e = width c * r /\ se_height e = height c * r)
  | _ =>
      exists e,
        slide' = push e slide /\
        pe_left e = left c * r /\ pe_top e = top c * r /\
        pe_size e = Some (width c * r, height c * r)
  end.
Proof.
  unfold parseElement. cbn [kind common]. intros H.
  destruct k; try exact I.
  - destruct (parseElement_text recur r c t slide w)
      as (e & w1 & Hrun & Hl & Ht & Hw & Hh & _).
    unfold parseElement in Hrun. cbn [kind common] in Hrun.
    rewrite Hrun in H. inversion H; subst.
    exists (PText e). cbn. rewrite Hl, Ht, Hw, Hh. auto.
  - inv_bind H as e w1 He. inv_ret H.
    apply convertImage_box in He as (Hl & Ht & Hw & Hh).
    exists (PImage e). cbn. rewrite Hl, Ht, Hw, Hh. auto.
  - inv_bind H as e w1 He. inv_ret H.
    apply convertMath_box in He as (Hl & Ht & Hw & Hh).
    exists (PImage e). cbn. rewrite Hl, Ht, Hw, Hh. auto.
  - inv_bind H as e w1 He. inv_ret H.
    apply convertAudio_box in He as (Hl & Ht & Hw & Hh).
    exists (PAudio e). cbn. rewrite Hl, Ht, Hw, Hh. auto.
  - inv_bind H as e w1 He. inv_ret H.
    apply convertVideo_box in He as (Hl & Ht & Hw & Hh).
    exists (PVideo e). cbn. rewrite Hl, Ht, Hw, Hh. auto.
  - destruct (isLineShape s) eqn:Hline.
    + inv_bind H as e w1 He. inv_ret H. exists e.
      split; [reflexivity |]. split.
      * destruct (parseLineElement_width (scale r c) s r w)
          as (e' & w2 & Hrun & Hw).
        rewrite Hrun in He. inversion He; subst. exact Hw.
      * intros Hrot.
        destruct (parseLineElement_unrotated (scale r c) s r w Hrot)
          as (e' & w2 & Hrun & Hl & Ht & _).
        rewrite Hrun in He. inversion He; subst. split; assumption.
    + destruct (convertShape_Ok _ _ _ _ _ _ _ H)
        as (e & Hs & Hl & Ht & _ & Ho & Hsh & Hsize).
      exists e. rewrite Ho. repeat split; auto; apply Hsize; assumption.
  - inv_bind H as e w1 He. inv_ret H.
    apply convertTable_box in He as (Hl & Ht & Hw & Hh).
    exists (PTable e). cbn. rewrite Hl, Ht, Hw, Hh. auto.
  - inv_bind H as e w1 He. inv_ret H.
    apply convertChart_box in He as (Hl & Ht & Hw & Hh).
    exists (PChart e). cbn. rewrite Hl, Ht, Hw, Hh. auto.
  - inv_ret H. reflexivity.
Qed.


End ScalingClaims.



(* ------------------------------------------------------------------ *)
(** ** The viewport update *)

Lemma mapM_Forall2 {A B} (f : A -> M B) (l : list A) :
  forall w ys w',
    mapM f l w = Ok ys w' ->
    Forall2 (fun x y => exists w1 w2, f x w1 = Ok y w2) l ys.
Proof.
  induction l as [| x l IH]; intros w ys w' H; cbn in H.
  - inv_ret H. constructor.
  - inv_bind H as y w1 Hy. inv_bind H as ys' w2 Hys. inv_ret H.
    constructor; [eauto | exact (IH _ _ _ Hys)].
Qed.

Lemma viewportUpdates_app (a b : list StoreCall) :
  viewportUpdates (a ++ b) = (viewportUpdates a ++ viewportUpdates b)%list.
Proof. unfold viewportUpdates. apply flat_map_app. Qed.

Section ViewportClaims.
Context {E : Externals}.

Lemma processSlide_frame (ratio : Q) (item : RawSlide) :
  keepsCalls (processSlide ratio item) /\ terminates (processSlide ratio item).
Proof.
  unfold processSlide. split.
  - apply keepsCalls_bind; [apply keepsCalls_newId |].
    intros id. apply parseElements_keepsCalls.
  - apply terminates_bind; [apply terminates_newId |].
    intros id. apply parseElements_terminates. lia.
Qed.

Lemma processSlidesFromRawData_terminates (json : RawDocument)
    (fixedViewport : bool) :
  terminates (processSlidesFromRawData json fixedViewport).
Proof.
  unfold processSlidesFromRawData.
  apply terminates_bind.
  - unfold setupRatio. frame.
  - intros ratio. apply terminates_bind; [frame |].
    intros _. apply terminates_mapM. intros x. apply processSlide_frame.
Qed.

(** The conversion proper, after the ratio is fixed. *)
Lemma afterRatio_frame (json : RawDocument) (ratio : Q) (w w' : World) :
  worldOf (bind (match json_themeColors json with
                 | Some tc => storeCall (SetTheme tc)
                 | None => ret tt
                 end)
                (fun _ => mapM (processSlide ratio) (json_slides json)) w)
    = Some w' ->
  viewportUpdates (calls w') = viewportUpdates (calls w).
Proof.
  unfold bind. intros H.
  assert (Hmap : keepsCalls (mapM (processSlide ratio) (json_slides json))).
  { apply keepsCalls_mapM. intros x. apply processSlide_frame. }
  destruct (json_themeColors json) as [tc |]; cbn in H.
  - rewrite (Hmap _ _ H). cbn. rewrite viewportUpdates_app. cbn.
    apply app_nil_r.
  - rewrite (Hmap _ _ H). reflexivity.
Qed.

(** C3 (as amended): an import of a raw document that declares a non-zero
    canvas width always returns or throws, and issues exactly one
    viewport-width update, of the declared width times 96/72, when the
    fixed-viewport option is not set, and none when it is set; the ratio
    applied to the elements is 1000 / declared width when the option is
    set and 96/72 otherwise: that is the ratio the set-up computes, every
    slide the import returns is the conversion of its raw slide at that
    ratio, and a raw slide that holds one text element gives a text
    element with the raw left, top, width and height times that ratio. *)
Theorem viewport_update (json : RawDocument) (fixedViewport : bool)
    (w : World) (sz : RawSize) :
  json_size json = Some sz ->
  truthy (size_width sz) = true ->
  let ratio := if fixedViewport then 1000 / size_width sz else 96 / 72 in
  processSlidesFromRawData json fixedViewport w <> OutOfFuel /\
  (forall w',
     worldOf (processSlidesFromRawData json fixedViewport w) = Some w' ->
     viewportUpdates (calls w') =
       (viewportUpdates (calls w) ++
        if fixedViewport then [] else [size_width sz * (96 / 72)])%list) /\
  (exists w1,
     setupRatio (json_size json) fixedViewport w
       = Ok (if fixedViewport then 1000 / size_width sz else 96 / 72) w1) /\
  (forall slides w',
     processSlidesFromRawData json fixedViewport w = Ok slides w' ->
     Forall2
       (fun item slide =>
          (exists wa wb, processSlide ratio item wa = Ok slide wb) /\
          forall c t,
            (orEmpty (sl_elements item) ++ orEmpty (sl_layoutElements item))%list
              = [El c (KText t)] ->
            exists e,
              slide_elements slide = [PText e] /\
              te_left e = left c * ratio /\ te_top e = top c * ratio /\
              te_width e = width c * ratio /\ te_height e = height c * ratio)
       (json_slides json) slides).
Proof.
  intros Hsize Hwidth ratio. split; [| split; [| split]].
  - apply processSlidesFromRawData_terminates.
  - intros w' H. unfold processSlidesFromRawData in H.
    unfold bind at 1 in H. unfold setupRatio in H.
    rewrite Hsize, Hwidth in H.
    destruct fixedViewport; cbn [ret bind storeCall] in H.
    + rewrite (afterRatio_frame _ _ _ H). symmetry. apply app_nil_r.
    + rewrite (afterRatio_frame _ _ _ H). cbn [calls].
      apply viewportUpdates_app.
  - unfold setupRatio. rewrite Hsize, Hwidth.
    destruct fixedViewport; eexists; reflexivity.
  - intros slides w' H. unfold processSlidesFromRawData in H.
    inv_bind H as ratio' w1 Hratio. inv_bind H as u w2 Htheme.
    assert (Hr : ratio' = ratio).
    { unfold setupRatio in Hratio. rewrite Hsize, Hwidth in Hratio.
      unfold ratio. destruct fixedViewport.
      - inv_ret Hratio. reflexivity.
      - inv_bind Hratio as u' w3 Hcall. inv_ret Hratio. reflexivity. }
    subst ratio'. apply mapM_Forall2 in H.
    eapply Forall2_impl; [| exact H].
    intros item slide (wa & wb & Hrun). split; [eauto |].
    intros c t Hall. unfold processSlide in Hrun.
    inv_bind Hrun as id w3 Hid. rewrite Hall in Hrun.
    change (depthList [El c (KText t)]) with 0%nat in Hrun.
    rewrite parseElements_singleton in Hrun.
    match type of Hrun with
    | parseElement ?rec _ _ ?sl ?w0 = _ =>
        destruct (parseElement_text rec ratio c t sl w0)
          as (e & w4 & Hconv & Hl & Ht & Hw & Hh & _)
    end.
    rewrite Hconv in Hrun. inversion Hrun; subst.
    exists e. split; [reflexivity |]. auto.
Qed.

End ViewportClaims.

(** C3, witness: the sample document imported without the fixed-viewport
    option sends one update, 1280 * 96/72. *)
Lemma viewport_update_witness :
  exists slides w',
    processSlidesFromRawData (E := sampleExternals) sampleDocument false world0
      = Ok slides w' /\
    viewportUpdates (calls w') = [1280 * (96 / 72)].
Proof.
  do 2 eexists. split; [cbv; reflexivity |].
  exact (proj1 (proj2 (viewport_update (E := sampleExternals) sampleDocument
                         false world0 eq_refl eq_refl)) _ eq_refl).
Defined.

(** C3, as stated, fails: with the fixed-viewport option set the import of
    a document that declares its width sends no viewport update at all. *)
Lemma viewport_update_fixed_counterexample :
  exists slides w',
    processSlidesFromRawData (E := sampleExternals) sampleDocument true world0
      = Ok slides w' /\
    viewportUpdates (calls w') = [] /\
    calls w' = [SetTheme ["#111"; "#222"]].
Proof.
  do 2 eexists. split; [cbv; reflexivity |].
  split; reflexivity.
Qed.

(* ------------------------------------------------------------------ *)
(** ** Flipping siblings *)

Lemma Math_min_reflect (s a a' b b' : Q) :
  a == s - a' -> b == s - b' -> Math_min a b == s - Math_max a' b'.
Proof.
  intros Ha Hb. unfold Math_min, Math_max.
  destruct (Qle_bool a b) eqn:Hab, (Qle_bool a' b') eqn:Hab';
    try (apply Qle_bool_iff in Hab); try (apply Qle_bool_iff in Hab');
    try (assert (~ a <= b) by (rewrite <- Qle_bool_iff; congruence));
    try (assert (~ a' <= b') by (rewrite <- Qle_bool_iff; congruence));
    lra.
Qed.

Lemma Math_max_reflect (s a a' b b' : Q) :
  a == s - a' -> b == s - b' -> Math_max a b == s - Math_min a' b'.
Proof.
  intros Ha Hb. unfold Math_min, Math_max.
  destruct (Qle_bool a b) eqn:Hab, (Qle_bool a' b') eqn:Hab';
    try (apply Qle_bool_iff in Hab); try (apply Qle_bool_iff in Hab');
    try (assert (~ a <= b) by (rewrite <- Qle_bool_iff; congruence));
    try (assert (~ a' <= b') by (rewrite <- Qle_bool_iff; congruence));
    lra.
Qed.

(** Reflecting every number of a list about [s / 2] exchanges its minimum
    and its maximum. *)
Lemma Math_min_list_reflect {A} (g h : A -> Q) (s : Q) (l : list A) :
  (forall x, g x == s - h x) ->
  forall a a', a == s - a' ->
    Math_min_list a (map g l) == s - Math_max_list a' (map h l).
Proof.
  intros Hgh. unfold Math_min_list, Math_max_list.
  induction l as [| x l IH]; intros a a' Ha; cbn.
  - exact Ha.
  - apply IH. apply Math_min_reflect; [exact Ha | apply Hgh].
Qed.

Lemma Math_max_list_reflect {A} (g h : A -> Q) (s : Q) (l : list A) :
  (forall x, g x == s - h x) ->
  forall a a', a == s - a' ->
    Math_max_list a (map g l) == s - Math_min_list a' (map h l).
Proof.
  intros Hgh. unfold Math_min_list, Math_max_list.
  induction l as [| x l IH]; intros a a' Ha; cbn.
  - exact Ha.
  - apply IH. apply Math_max_reflect; [exact Ha | apply Hgh].
Qed.

(** A flip keeps the centre of the joint bounding box on its own axis. *)
Lemma flipCenter_flip_Y (c : Q * Q) (e0 : Element) (rest : list Element) :
  c = flipCenter e0 rest ->
  fst (flipCenter (flipOne c AxisY e0) (map (flipOne c AxisY) rest)) == fst c.
Proof.
  intros ->. unfold flipCenter at 1. cbn [fst].
  rewrite !map_map.
  set (s := 2 * fst (flipCenter e0 rest)).
  assert (Hmin :
    Math_min_list (left (common (flipOne (flipCenter e0 rest) AxisY e0)))
      (map (fun x => left (common (flipOne (flipCenter e0 rest) AxisY x))) rest)
    == s - Math_max_list (left (common e0) + width (common e0))
           (map (fun el => left (common el) + width (common el)) rest)).
  { apply Math_min_list_reflect; intros; unfold flipOne;
      cbn [common left top width height withLeft withTop]; unfold s; ring. }
  assert (Hmax :
    Math_max_list
      (left (common (flipOne (flipCenter e0 rest) AxisY e0)) +
       width (common (flipOne (flipCenter e0 rest) AxisY e0)))
      (map (fun x => left (common (flipOne (flipCenter e0 rest) AxisY x)) +
                     width (common (flipOne (flipCenter e0 rest) AxisY x))) rest)
    == s - Math_min_list (left (common e0))
           (map (fun el => left (common el)) rest)).
  { apply Math_max_list_reflect; intros; unfold flipOne;
      cbn [common left top width height withLeft withTop]; unfold s; ring. }
  rewrite Hmin, Hmax. unfold s, flipCenter. cbn [fst]. field.
Qed.

Lemma flipCenter_flip_X (c : Q * Q) (e0 : Element) (rest : list Element) :
  c = flipCenter e0 rest ->
  snd (flipCenter (flipOne c AxisX e0) (map (flipOne c AxisX) rest)) == snd c.
Proof.
  intros ->. unfold flipCenter at 1. cbn [snd].
  rewrite !map_map.
  set (s := 2 * snd (flipCenter e0 rest)).
  assert (Hmin :
    Math_min_list (top (common (flipOne (flipCenter e0 rest) AxisX e0)))
      (map (fun x => top (common (flipOne (flipCenter e0 rest) AxisX x))) rest)
    == s - Math_max_list (top (common e0) + height (common e0))
           (map (fun el => top (common el) + height (common el)) rest)).
  { apply Math_min_list_reflect; intros; unfold flipOne;
      cbn [common left top width height withLeft withTop]; unfold s; ring. }
  assert (Hmax :
    Math_max_list
      (top (common (flipOne (flipCenter e0 rest) AxisX e0)) +
       height (common (flipOne (flipCenter e0 rest) AxisX e0)))
      (map (fun x => top (common (flipOne (flipCenter e0 rest) AxisX x)) +
                     height (common (flipOne (flipCenter e0 rest) AxisX x))) rest)
    == s - Math_min_list (top (common e0))
           (map (fun el => top (common el)) rest)).
  { apply Math_max_list_reflect; intros; unfold flipOne;
      cbn [common left top width height withLeft withTop]; unfold s; ring. }
  rewrite Hmin, Hmax. unfold s, flipCenter. cbn [snd]. field.
Qed.

Lemma flipOne_twice (c c' : Q * Q) (axis : Axis) (e : Element) :
  match axis with AxisY => fst c' == fst c | AxisX => snd c' == snd c end ->
  samePlace (flipOne c' axis (flipOne c axis e)) e.
Proof.
  intros Hc. destruct e as [ce k]. unfold samePlace.
  destruct axis; cbn [flipOne common kind left top width height order rotate
                      isFlipH isFlipV withLeft withTop];
    repeat split; try reflexivity; rewrite Hc; ring.
Qed.

Lemma flipGroupElements_twice (elements : list Element) (axis : Axis) :
  Forall2 samePlace
    (flipGroupElements (flipGroupElements elements axis) axis) elements.
Proof.
  destruct elements as [| e0 rest]; [constructor |].
  unfold flipGroupElements at 2. cbn [map].
  unfold flipGroupElements.
  set (c := flipCenter e0 rest).
  set (c' := flipCenter (flipOne c axis e0) (map (flipOne c axis) rest)).
  assert (Hc : match axis with
               | AxisY => fst c' == fst c
               | AxisX => snd c' == snd c
               end).
  { destruct axis; [apply flipCenter_flip_X | apply flipCenter_flip_Y];
      reflexivity. }
  change (flipOne c axis e0 :: map (flipOne c axis) rest)
    with (map (flipOne c axis) (e0 :: rest)).
  rewrite map_map.
  induction (e0 :: rest) as [| x l IH]; cbn; constructor.
  - apply flipOne_twice. exact Hc.
  - exact IH.
Qed.

(** *** References: the input records are left alone *)

Local Open Scope list_scope.

Lemma derefAll_app (h extra : Heap) (refs : list nat) (vals : list Element) :
  derefAll h refs = Some vals -> derefAll (h ++ extra) refs = Some vals.
Proof.
  revert vals. induction refs as [| r refs IH]; intros vals H; cbn in *.
  - exact H.
  - destruct (nth_error h r) as [v |] eqn:Hr; [| discriminate].
    destruct (derefAll h refs) as [vs |]; [| discriminate].
    rewrite nth_error_app1 by (apply nth_error_Some; congruence).
    rewrite Hr, (IH vs eq_refl). exact H.
Qed.

Lemma derefAll_fresh (h news : Heap) :
  derefAll (h ++ news) (seq (List.length h) (List.length news)) = Some news.
Proof.
  revert h. induction news as [| v news IH]; intros h; cbn.
  - reflexivity.
  - rewrite nth_error_app2 by lia. rewrite Nat.sub_diag. cbn.
    specialize (IH (h ++ [v])%list).
    rewrite <- app_assoc, length_app in IH. cbn in IH.
    rewrite Nat.add_1_r in IH. rewrite IH. reflexivity.
Qed.

Lemma flipEachRef_spec (c : Q * Q) (axis : Axis) (refs : list nat) :
  forall (h : Heap) (vals : list Element),
    derefAll h refs = Some vals ->
    flipEachRef c axis h refs
      = Some ((h ++ map (flipOne c axis) vals)%list,
              seq (List.length h) (List.length vals)).
Proof.
  induction refs as [| r refs IH]; intros h vals H; cbn in *.
  - inversion H; subst. cbn. rewrite app_nil_r. reflexivity.
  - destruct (nth_error h r) as [v |] eqn:Hr; [| discriminate].
    destruct (derefAll h refs) as [vs |] eqn:Hvs; [| discriminate].
    inversion H; subst; clear H.
    rewrite (IH (h ++ [flipOne c axis v]) vs)
      by (apply derefAll_app; exact Hvs).
    cbn. rewrite <- app_assoc, length_app. cbn.
    rewrite Nat.add_1_r. reflexivity.
Qed.



(* ------------------------------------------------------------------ *)
(** ** Groups and diagrams *)

Lemma pe_type_not_container (e : PPTElement) :
  pe_type e <> "group" /\ pe_type e <> "diagram".
Proof. destruct e; split; discriminate. Qed.

Section ContainerClaims.
Context {E : Externals}.

Lemma groupChildren_moved (g : Common) (ow oh : Q) (l : list Element) :
  exists moved,
    Forall2 (movedBy g ow oh) l moved /\
    groupChildren g ow oh l =
      (let flippedH := if truthyB (isFlipH g)
                       then flipGroupElements moved AxisY else moved in
       if truthyB (isFlipV g)
       then flipGroupElements flippedH AxisX else flippedH).
Proof.
  unfold groupChildren.
  match goal with
  | |- context [map ?f l] => exists (map f l)
  end.
  split; [| reflexivity].
  induction l as [| [c k] l IH]; cbn [map]; constructor; [| exact IH].
  unfold movedBy, truthyO. cbn [common kind].
  destruct (rotate g) as [rot |]; [destruct (truthy rot) |];
    try destruct (calculateRotatedPosition _ _ _ _ _ _ _);
    cbn; repeat split; try reflexivity;
    match goal with
    | |- context [isFlipH c] =>
        destruct (isFlipH c); cbn; [destruct (truthyB (isFlipH g)) |];
        reflexivity
    | |- context [isFlipV c] =>
        destruct (isFlipV c); cbn; [destruct (truthyB (isFlipV g)) |];
        reflexivity
    end.
Qed.

Lemma diagramChildren_translated (g : Common) (l : list Element) :
  Forall2 (translatedBy g) l (diagramChildren g l).
Proof.
  unfold diagramChildren.
  induction l as [| [c k] l IH]; cbn [map]; constructor; [| exact IH].
  unfold translatedBy. cbn. repeat split; reflexivity.
Qed.

(** C9 (as amended): no element of kind group or diagram appears among
    the elements a conversion pushes, and with fuel beyond the nesting
    depth the conversion returns or throws.  For a group the flattener
    converts the children instead, each moved by the raw origin of the
    group (by [calculateRotatedPosition] when the group is rotated), then
    flipped about their joint bounding box for each flip flag of the
    group.  For a diagram it converts the children translated by the raw
    origin of the diagram, whatever the rotation or flip flags of the
    diagram. *)
Theorem containers_are_flattened (r : Q) :
  (forall fuel elements slide w,
     (depthList elements < fuel)%nat ->
     parseElements fuel r elements slide w <> OutOfFuel) /\
  (forall fuel elements slide w slide' w',
     parseElements fuel r elements slide w = Ok slide' w' ->
     exists new,
       slide' = pushAll slide new /\
       Forall (fun e => pe_type e <> "group" /\ pe_type e <> "diagram") new) /\
  (forall fuel g l slide,
     exists moved,
       Forall2 (movedBy g (orElse (width g) 1) (orElse (height g) 1)) l moved /\
       parseElement (parseElements fuel r) r (El g (KGroup l)) slide
         = parseElements fuel r
             (let flippedH := if truthyB (isFlipH g)
                              then flipGroupElements moved AxisY else moved in
              if truthyB (isFlipV g)
              then flipGroupElements flippedH AxisX else flippedH)
             slide) /\
  (forall fuel g l slide,
     exists moved,
       Forall2 (translatedBy g) l moved /\
       parseElement (parseElements fuel r) r (El g (KDiagram l)) slide
         = parseElements fuel r moved slide).
Proof.
  split; [| split; [| split]].
  - intros fuel elements slide w Hd.
    apply parseElements_terminates. exact Hd.
  - intros fuel elements slide w slide' w' H.
    destruct (parseElements_appends _ _ _ _ _ H) as [new ->].
    exists new. split; [reflexivity |].
    apply Forall_forall. intros e _. apply pe_type_not_container.
  - intros fuel g l slide.
    destruct (groupChildren_moved g (orElse (width g) 1) (orElse (height g) 1) l)
      as (moved & Hmoved & Heq).
    exists moved. split; [exact Hmoved |].
    rewrite parseElement_group, Heq. reflexivity.
  - intros fuel g l slide. exists (diagramChildren g l).
    split; [apply diagramChildren_translated | reflexivity].
Qed.

End ContainerClaims.

(** C9, witness: a flipped group of two texts is converted, in two levels
    of fuel, into two text elements. *)
Lemma containers_are_flattened_witness :
  parseElements (E := sampleExternals) 2 1
    [El flippedContainer (KGroup twoTexts)] slide0 world0 <> OutOfFuel /\
  exists slide' w' new,
    parseElements (E := sampleExternals) 2 1
      [El flippedContainer (KGroup twoTexts)] slide0 world0 = Ok slide' w' /\
    slide' = pushAll slide0 new /\
    Forall (fun e => pe_type e <> "group" /\ pe_type e <> "diagram") new /\
    map pe_type new = ["text"; "text"].
Proof.
  split.
  - apply (proj1 (containers_are_flattened (E := sampleExternals) 1)).
    cbn. lia.
  - destruct (proj1 (proj2 (containers_are_flattened (E := sampleExternals) 1))
                2%nat [El flippedContainer (KGroup twoTexts)] slide0 world0
                _ _ ltac:(cbv; reflexivity))
      as (new & Hs & Hnew).
    do 2 eexists. exists new. split; [cbv; reflexivity |].
    split; [exact Hs |]. split; [exact Hnew |].
    cbv in Hs. injection Hs as Hs. subst new. reflexivity.
Defined.

(** C9, as stated, fails for a flipped diagram: its children are only
    translated (left 10 and 100), while the same children in a flipped
    group are reflected about their joint bounding box (left 70 and 10). *)
Lemma flipped_diagram_counterexample :
  (exists e1 e2 slide' w',
     parseElements (E := sampleExternals) 2 1
       [El flippedContainer (KDiagram twoTexts)] slide0 world0 = Ok slide' w' /\
     slide_elements slide' = [PText e1; PText e2] /\
     te_left e1 == 10 /\ te_left e2 == 100) /\
  (exists e1 e2 slide' w',
     parseElements (E := sampleExternals) 2 1
       [El flippedContainer (KGroup twoTexts)] slide0 world0 = Ok slide' w' /\
     slide_elements slide' = [PText e1; PText e2] /\
     te_left e1 == 70 /\ te_left e2 == 10).
Proof.
  split; do 4 eexists; (split; [cbv; reflexivity |]);
    (split; [reflexivity |]); split; reflexivity.
Qed.

(* ------------------------------------------------------------------ *)
(** * Further properties *)

(** ** Rotating a line *)

Lemma Math_min_shift (a b : Q) :
  Math_min (a - Math_min a b) (b - Math_min a b) == 0 /\
  0 <= a - Math_min a b /\ 0 <= b - Math_min a b.
Proof.
  unfold Math_min.
  destruct (Qle_bool a b) eqn:Hab.
  - apply Qle_bool_iff in Hab.
    destruct (Qle_bool (a - a) (b - a)) eqn:H1.
    + repeat split; lra.
    + assert (~ a - a <= b - a) by (rewrite <- Qle_bool_iff; congruence). lra.
  - assert (~ a <= b) by (rewrite <- Qle_bool_iff; congruence).
    destruct (Qle_bool (a - b) (b - b)) eqn:H1.
    + apply Qle_bool_iff in H1. lra.
    + repeat split; lra.
Qed.

Section RotationProperties.
Context {E : Externals}.

(** X1: whatever the angle, the segment [rotateLine] returns has the
    top-left corner of its bounding box at the origin: no coordinate is
    negative and the smaller one on each axis is 0. *)
Theorem rotateLine_normalized (line : PPTLineElement) (angleDeg : Q) :
  let r := rotateLine line angleDeg in
  Math_min (fst (rl_start r)) (fst (rl_end r)) == 0 /\
  Math_min (snd (rl_start r)) (snd (rl_end r)) == 0 /\
  0 <= fst (rl_start r) /\ 0 <= fst (rl_end r) /\
  0 <= snd (rl_start r) /\ 0 <= snd (rl_end r).
Proof.
  cbv zeta. unfold rotateLine. cbn [rl_start rl_end fst snd].
  match goal with
  | |- Math_min (?a - Math_min ?a ?b) _ == 0 /\
       Math_min (?c - Math_min ?c ?d) _ == 0 /\ _ =>
      destruct (Math_min_shift a b) as (Hx & Hxa & Hxb);
      destruct (Math_min_shift c d) as (Hy & Hya & Hyb)
  end.
  repeat split; assumption.
Qed.

End RotationProperties.

(** ** Lines: centre and control points *)

Section LineGeometry.
Context {E : Externals}.

Lemma Qabs_half_nonneg (x : Q) : 0 <= Math_abs x / 2.
Proof.
  unfold Math_abs. pose proof (Qabs_nonneg x).
  unfold Qdiv. change (/ 2) with (1 # 2). lra.
Qed.

End LineGeometry.

Lemma Math_abs_extent (x : Q) :
  0 <= x -> Math_abs (0 - x) == x /\ Math_abs (x - 0) == x.
Proof.
  intros Hx. unfold Math_abs. split.
  - rewrite Qabs_neg by lra. ring.
  - rewrite Qabs_pos by lra. ring.
Qed.

Section ConnectorProperties.
Context {E : Externals}.

(** X5: a converted line carries a bend control value exactly when its
    vendor type contains 'bentConnector' and curve control points exactly
    when it contains 'curvedConnector'; the two curve control points are
    equal; no control value is negative; and for an unrotated line of
    non-negative size they are half the width and half the height,
    whatever the flips. *)
Theorem connector_controls (c : Common) (s : RawShape) (ratio : Q)
    (w : World) :
  exists data w',
    parseLineElement c s ratio w = Ok data w' /\
    (includes "bentConnector" (s_shapType s) = false -> le_broken2 data = None) /\
    (includes "curvedConnector" (s_shapType s) = false -> le_cubic data = None) /\
    (includes "bentConnector" (s_shapType s) = true ->
     exists h, le_broken2 data = Some h /\ 0 <= fst h /\ 0 <= snd h /\
       (truthyO (rotate c) = false -> 0 <= width c -> 0 <= height c ->
        fst h == width c / 2 /\ snd h == height c / 2)) /\
    (includes "curvedConnector" (s_shapType s) = true ->
     exists h, le_cubic data = Some (h, h) /\ 0 <= fst h /\ 0 <= snd h /\
       (truthyO (rotate c) = false -> 0 <= width c -> 0 <= height c ->
        fst h == width c / 2 /\ snd h == height c / 2)).
Proof.
  unfold parseLineElement, bind, newId, ret, truthyO.
  destruct (negb (truthyB (isFlipV c)) && negb (truthyB (isFlipH c)))%bool;
    [| destruct (truthyB (isFlipV c) && truthyB (isFlipH c))%bool;
       [| destruct (truthyB (isFlipV c) && negb (truthyB (isFlipH c)))%bool]];
    (destruct (rotate c) as [r |]; [destruct (truthy r) |]);
    destruct (includes "bentConnector" (s_shapType s));
    destruct (includes "curvedConnector" (s_shapType s));
    do 2 eexists; (split; [reflexivity |]);
    cbn [le_broken2 le_cubic le_start le_end fst snd];
    (split; [intros; (discriminate || reflexivity) |]);
    (split; [intros; (discriminate || reflexivity) |]);
    (split; intros Hin; try discriminate;
     eexists; (split; [reflexivity |]);
     cbn [fst snd];
     (split; [apply Qabs_half_nonneg |]);
     (split; [apply Qabs_half_nonneg |]);
     intros Hrot Hw Hh; try discriminate;
     destruct (Math_abs_extent Hw) as [Hw1 Hw2];
     destruct (Math_abs_extent Hh) as [Hh1 Hh2];
     split;
     first [rewrite Hw1 | rewrite Hw2 | rewrite Hh1 | rewrite Hh2
           | setoid_replace (0 - 0) with 0 by ring];
     try reflexivity).
Qed.

End ConnectorProperties.

(** X5, witness: a bent connector in a box of 100 by 50, flipped
    horizontally, bends at (50, 25). *)
Lemma connector_controls_witness :
  exists data w' h,
    parseLineElement (E := sampleExternals) (flipped (box 0 0 100 50) true false)
      (sampleShape "bentConnector3" None) 1 world0 = Ok data w' /\
    le_broken2 data = Some h /\ fst h == 50 /\ snd h == 25.
Proof.
  destruct (connector_controls (E := sampleExternals)
              (flipped (box 0 0 100 50) true false)
              (sampleShape "bentConnector3" None) 1 world0)
    as (data & w' & Hrun & _ & _ & Hbent & _).
  destruct (Hbent eq_refl) as (h & Hh & _ & _ & Hhalf).
  destruct (Hhalf eq_refl ltac:(discriminate) ltac:(discriminate)) as [Hx Hy].
  exists data, w', h. split; [exact Hrun |]. split; [exact Hh |].
  split; [rewrite Hx | rewrite Hy]; reflexivity.
Defined.

(** ** The position of a child in a rotated group *)

Section RotatedPosition.
Context {E : Externals}.

(** X6: [calculateRotatedPosition] turns the child about the centre of
    the container: a child whose offset is the centre of the box of the
    container is placed at the centre of the container on the slide,
    whatever the angle. *)
Theorem rotated_position_about_centre (x y w h k : Q) :
  let centre := calculateRotatedPosition x y w h (w / 2) (h / 2) k in
  fst centre == x + w / 2 /\ snd centre == y + h / 2.
Proof.
  cbv zeta. unfold calculateRotatedPosition. cbn [fst snd].
  split; field.
Qed.

End RotatedPosition.

(** ** Flipping siblings: the order of the flips *)

Lemma flipCenter_extent (e0 : Element) (rest : list Element) :
  flipCenter e0 rest
    = ((fst (extentX e0 rest) + snd (extentX e0 rest)) / 2,
       (fst (extentY e0 rest) + snd (extentY e0 rest)) / 2).
Proof. reflexivity. Qed.

(** A flip leaves the extent on the other axis as it is. *)
Lemma extentY_flip_Y (c : Q * Q) (e0 : Element) (rest : list Element) :
  extentY (flipOne c AxisY e0) (map (flipOne c AxisY) rest) = extentY e0 rest.
Proof. unfold extentY. rewrite !map_map. reflexivity. Qed.

Lemma extentX_flip_X (c : Q * Q) (e0 : Element) (rest : list Element) :
  extentX (flipOne c AxisX e0) (map (flipOne c AxisX) rest) = extentX e0 rest.
Proof. unfold extentX. rewrite !map_map. reflexivity. Qed.

Lemma flipCenter_snd_flip_Y (c : Q * Q) (e0 : Element) (rest : list Element) :
  snd (flipCenter (flipOne c AxisY e0) (map (flipOne c AxisY) rest))
    = snd (flipCenter e0 rest).
Proof. rewrite !flipCenter_extent, extentY_flip_Y. reflexivity. Qed.

Lemma flipCenter_fst_flip_X (c : Q * Q) (e0 : Element) (rest : list Element) :
  fst (flipCenter (flipOne c AxisX e0) (map (flipOne c AxisX) rest))
    = fst (flipCenter e0 rest).
Proof. rewrite !flipCenter_extent, extentX_flip_X. reflexivity. Qed.

Lemma flipOne_X_ext (c c' : Q * Q) (e : Element) :
  snd c = snd c' -> flipOne c AxisX e = flipOne c' AxisX e.
Proof. intros H. unfold flipOne. rewrite H. reflexivity. Qed.

Lemma flipOne_Y_ext (c c' : Q * Q) (e : Element) :
  fst c = fst c' -> flipOne c AxisY e = flipOne c' AxisY e.
Proof. intros H. unfold flipOne. rewrite H. reflexivity. Qed.

Lemma flipOne_XY (c1 c2 : Q * Q) (e : Element) :
  flipOne c2 AxisX (flipOne c1 AxisY e) = flipOne c1 AxisY (flipOne c2 AxisX e).
Proof. destruct e as [c k]. reflexivity. Qed.

(** X9: the two flips commute: flipping about the vertical axis and then
    about the horizontal one gives the same records as the other order,
    so the order in which a group applies its two flip flags does not
    matter. *)
Theorem flips_commute (elements : list Element) :
  flipGroupElements (flipGroupElements elements AxisY) AxisX
    = flipGroupElements (flipGroupElements elements AxisX) AxisY.
Proof.
  destruct elements as [| e0 rest]; [reflexivity |].
  unfold flipGroupElements. cbn [map].
  set (c := flipCenter e0 rest).
  assert (HX : forall e,
    flipOne (flipCenter (flipOne c AxisY e0) (map (flipOne c AxisY) rest))
      AxisX e = flipOne c AxisX e).
  { intros e. apply flipOne_X_ext. apply flipCenter_snd_flip_Y. }
  assert (HY : forall e,
    flipOne (flipCenter (flipOne c AxisX e0) (map (flipOne c AxisX) rest))
      AxisY e = flipOne c AxisY e).
  { intros e. apply flipOne_Y_ext. apply flipCenter_fst_flip_X. }
  rewrite HX, HY, (map_ext _ _ HX), (map_ext _ _ HY), !map_map.
  apply (f_equal2 cons); [apply flipOne_XY |].
  apply map_ext. intros e. apply flipOne_XY.
Qed.

(** ** The order of conversion *)

Lemma insertByOrder_perm (x : Element) (l : list Element) :
  Permutation (x :: l) (insertByOrder x l).
Proof.
  induction l as [| y l IH]; cbn.
  - apply Permutation_refl.
  - destruct (Qle_bool (order (common x)) (order (common y))).
    + apply Permutation_refl.
    + apply perm_trans with (y :: x :: l); [apply perm_swap |].
      apply perm_skip. exact IH.
Qed.

Lemma insertByOrder_sorted (x : Element) (l : list Element) :
  StronglySorted orderLe l -> StronglySorted orderLe (insertByOrder x l).
Proof.
  induction l as [| y l IH]; intros Hl; cbn.
  - constructor; constructor.
  - inversion Hl as [| y' l' Hl' Hy]; subst.
    destruct (Qle_bool (order (common x)) (order (common y))) eqn:Hxy.
    + apply Qle_bool_iff in Hxy. constructor; [exact Hl |].
      constructor; [exact Hxy |].
      apply Forall_forall. intros z Hz.
      rewrite Forall_forall in Hy. specialize (Hy z Hz).
      unfold orderLe in *. lra.
    + assert (Hyx : order (common y) <= order (common x)).
      { assert (~ order (common x) <= order (common y))
          by (rewrite <- Qle_bool_iff; congruence). lra. }
      constructor; [apply IH; exact Hl' |].
      apply Forall_forall. intros z Hz.
      apply In_insertByOrder in Hz. destruct Hz as [-> | Hz]; [exact Hyx |].
      rewrite Forall_forall in Hy. exact (Hy z Hz).
Qed.

Lemma insertByOrder_withOrder (k : Q) (x : Element) (l : list Element) :
  withOrder k (insertByOrder x l) = withOrder k (x :: l).
Proof.
  unfold withOrder. induction l as [| y l IH]; [reflexivity |].
  cbn [insertByOrder].
  destruct (Qle_bool (order (common x)) (order (common y))) eqn:Hxy;
    [reflexivity |].
  cbn [filter] in *. rewrite IH.
  destruct (Qeq_bool (order (common x)) k) eqn:Hx,
           (Qeq_bool (order (common y)) k) eqn:Hy; try reflexivity.
  apply Qeq_bool_iff in Hx. apply Qeq_bool_iff in Hy.
  assert (~ order (common x) <= order (common y))
    by (rewrite <- Qle_bool_iff; congruence).
  lra.
Qed.

Lemma insertByOrder_first (x : Element) (l : list Element) :
  Forall (orderLe x) l -> insertByOrder x l = x :: l.
Proof.
  destruct l as [| y l]; [reflexivity |]. intros H. cbn.
  inversion H as [| y' l' Hxy _]; subst.
  apply Qle_bool_iff in Hxy. rewrite Hxy. reflexivity.
Qed.

Lemma sortByOrder_sorted_perm (l : list Element) :
  Permutation l (sortByOrder l) /\ StronglySorted orderLe (sortByOrder l).
Proof.
  unfold sortByOrder. split.
  - induction l as [| x l IH]; cbn; [constructor |].
    apply perm_trans with (x :: fold_right insertByOrder [] l).
    + apply perm_skip. exact IH.
    + apply insertByOrder_perm.
  - induction l as [| x l IH]; cbn; [constructor |].
    apply insertByOrder_sorted. exact IH.
Qed.

(** X10: the elements of a list are converted in ascending [order], those
    of equal [order] in the order they come in: the sorted list is a
    permutation of the list, it is ascending, elements of equal [order]
    keep their relative order, and a list that is already ascending is
    left as it is. *)
Theorem sortByOrder_stable (l : list Element) :
  Permutation l (sortByOrder l) /\
  StronglySorted orderLe (sortByOrder l) /\
  (forall k, withOrder k (sortByOrder l) = withOrder k l) /\
  (StronglySorted orderLe l -> sortByOrder l = l).
Proof.
  unfold sortByOrder. split; [| split; [| split]].
  - induction l as [| x l IH]; cbn; [constructor |].
    apply perm_trans with (x :: fold_right insertByOrder [] l).
    + apply perm_skip. exact IH.
    + apply insertByOrder_perm.
  - induction l as [| x l IH]; cbn; [constructor |].
    apply insertByOrder_sorted. exact IH.
  - intros k. induction l as [| x l IH]; cbn [fold_right]; [reflexivity |].
    rewrite insertByOrder_withOrder. unfold withOrder in *. cbn [filter].
    rewrite IH. reflexivity.
  - induction l as [| x l IH]; intros Hl; cbn [fold_right]; [reflexivity |].
    inversion Hl as [| x' l' Hl' Hx]; subst.
    rewrite (IH Hl'). apply insertByOrder_first. exact Hx.
Qed.

(** X10, witness: three elements given in ascending order stay in place. *)
Lemma sortByOrder_stable_witness : sortByOrder threeSiblings = threeSiblings.
Proof.
  apply (sortByOrder_stable threeSiblings).
  repeat constructor; unfold orderLe; cbn; discriminate.
Defined.

(** ** How many elements a conversion pushes *)

Lemma leaves_kind (a b : Element) : kind a = kind b -> leaves a = leaves b.
Proof. destruct a as [ca ka], b as [cb kb]. cbn. intros ->. reflexivity. Qed.

Lemma leavesList_map (f : Element -> Element) (l : list Element) :
  (forall x, kind (f x) = kind x) -> leavesList (map f l) = leavesList l.
Proof.
  intros Hf. induction l as [| x l IH]; cbn; [reflexivity |].
  unfold leavesList in IH. rewrite IH, (leaves_kind (f x) x (Hf x)). reflexivity.
Qed.

Lemma leavesList_flip (l : list Element) (axis : Axis) :
  leavesList (flipGroupElements l axis) = leavesList l.
Proof.
  unfold flipGroupElements. destruct l as [| e0 rest]; [reflexivity |].
  apply leavesList_map. intros x. destruct axis; reflexivity.
Qed.

Lemma leavesList_diagramChildren (c : Common) (l : list Element) :
  leavesList (diagramChildren c l) = leavesList l.
Proof. apply leavesList_map. intros x. reflexivity. Qed.

Lemma leavesList_perm (l l' : list Element) :
  Permutation l l' -> leavesList l = leavesList l'.
Proof.
  induction 1 as [| x l l' _ IH | x y l | l l' l'' _ IH1 _ IH2]; cbn.
  - reflexivity.
  - unfold leavesList in IH. rewrite IH. reflexivity.
  - lia.
  - congruence.
Qed.

Lemma leavesList_sortByOrder (l : list Element) :
  leavesList (sortByOrder l) = leavesList l.
Proof.
  symmetry. apply leavesList_perm.
  unfold sortByOrder. induction l as [| x l IH]; cbn; [constructor |].
  apply perm_trans with (x :: fold_right insertByOrder [] l).
  - apply perm_skip. exact IH.
  - apply insertByOrder_perm.
Qed.

Section Counting.
Context {E : Externals}.

Lemma leavesList_groupChildren (c : Common) (ow oh : Q) (l : list Element) :
  leavesList (groupChildren c ow oh l) = leavesList l.
Proof.
  unfold groupChildren.
  destruct (truthyB (isFlipH c)), (truthyB (isFlipV c));
    rewrite ?leavesList_flip; apply leavesList_map; intros x;
    destruct (truthyO (rotate c)); reflexivity.
Qed.

Lemma forOf_pushesAtMost (l : list Element)
    (body : Element -> Slide -> M Slide) :
  (forall x s, pushesAtMost (leaves x) (body x s) s) ->
  forall s, pushesAtMost (leavesList l) (forOf l body s) s.
Proof.
  intros Hbody. induction l as [| x l IH]; intros s w s' w' H; cbn in H.
  - inv_ret H. exists []. split; [symmetry; apply pushAll_nil | cbn; lia].
  - inv_bind H as s1 w1 Hx.
    destruct (Hbody x s _ _ _ Hx) as (new1 & -> & Hn1).
    destruct (IH _ _ _ _ H) as (new2 & -> & Hn2).
    exists (new1 ++ new2). split; [apply pushAll_app |].
    rewrite length_app. cbn. unfold leavesList in Hn2. lia.
Qed.

Lemma parseElement_pushesAtMost recur r el slide :
  (forall l s, pushesAtMost (leavesList l) (recur l s) s) ->
  pushesAtMost (leaves el) (parseElement recur r el slide) slide.
Proof.
  intros Hrec. destruct el as [c k]. intros w s' w' H.
  destruct k;
    try (unfold parseElement in H; cbn [kind common] in H;
         inv_bind H as e w1 He; inv_ret H;
         eexists [_]; split; [reflexivity | cbn; lia]).
  - unfold parseElement in H. cbn [kind common] in H.
    destruct (isLineShape s).
    + inv_bind H as e w1 He. inv_ret H.
      eexists [_]. split; [reflexivity | cbn; lia].
    + destruct (convertShape_Ok _ _ _ _ _ _ _ H) as (e & -> & _).
      destruct (truthyS (se_path e)).
      * exists [PShape e]. split; [reflexivity | cbn; lia].
      * exists []. split; [symmetry; apply pushAll_nil | cbn; lia].
  - rewrite parseElement_group in H.
    destruct (Hrec _ _ _ _ _ H) as (new & -> & Hn).
    exists new. split; [reflexivity |].
    rewrite leavesList_groupChildren in Hn. exact Hn.
  - rewrite parseElement_diagram in H.
    destruct (Hrec _ _ _ _ _ H) as (new & -> & Hn).
    exists new. split; [reflexivity |].
    rewrite leavesList_diagramChildren in Hn. exact Hn.
  - unfold parseElement in H. cbn [kind common] in H. inv_ret H.
    exists []. split; [symmetry; apply pushAll_nil | cbn; lia].
Qed.

(** X11: a conversion only pushes, and never more elements than the raw
    tree has leaves of a known type: groups, diagrams and elements of an
    unknown type add nothing of their own, and no raw element is
    converted twice. *)
Theorem conversion_bounded_by_leaves (fuel : nat) (r : Q)
    (elements : list Element) (slide : Slide) (w : World)
    (slide' : Slide) (w' : World) :
  parseElements fuel r elements slide w = Ok slide' w' ->
  exists new,
    slide' = pushAll slide new /\
    (List.length new <= leavesList elements)%nat.
Proof.
  revert elements slide w slide' w'.
  induction fuel as [| fuel IH]; intros elements slide w slide' w' H.
  - discriminate.
  - cbn [parseElements] in H.
    rewrite <- (leavesList_sortByOrder elements).
    apply (forOf_pushesAtMost (sortByOrder elements)
             (parseElement (parseElements fuel r) r)) with (w := w) (w' := w').
    + intros x s. apply parseElement_pushesAtMost.
      intros l s0 w0 s1 w1 H0. exact (IH _ _ _ _ _ H0).
    + exact H.
Qed.

End Counting.

(** X11, witness: a group in a group with two texts and an element of
    unknown type, beside a video: three elements are pushed. *)
Lemma conversion_bounded_by_leaves_witness :
  exists slide' w' new,
    parseElements (E := sampleExternals) 3 1 nestedGroups slide0 world0
      = Ok slide' w' /\
    slide' = pushAll slide0 new /\
    (List.length new <= 3)%nat /\ map pe_type new = ["text"; "text"; "video"].
Proof.
  destruct (conversion_bounded_by_leaves (E := sampleExternals) 3 1
              nestedGroups slide0 world0 ltac:(cbv; reflexivity))
    as (new & Hs & Hn).
  do 2 eexists. exists new. split; [cbv; reflexivity |].
  split; [exact Hs |]. split; [exact Hn |].
  cbv in Hs. injection Hs as Hs. subst new. reflexivity.
Defined.

(** ** When a conversion throws *)

Section Deciding.
Context {E : Externals}.

Lemma decides_ext {A} (b b' : bool) (m : M A) :
  b = b' -> decides b m -> decides b' m.
Proof. intros ->. exact (fun H => H). Qed.

Lemma decides_ret {A} (a : A) : decides true (ret a).
Proof. intros w. cbn. eauto. Qed.

Lemma decides_throw {A} : decides false (@throw A "TypeError").
Proof. intros w. cbn. eauto. Qed.

Lemma decides_newId : decides true newId.
Proof. intros w. cbn. unfold newId. eauto. Qed.

Lemma decides_theme : decides true theme.
Proof. intros w. cbn. unfold theme. eauto. Qed.

Lemma decides_message_error (s : string) : decides true (message_error s).
Proof. intros w. cbn. unfold message_error. eauto. Qed.

Lemma decides_bind {A B} (b c : bool) (m : M A) (f : A -> M B) :
  decides b m -> (forall a, decides c (f a)) -> decides (b && c) (bind m f).
Proof.
  intros Hm Hf w. specialize (Hm w). unfold bind. destruct b; cbn.
  - destruct Hm as (a & w1 & ->). apply Hf.
  - destruct Hm as (w1 & ->). eauto.
Qed.

Lemma returns_bind {A B} (m : M A) (f : A -> M B) :
  decides true m -> (forall a, decides true (f a)) -> decides true (bind m f).
Proof. intros Hm Hf. exact (@decides_bind A B true true m f Hm Hf). Qed.

Lemma decides_mapM {A B} (p : A -> bool) (f : A -> M B) (l : list A) :
  (forall x, In x l -> decides (p x) (f x)) ->
  decides (forallb p l) (mapM f l).
Proof.
  induction l as [| x l IH]; intros Hf; cbn [mapM forallb].
  - apply decides_ret.
  - apply decides_ext with (p x && (forallb p l && true))%bool.
    { rewrite andb_true_r. reflexivity. }
    apply decides_bind; [apply Hf; left; reflexivity |].
    intros y. apply decides_bind; [| intros ys; apply decides_ret].
    apply IH. intros z Hz. apply Hf. right. exact Hz.
Qed.

Lemma decides_forOf {A S} (p : A -> bool) (body : A -> S -> M S)
    (l : list A) :
  (forall x s, In x l -> decides (p x) (body x s)) ->
  forall s, decides (forallb p l) (forOf l body s).
Proof.
  induction l as [| x l IH]; intros Hbody s; cbn [forOf forallb].
  - apply decides_ret.
  - apply decides_bind; [apply Hbody; left; reflexivity |].
    intros s'. apply IH. intros z s0 Hz. apply Hbody. right. exact Hz.
Qed.

End Deciding.

(** Walk down a converter that always returns. *)
Ltac returning :=
  repeat first
    [ apply decides_ret | apply decides_newId | apply decides_theme
    | apply decides_message_error
    | apply returns_bind; [| intros ?]
    | match goal with
      | |- decides true (match ?x with _ => _ end) => destruct x
      | |- decides true (let (_, _) := ?x in _) => destruct x
      end
    | progress cbv zeta ].

Section ConverterOutcomes.
Context {E : Externals}.

Lemma convertEmf_returns u : decides true (convertEmfDataUrlToPng u).
Proof. unfold convertEmfDataUrlToPng. returning. Qed.

Lemma convertText_returns el t r : decides true (convertText el t r).
Proof. unfold convertText. returning. Qed.

Lemma convertImage_returns el i r : decides true (convertImage el i r).
Proof.
  unfold convertImage. apply returns_bind.
  - destruct (_ || _)%bool; [apply convertEmf_returns | apply decides_ret].
  - intros src. returning.
Qed.

Lemma convertMath_returns el p : decides true (convertMath el p).
Proof. unfold convertMath. returning. Qed.

Lemma convertAudio_returns el b : decides true (convertAudio el b).
Proof. unfold convertAudio. returning. Qed.

Lemma convertVideo_returns el v : decides true (convertVideo el v).
Proof. unfold convertVideo. returning. Qed.

Lemma parseLineElement_returns el s r : decides true (parseLineElement el s r).
Proof. unfold parseLineElement. returning. Qed.

Lemma convertCell_returns c r : decides true (convertCell c r).
Proof. unfold convertCell. returning. Qed.

Lemma forallb_seq_ltb (n len : nat) :
  forallb (fun j => Nat.ltb j len) (seq 0 n) = Nat.leb n len.
Proof.
  assert (H : forall start,
    forallb (fun j => Nat.ltb j len) (seq start n) = Nat.leb (start + n) len
    \/ (len < start)%nat /\ (n = 0)%nat
    \/ (len < start)%nat /\ forallb (fun j => Nat.ltb j len) (seq start n) = false).
  { induction n as [| n IH]; intros start; cbn [seq forallb].
    - destruct (Nat.leb_spec (start + 0) len); [left; reflexivity |].
      right. left. lia.
    - destruct (Nat.ltb_spec start len) as [Hlt | Hge]; cbn [andb].
      + destruct (IH (S start)) as [H | [[H _] | [H _]]]; try lia.
        left. rewrite H. replace (S start + n)%nat with (start + S n)%nat by lia.
        reflexivity.
      + destruct (Nat.leb_spec (start + S n) len); [lia |].
        left. reflexivity. }
  destruct (H 0%nat) as [H0 | [[H0 _] | [H0 _]]]; try lia. exact H0.
Qed.

Lemma convertTable_decides el t r :
  decides (tableConverts t) (convertTable el t r).
Proof.
  unfold convertTable, tableConverts.
  destruct (tb_data t) as [| row0 rows] eqn:Hdata; [apply decides_throw |].
  apply decides_bind.
  - apply decides_mapM. intros rowi _.
    rewrite <- forallb_seq_ltb. apply decides_mapM. intros j _.
    destruct (nth_error rowi j) as [cell |] eqn:Hj.
    + assert (Hlt : (j < List.length rowi)%nat)
        by (apply nth_error_Some; congruence).
      apply Nat.ltb_lt in Hlt. rewrite Hlt. apply convertCell_returns.
    + apply nth_error_None in Hj.
      assert (Hge : Nat.ltb j (List.length rowi) = false)
        by (apply Nat.ltb_ge; exact Hj).
      rewrite Hge. apply decides_throw.
  - intros data. destruct row0 as [| firstCell row0]; cbn.
    + apply decides_throw.
    + returning.
Qed.

Lemma convertChart_decides el c :
  decides (chartConverts c) (convertChart el c).
Proof.
  unfold convertChart, chartConverts.
  apply decides_ext with
    ((if String.eqb (ch_chartType c) "scatterChart"
         || String.eqb (ch_chartType c) "bubbleChart"
      then match ch_data c with ScatterData (_ :: _) => true | _ => false end
      else match ch_data c with CommonData (_ :: _) => true | _ => false end)
     && true)%bool.
  { apply andb_true_r. }
  apply decides_bind.
  - destruct (_ || _)%bool; destruct (ch_data c) as [[| d0 d] | [| d0 d]];
      (apply decides_ret || apply decides_throw).
  - intros data. returning.
Qed.

Lemma convertShape_decides el s r ow oh slide :
  decides (shapeConverts s) (convertShape el s r ow oh slide).
Proof.
  unfold convertShape, shapeConverts.
  apply decides_ext with
    (true && (true &&
      (match find (hasShapeType (s_shapType s)) shapeList with
       | Some shape =>
           if truthyOS (sp_pathFormula shape) then
             match SHAPE_PATH_FORMULAS
                     (match sp_pathFormula shape with
                      | Some n => n | None => "" end)
             with Some _ => true | None => false end
           else true
       | None => true
       end &&
       ((if String.eqb (s_shapType s) "custom"
         then match s_path s with Some _ => true | None => false end
         else true) && true))))%bool.
  { cbn [andb]. rewrite andb_true_r. reflexivity. }
  apply decides_bind; [apply decides_newId |]. intros id.
  apply decides_bind; [apply decides_theme |]. intros th. cbv zeta.
  apply decides_bind.
  - destruct (find _ _) as [shape |].
    + destruct (truthyOS (sp_pathFormula shape)); [| apply decides_ret].
      destruct (SHAPE_PATH_FORMULAS _) as [pf |]; [| apply decides_throw].
      destruct (pf_editable pf); apply decides_ret.
    + destruct (usablePath (s_path s)); apply decides_ret.
  - intros element. apply decides_bind.
    + destruct (String.eqb (s_shapType s) "custom"); [| apply decides_ret].
      destruct (s_path s); [apply decides_ret | apply decides_throw].
    + intros element'. destruct (truthyS _); apply decides_ret.
Qed.

Lemma converts_kind (a b : Element) : kind a = kind b -> converts a = converts b.
Proof. destruct a as [ca ka], b as [cb kb]. cbn. intros ->. reflexivity. Qed.

Lemma forallb_converts_map (f : Element -> Element) (l : list Element) :
  (forall x, kind (f x) = kind x) ->
  forallb converts (map f l) = forallb converts l.
Proof.
  intros Hf. induction l as [| x l IH]; cbn; [reflexivity |].
  rewrite IH, (converts_kind (f x) x (Hf x)). reflexivity.
Qed.

Lemma forallb_converts_flip (l : list Element) (axis : Axis) :
  forallb converts (flipGroupElements l axis) = forallb converts l.
Proof.
  unfold flipGroupElements. destruct l as [| e0 rest]; [reflexivity |].
  apply forallb_converts_map. intros x. destruct axis; reflexivity.
Qed.

Lemma forallb_converts_groupChildren (c : Common) (ow oh : Q)
    (l : list Element) :
  forallb converts (groupChildren c ow oh l) = forallb converts l.
Proof.
  unfold groupChildren.
  destruct (truthyB (isFlipH c)), (truthyB (isFlipV c));
    rewrite ?forallb_converts_flip; apply forallb_converts_map; intros x;
    destruct (truthyO (rotate c)); reflexivity.
Qed.

Lemma forallb_converts_diagramChildren (c : Common) (l : list Element) :
  forallb converts (diagramChildren c l) = forallb converts l.
Proof. apply forallb_converts_map. intros x. reflexivity. Qed.

Lemma forallb_perm {A} (p : A -> bool) (l l' : list A) :
  Permutation l l' -> forallb p l = forallb p l'.
Proof.
  induction 1 as [| x l l' _ IH | x y l | l l' l'' _ IH1 _ IH2]; cbn.
  - reflexivity.
  - rewrite IH. reflexivity.
  - destruct (p x), (p y); reflexivity.
  - congruence.
Qed.

Lemma parseElement_decides recur r el slide :
  (forall l s, (S (depthList l) <= depth el)%nat ->
               decides (forallb converts l) (recur l s)) ->
  decides (converts el) (parseElement recur r el slide).
Proof.
  intros Hrec. destruct el as [c k]. unfold parseElement.
  cbn [kind common converts].
  destruct k.
  - apply returns_bind; [apply convertText_returns | intros; apply decides_ret].
  - apply returns_bind; [apply convertImage_returns | intros; apply decides_ret].
  - apply returns_bind; [apply convertMath_returns | intros; apply decides_ret].
  - apply returns_bind; [apply convertAudio_returns | intros; apply decides_ret].
  - apply returns_bind; [apply convertVideo_returns | intros; apply decides_ret].
  - destruct (isLineShape s).
    + apply returns_bind;
        [apply parseLineElement_returns | intros; apply decides_ret].
    + apply convertShape_decides.
  - apply decides_ext with (tableConverts t && true)%bool;
      [apply andb_true_r |].
    apply decides_bind; [apply convertTable_decides | intros; apply decides_ret].
  - apply decides_ext with (chartConverts c0 && true)%bool;
      [apply andb_true_r |].
    apply decides_bind; [apply convertChart_decides | intros; apply decides_ret].
  - rewrite <- (forallb_converts_groupChildren c
                  (orElse (width c) 1) (orElse (height c) 1) elements).
    apply Hrec. rewrite depthList_groupChildren, depth_group. lia.
  - rewrite <- (forallb_converts_diagramChildren c elements).
    apply Hrec. rewrite depthList_diagramChildren, depth_diagram. lia.
  - apply decides_ret.
Qed.

Lemma parseElements_decides (fuel : nat) (r : Q) :
  forall (elements : list Element) (slide : Slide),
    (depthList elements < fuel)%nat ->
    decides (forallb converts elements) (parseElements fuel r elements slide).
Proof.
  induction fuel as [| fuel IH]; intros elements slide Hd; [lia |].
  cbn [parseElements].
  rewrite (forallb_perm converts (proj1 (sortByOrder_sorted_perm elements))).
  apply decides_forOf. intros x s Hx.
  apply (proj1 (In_sortByOrder x elements)) in Hx.
  apply parseElement_decides. intros l s' Hl.
  apply IH. pose proof (depth_le_depthList x elements Hx). lia.
Qed.

End ConverterOutcomes.

Section OutcomeProperties.
Context {E : Externals}.

Lemma processSlide_decides (ratio : Q) (item : RawSlide) :
  decides (slideConverts item) (processSlide ratio item).
Proof.
  unfold processSlide, slideConverts.
  apply (decides_bind (b := true)); [apply decides_newId |].
  intros id. apply parseElements_decides. lia.
Qed.

(** X12: a conversion throws a TypeError exactly when some leaf of the raw
    tree cannot be read: a table without a first cell or with a row
    shorter than the first, a chart without data, a 'custom' shape without
    a raw path, a shape whose table entry names a missing formula.  Text,
    image, math, audio, video and line elements never make it throw.  The
    same holds for a whole document: it is converted exactly when every
    slide is. *)
Theorem conversion_outcome (r : Q) :
  (forall fuel elements slide w,
     (depthList elements < fuel)%nat ->
     if forallb converts elements
     then exists slide' w', parseElements fuel r elements slide w = Ok slide' w'
     else exists w', parseElements fuel r elements slide w = Throw "TypeError" w') /\
  (forall json fixedViewport w,
     if forallb slideConverts (json_slides json)
     then exists slides w',
            processSlidesFromRawData json fixedViewport w = Ok slides w'
     else exists w',
            processSlidesFromRawData json fixedViewport w = Throw "TypeError" w').
Proof.
  split.
  - intros fuel elements slide w Hd.
    exact (parseElements_decides r elements slide Hd w).
  - intros json fixedViewport w.
    assert (H : decides (true && (true && forallb slideConverts (json_slides json)))
                  (processSlidesFromRawData json fixedViewport)).
    { unfold processSlidesFromRawData. apply decides_bind.
      - unfold setupRatio. unfold storeCall.
        destruct (json_size json) as [sz |]; [| apply decides_ret].
        destruct (truthy (size_width sz)); [| apply decides_ret].
        destruct fixedViewport; [apply decides_ret |].
        intros w0. cbn. eauto.
      - intros ratio. apply decides_bind.
        + destruct (json_themeColors json); [| apply decides_ret].
          intros w0. cbn. unfold storeCall. eauto.
        + intros _. apply decides_mapM. intros item _.
          apply processSlide_decides. }
    exact (H w).
Qed.

End OutcomeProperties.

(** X12, witness: a ragged table inside a group stops the conversion of
    the list and of the document that holds it. *)
Lemma conversion_outcome_witness :
  (exists w',
     parseElements (E := sampleExternals) 2 1 brokenDeck slide0 world0
       = Throw "TypeError" w') /\
  (exists w',
     processSlidesFromRawData (E := sampleExternals) brokenDocument false world0
       = Throw "TypeError" w').
Proof.
  split.
  - exact (proj1 (conversion_outcome (E := sampleExternals) 1)
             2%nat brokenDeck slide0 world0 ltac:(cbn; lia)).
  - exact (proj2 (conversion_outcome (E := sampleExternals) 1)
             brokenDocument false world0).
Defined.

(** ** Tables and charts *)

Lemma Forall2_seq_nth {B} (R : nat -> B -> Prop) (n : nat) :
  forall (s : nat) (ys : list B),
    Forall2 R (seq s n) ys ->
    List.length ys = n /\
    forall j y, nth_error ys j = Some y -> R (s + j)%nat y.
Proof.
  induction n as [| n IH]; intros s ys H; cbn in H; inversion H; subst.
  - split; [reflexivity |]. intros [| j] y Hj; discriminate.
  - destruct (IH _ _ H4) as [Hlen Hnth]. split; [cbn; lia |].
    intros [| j] y0 Hj; cbn in Hj.
    + inversion Hj; subst. rewrite Nat.add_0_r. assumption.
    + replace (s + S j)%nat with (S s + j)%nat by lia. apply Hnth. exact Hj.
Qed.

Section TableProperties.
Context {E : Externals}.

Lemma convertCell_Ok (c : RawCell) (r : Q) (w : World) (cell : TableCell)
    (w' : World) :
  convertCell c r w = Ok cell w' ->
  tc_text cell = dom_innerText (cellDom (c_text c)) /\
  tc_colspan cell = orElse (c_colSpan c) 1 /\
  tc_rowspan cell = orElse (c_rowSpan c) 1.
Proof.
  unfold convertCell. intros H. inv_bind H as id w1 Hid. inv_ret H.
  cbn. auto.
Qed.

(** X13: a converted table is rectangular: it has one row for each raw
    row, every row has as many cells as the first raw row, and the cell at
    a place comes from the raw cell at that place (its text as the browser
    reads it, its spans, 1 when the raw span is 0); raw cells beyond the
    length of the first row are left out. *)
Theorem table_is_rectangular (el : Common) (t : RawTable) (r : Q)
    (w : World) (e : PPTTableElement) (w' : World) :
  convertTable el t r w = Ok e w' ->
  exists row0,
    hd_error (tb_data t) = Some row0 /\ row0 <> [] /\
    Forall2
      (fun raw out =>
         List.length out = List.length row0 /\
         forall j cell,
           nth_error out j = Some cell ->
           exists c,
             nth_error raw j = Some c /\
             tc_text cell = dom_innerText (cellDom (c_text c)) /\
             tc_colspan cell = orElse (c_colSpan c) 1 /\
             tc_rowspan cell = orElse (c_rowSpan c) 1)
      (tb_data t) (tbe_data e).
Proof.
  unfold convertTable. intros H.
  destruct (tb_data t) as [| row0 rows]; [inv_ret H |].
  inv_bind H as data w1 Hdata.
  destruct row0 as [| firstCell row0]; [inv_ret H |].
  inv_bind H as id w2 Hid. inv_ret H. cbn [tbe_data].
  exists (firstCell :: row0). split; [reflexivity |]. split; [discriminate |].
  apply mapM_Forall2 in Hdata.
  eapply Forall2_impl; [| exact Hdata].
  intros raw out (w3 & w4 & Hrow). cbn beta in Hrow.
  apply mapM_Forall2 in Hrow. apply Forall2_seq_nth in Hrow.
  destruct Hrow as [Hlen Hnth]. split; [exact Hlen |].
  intros j cell Hj. specialize (Hnth j cell Hj).
  destruct Hnth as (w5 & w6 & Hcell). cbn [Nat.add] in Hcell.
  destruct (nth_error raw j) as [c |]; [| inv_ret Hcell].
  exists c. split; [reflexivity |]. exact (convertCell_Ok Hcell).
Qed.

End TableProperties.

(** X13, witness: the sample table of two rows and two columns. *)
Lemma table_is_rectangular_witness :
  exists e w',
    convertTable (E := sampleExternals) (box 0 0 400 100) (sampleTable [1; 3])
      1 world0 = Ok e w' /\
    map (@List.length _) (tbe_data e) = [2; 2]%nat.
Proof.
  do 2 eexists. split; [cbv; reflexivity |].
  destruct (table_is_rectangular (E := sampleExternals) (box 0 0 400 100)
              (sampleTable [1; 3]) 1 world0 ltac:(cbv; reflexivity))
    as (row0 & Hhd & _ & Hrows).
  injection Hhd as <-.
  inversion Hrows as [| ? ? ? ? [H1 _] Hrest]; subst.
  inversion Hrest as [| ? ? ? ? [H2 _] Hnil]; subst.
  inversion Hnil; subst. cbn [map].
  exact (f_equal2 (fun a b => [a; b]) H1 H2).
Defined.

Section ChartData.
Context {E : Externals}.

Lemma convertChart_Ok (el : Common) (c : RawChart) (w : World)
    (e : PPTChartElement) (w' : World) :
  convertChart el c w = Ok e w' ->
  ce_options e = snd (chartSwitch c) /\
  ((String.eqb (ch_chartType c) "scatterChart"
    || String.eqb (ch_chartType c) "bubbleChart" = true /\
    exists d0 rest,
      ch_data c = ScatterData (d0 :: rest) /\
      ce_data e =
        {| cd_labels :=
             mapIndex (fun index => ("坐标" ++ string_of_nat (index + 1))%string) d0;
           cd_legends := ["X"; "Y"];
           cd_series := d0 :: rest |}) \/
   (String.eqb (ch_chartType c) "scatterChart"
    || String.eqb (ch_chartType c) "bubbleChart" = false /\
    exists d0 rest,
      ch_data c = CommonData (d0 :: rest) /\
      ce_data e =
        {| cd_labels := ci_xlabels d0;
           cd_legends := map ci_key (d0 :: rest);
           cd_series := map (fun item => map cv_y (ci_values item))
                            (d0 :: rest) |})).
Proof.
  unfold convertChart. intros H.
  inv_bind H as data w1 Hdata. destruct (chartSwitch c) as [chartType options].
  inv_bind H as id w2 Hid. inv_bind H as th w3 Hth. inv_ret H.
  cbn [ce_options ce_data snd]. split; [reflexivity |].
  destruct (_ || _)%bool.
  - left. split; [reflexivity |].
    destruct (ch_data c) as [[| d0 rest] | d]; try inv_ret Hdata.
    exists d0, rest. split; reflexivity.
  - right. split; [reflexivity |].
    destruct (ch_data c) as [d | [| d0 rest]]; try inv_ret Hdata.
    exists d0, rest. split; reflexivity.
Qed.

Lemma chartSwitch_stack (c : RawChart) :
  (opt_stack (snd (chartSwitch c)) = Some true <->
   isStacked (ch_grouping c) = true /\
   In (ch_chartType c) stackableChartTypes) /\
  (opt_stack (snd (chartSwitch c)) = Some true \/
   opt_stack (snd (chartSwitch c)) = None).
Proof.
  unfold chartSwitch, stackableChartTypes.
  destruct (String.eqb_spec (ch_chartType c) "barChart") as [-> | H1];
    [cbn; destruct (isStacked _); split;
       [split; [intros _; tauto | reflexivity] | tauto
       | split; [discriminate | intros [H _]; discriminate] | tauto] |].
  destruct (String.eqb_spec (ch_chartType c) "bar3DChart") as [-> | H2];
    [cbn; destruct (isStacked _); split;
       [split; [intros _; tauto | reflexivity] | tauto
       | split; [discriminate | intros [H _]; discriminate] | tauto] |].
  destruct (String.eqb_spec (ch_chartType c) "lineChart") as [-> | H3];
    [cbn; destruct (isStacked _); split;
       [split; [intros _; tauto | reflexivity] | tauto
       | split; [discriminate | intros [H _]; discriminate] | tauto] |].
  destruct (String.eqb_spec (ch_chartType c) "line3DChart") as [-> | H4];
    [cbn; destruct (isStacked _); split;
       [split; [intros _; tauto | reflexivity] | tauto
       | split; [discriminate | intros [H _]; discriminate] | tauto] |].
  destruct (String.eqb_spec (ch_chartType c) "areaChart") as [-> | H5];
    [cbn; destruct (isStacked _); split;
       [split; [intros _; tauto | reflexivity] | tauto
       | split; [discriminate | intros [H _]; discriminate] | tauto] |].
  destruct (String.eqb_spec (ch_chartType c) "area3DChart") as [-> | H6];
    [cbn; destruct (isStacked _); split;
       [split; [intros _; tauto | reflexivity] | tauto
       | split; [discriminate | intros [H _]; discriminate] | tauto] |].
  cbn [orb].
  assert (Hnot : ~ In (ch_chartType c) ["barChart"; "bar3DChart"; "lineChart";
                    "line3DChart"; "areaChart"; "area3DChart"]).
  { cbn. intros [H | [H | [H | [H | [H | [H | []]]]]]]; congruence. }
  repeat match goal with
  | |- context [if ?b then _ else _] => destruct b
  end; cbn; (split; [split; [discriminate | intros [_ H]; contradiction] | tauto]).
Qed.

(** X14: the stacking option of a converted chart is set exactly when the
    raw grouping is 'stacked' or 'percentStacked' and the chart is a bar,
    line or area chart (flat or 3D), and is absent otherwise; for a chart
    with series, labels are those of the first series and legends and
    series follow the raw series one to one; for a scatter or bubble
    chart there is one label for each point of the first coordinate
    array. *)
Theorem chart_stack_and_data (el : Common) (c : RawChart) (w : World)
    (e : PPTChartElement) (w' : World) :
  convertChart el c w = Ok e w' ->
  (opt_stack (ce_options e) = Some true <->
   isStacked (ch_grouping c) = true /\
   In (ch_chartType c) stackableChartTypes) /\
  (opt_stack (ce_options e) = Some true \/ opt_stack (ce_options e) = None) /\
  (forall items, ch_data c = CommonData items ->
     List.length (cd_legends (ce_data e)) = List.length items /\
     List.length (cd_series (ce_data e)) = List.length items /\
     cd_legends (ce_data e) = map ci_key items /\
     cd_series (ce_data e) = map (fun item => map cv_y (ci_values item)) items /\
     Some (cd_labels (ce_data e)) = option_map ci_xlabels (hd_error items)) /\
  (forall arrays, ch_data c = ScatterData arrays ->
     cd_series (ce_data e) = arrays /\
     cd_legends (ce_data e) = ["X"; "Y"] /\
     Some (List.length (cd_labels (ce_data e)))
       = option_map (@List.length Q) (hd_error arrays)).
Proof.
  intros H. destruct (convertChart_Ok _ _ _ H) as [Hopt Hdata].
  rewrite Hopt. destruct (chartSwitch_stack c) as [Hs1 Hs2].
  split; [exact Hs1 |]. split; [exact Hs2 |]. split.
  - intros items Hitems.
    destruct Hdata as [(_ & d0 & rest & Hd & _) | (_ & d0 & rest & Hd & ->)];
      rewrite Hd in Hitems; [discriminate |].
    injection Hitems as <-. cbn [cd_legends cd_series cd_labels].
    rewrite !length_map. repeat split; reflexivity.
  - intros arrays Harrays.
    destruct Hdata as [(_ & d0 & rest & Hd & ->) | (_ & d0 & rest & Hd & _)];
      rewrite Hd in Harrays; [| discriminate].
    injection Harrays as <-. cbn [cd_legends cd_series cd_labels].
    unfold mapIndex. rewrite length_map, length_seq. repeat split; reflexivity.
Qed.

End ChartData.

(** X14, witness: a stacked line chart of two series. *)
Lemma chart_stack_and_data_witness :
  exists e w',
    convertChart (E := sampleExternals) (box 0 0 10 10) stackedChart world0
      = Ok e w' /\
    opt_stack (ce_options e) = Some true /\
    cd_legends (ce_data e) = ["2023"; "2024"] /\
    cd_series (ce_data e) = [[1; 2; 3]; [4; 5; 6]].
Proof.
  do 2 eexists. split; [cbv; reflexivity |].
  destruct (chart_stack_and_data (E := sampleExternals) (box 0 0 10 10)
              stackedChart world0 ltac:(cbv; reflexivity))
    as (Hstack & _ & Hitems & _).
  split.
  - apply Hstack. split; [reflexivity |]. cbn. tauto.
  - destruct (Hitems _ eq_refl) as (_ & _ & Hl & Hs & _).
    split; [exact Hl | exact Hs].
Defined.

(* ------------------------------------------------------------------ *)
(** ** Strings: scanning and matching *)

Local Open Scope string_scope.

Lemma append_assoc (a b c : string) : (a ++ b) ++ c = a ++ (b ++ c).
Proof. induction a as [| x a IH]; cbn; [reflexivity | rewrite IH; reflexivity]. Qed.

Lemma prefix_nil (s : string) : String.prefix EmptyString s = true.
Proof. destruct s; reflexivity. Qed.

Lemma prefix_cons (a b : ascii) (p s : string) :
  String.prefix (String a p) (String b s)
    = if Ascii.eqb a b then String.prefix p s else false.
Proof.
  cbn. destruct (ascii_dec a b) as [-> | Hne].
  - rewrite Ascii.eqb_refl. reflexivity.
  - destruct (Ascii.eqb_spec a b); [contradiction | reflexivity].
Qed.

Lemma prefix_app (p s : string) : String.prefix p (p ++ s) = true.
Proof.
  induction p as [| a p IH]; [apply prefix_nil |].
  change (String a p ++ s) with (String a (p ++ s)).
  rewrite prefix_cons, Ascii.eqb_refl. exact IH.
Qed.

Lemma prefix_drop (p s : string) :
  String.prefix p s = true -> s = p ++ drop (String.length p) s.
Proof.
  revert s. induction p as [| a p IH]; intros s H; [reflexivity |].
  destruct s as [| b s]; [discriminate |].
  rewrite prefix_cons in H. destruct (Ascii.eqb_spec a b) as [-> | _];
    [| discriminate].
  cbn. f_equal. apply IH. exact H.
Qed.

Lemma includes_unfold (p s : string) :
  includes p s =
    if String.prefix p s then true
    else match s with
         | EmptyString => false
         | String _ s' => includes p s'
         end.
Proof. destruct s; reflexivity. Qed.

Lemma span_spec (p : ascii -> bool) (s : string) :
  s = fst (span p s) ++ snd (span p s) /\
  allChars p (fst (span p s)) = true /\
  match snd (span p s) with
  | String c _ => p c = false
  | EmptyString => True
  end.
Proof.
  induction s as [| c s (IH1 & IH2 & IH3)]; cbn; [auto |].
  destruct (p c) eqn:Hc.
  - destruct (span p s) as [a b]. cbn in *.
    rewrite Hc, IH2. split; [f_equal; exact IH1 | auto].
  - cbn. auto.
Qed.

Lemma notQuote_false (c : ascii) : notQuote c = false -> c = quoteChar.
Proof.
  unfold notQuote. destruct (Ascii.eqb_spec c quoteChar); [auto | discriminate].
Qed.

(** What a match of the pattern at the head of a string gives. *)
Lemma matchSrcAt_spec (s g : string) :
  matchSrcAt s = Some g ->
  g <> EmptyString /\ allChars notQuote g = true /\
  String.prefix (srcAttribute g) s = true.
Proof.
  unfold matchSrcAt. intros H.
  destruct (String.prefix _ s) eqn:Hp; [| discriminate].
  apply prefix_drop in Hp. cbn [String.length] in Hp.
  destruct (span_spec notQuote (drop 5 s)) as (Hs & Hall & Hhd).
  destruct (span notQuote (drop 5 s)) as [g' rest]. cbn [fst snd] in *.
  destruct g' as [| c0 g']; [discriminate |].
  destruct rest as [| q rest]; [discriminate |].
  injection H as <-.
  apply notQuote_false in Hhd. subst q.
  split; [discriminate |]. split; [exact Hall |].
  assert (Hwhole : s = srcAttribute (String c0 g') ++ rest).
  { rewrite Hp, Hs. unfold srcAttribute.
    change (String quoteChar rest) with (String quoteChar EmptyString ++ rest).
    rewrite <- (append_assoc (String c0 g') (String quoteChar EmptyString) rest).
    reflexivity. }
  rewrite Hwhole at 1. apply prefix_app.
Qed.

Lemma matchSrc_spec (s g : string) :
  matchSrc s = Some g ->
  g <> EmptyString /\ allChars notQuote g = true /\
  includes (srcAttribute g) s = true.
Proof.
  induction s as [| c s IH]; intros H.
  - cbn [matchSrc] in H. destruct (matchSrcAt EmptyString) eqn:Hat;
      [| discriminate].
    injection H as ->. destruct (matchSrcAt_spec _ Hat) as (H1 & H2 & H3).
    rewrite includes_unfold, H3. auto.
  - cbn [matchSrc] in H. destruct (matchSrcAt (String c s)) eqn:Hat.
    + injection H as ->. destruct (matchSrcAt_spec _ Hat) as (H1 & H2 & H3).
      rewrite includes_unfold, H3. auto.
    + destruct (IH H) as (H1 & H2 & H3).
      rewrite includes_unfold, H3.
      destruct (String.prefix _ _); auto.
Qed.

(* ------------------------------------------------------------------ *)
(** ** Images *)

Section ImageProperties.
Context {E : Externals}.

Lemma convertEmf_spec (dataUrl : string) (w : World) :
  exists src w',
    convertEmfDataUrlToPng dataUrl w = Ok src w' /\
    calls w' = calls w /\ idsDrawn w' = idsDrawn w /\
    ((src = dataUrl /\ notices w' = (notices w ++ ["EMF 图片转换失败"])%list) \/
     (notices w' = notices w /\
      src <> EmptyString /\ allChars notQuote src = true /\
      exists base64 pngHtml,
        WMF2PNG_getPNG base64 = Some pngHtml /\
        includes (srcAttribute src) pngHtml = true)).
Proof.
  unfold convertEmfDataUrlToPng.
  set (base64 := match secondField dataUrl with
                 | Some f => orElseS f dataUrl
                 | None => dataUrl
                 end).
  destruct (WMF2PNG_getPNG base64) as [pngHtml |] eqn:Hpng.
  - destruct (matchSrc pngHtml) as [g |] eqn:Hm.
    + exists g, w. destruct (matchSrc_spec _ Hm) as (H1 & H2 & H3).
      repeat split; try reflexivity. right.
      repeat split; try assumption. exists base64, pngHtml. auto.
    + eexists _, _. split; [reflexivity |]. cbn. auto.
  - eexists _, _. split; [reflexivity |]. cbn. auto.
Qed.

(** X15: the conversion of an EMF image never throws and touches neither
    the store nor the id counter.  Either it returns the data URL it was
    given and leaves exactly one notice, 'EMF 图片转换失败', or it leaves
    no notice and returns the value of a src attribute found in the
    markup produced by the converter: a non-empty string without a double
    quote. *)
Theorem emf_conversion_falls_back (dataUrl : string) (w : World) :
  exists src w',
    convertEmfDataUrlToPng dataUrl w = Ok src w' /\
    calls w' = calls w /\ idsDrawn w' = idsDrawn w /\
    ((src = dataUrl /\ notices w' = (notices w ++ ["EMF 图片转换失败"])%list) \/
     (notices w' = notices w /\
      src <> EmptyString /\ allChars notQuote src = true /\
      exists base64 pngHtml,
        WMF2PNG_getPNG base64 = Some pngHtml /\
        includes (srcAttribute src) pngHtml = true)).
Proof. apply convertEmf_spec. Qed.

(** X16: the image branch always returns one image element, draws one id
    and sends nothing to the store.  A source that is neither an EMF data
    URL nor a name ending in .emf passes through unchanged and without a
    notice.  The clip shape of the result is 'rect' or one of the ten
    listed shapes; the element has no clip exactly when the raw image has
    no crop rectangle and its geometry is not one of the listed shapes;
    a clip without a crop rectangle covers the whole image; the element
    has an outline exactly when the raw border width is not zero. *)
Theorem image_source_and_clip (el : Common) (i : RawImage) (ratio : Q)
    (w : World) :
  exists e w',
    convertImage el i ratio w = Ok e w' /\
    calls w' = calls w /\ idsDrawn w' = S (idsDrawn w) /\
    ie_id e = nanoid (idsDrawn w) /\
    (startsWith "data:image/x-emf" (i_src i) || endsWithEmf (i_src i) = false ->
     ie_src e = i_src i /\ notices w' = notices w) /\
    (forall c, ie_clip e = Some c ->
       (clip_shape c = "rect" \/ In (clip_shape c) clipShapeTypes) /\
       (i_rect i = None -> clip_range c = ((0, 0), (100, 100)))) /\
    (ie_clip e = None <->
     i_rect i = None /\
     forall g, i_geom i = Some g -> has clipShapeTypes g = false) /\
    (ie_outline e = None <-> borderWidth (i_border i) == 0).
Proof.
  unfold convertImage, bind at 1.
  assert (Hsrc : exists src w1,
             (if startsWith "data:image/x-emf" (i_src i) || endsWithEmf (i_src i)
              then convertEmfDataUrlToPng (i_src i)
              else ret (i_src i)) w = Ok src w1 /\
             calls w1 = calls w /\ idsDrawn w1 = idsDrawn w /\
             (startsWith "data:image/x-emf" (i_src i) || endsWithEmf (i_src i)
                = false -> src = i_src i /\ notices w1 = notices w)).
  { destruct (_ || _)%bool.
    - destruct (convertEmf_spec (i_src i) w) as (src & w1 & H & Hc & Hi & _).
      exists src, w1. repeat split; auto; discriminate.
    - exists (i_src i), w. repeat split; reflexivity. }
  destruct Hsrc as (src & w1 & -> & Hc & Hi & Hplain).
  unfold bind, newId, ret. eexists _, _. split; [reflexivity |].
  cbn [calls idsDrawn notices ie_id ie_src ie_clip ie_outline].
  rewrite Hc, Hi. split; [reflexivity |]. split; [reflexivity |].
  split; [reflexivity |]. split; [exact Hplain |].
  assert (Hgeom : forall g,
             (if truthyS g && has clipShapeTypes g then Some g else None)
               = (if has clipShapeTypes g then Some g else None)).
  { intros g. destruct g; [reflexivity |]. reflexivity. }
  assert (Hin : forall g, has clipShapeTypes g = true -> In g clipShapeTypes).
  { intros g Hg. unfold has in Hg. apply existsb_exists in Hg as (x & Hx & Heq).
    apply String.eqb_eq in Heq. subst. exact Hx. }
  split; [| split].
  - intros c Hclip. destruct (i_rect i) as [r |].
    + injection Hclip as <-. cbn [clip_shape clip_range].
      split; [| discriminate].
      destruct (i_geom i) as [g |]; [| auto].
      rewrite Hgeom. destruct (has clipShapeTypes g) eqn:Hg; auto.
    + destruct (i_geom i) as [g |]; [| discriminate].
      rewrite Hgeom in Hclip. destruct (has clipShapeTypes g) eqn:Hg;
        [| discriminate].
      injection Hclip as <-. cbn [clip_shape clip_range]. auto.
  - destruct (i_rect i) as [r |].
    + split; [discriminate | intros [H _]; discriminate].
    + destruct (i_geom i) as [g |].
      * rewrite Hgeom. destruct (has clipShapeTypes g) eqn:Hg.
        -- split; [discriminate |]. intros [_ H].
           specialize (H g eq_refl). congruence.
        -- split; [| reflexivity]. intros _. split; [reflexivity |].
           intros g' Hg'. injection Hg' as <-. exact Hg.
      * split; [| reflexivity]. intros _. split; [reflexivity |].
        intros g Hg. discriminate.
  - unfold truthy. destruct (Qeq_bool (borderWidth (i_border i)) 0) eqn:Hb; cbn.
    + split; [| reflexivity]. intros _. apply Qeq_bool_iff. exact Hb.
    + split; [discriminate |]. intros H. apply Qeq_bool_iff in H. congruence.
Qed.

End ImageProperties.

(* ------------------------------------------------------------------ *)
(** ** Font sizes *)

Lemma matchFontSize_prefix (s : string) :
  String.prefix "font-size:" s = false -> matchFontSize s = None.
Proof. unfold matchFontSize. intros ->. reflexivity. Qed.

Lemma convertFontSizeFrom_plain (fuel : nat) (ratio : Q) :
  forall html : string,
    includes "font-size:" html = false ->
    convertFontSizeFrom fuel html ratio = html.
Proof.
  induction fuel as [| fuel IH]; intros html H; [reflexivity |].
  rewrite includes_unfold in H.
  destruct (String.prefix "font-size:" html) eqn:Hp; [discriminate |].
  cbn [convertFontSizeFrom]. rewrite (matchFontSize_prefix _ Hp).
  destruct html as [| c html]; [reflexivity |].
  rewrite (IH html H). reflexivity.
Qed.



(* ------------------------------------------------------------------ *)
(** ** The document as a whole *)

Section DocumentProperties.
Context {E : Externals}.

Lemma processSlide_remark (ratio : Q) (item : RawSlide) (w : World)
    (slide : Slide) (w' : World) :
  processSlide ratio item w = Ok slide w' ->
  slide_remark slide = sl_note item.
Proof.
  unfold processSlide. intros H. inv_bind H as id w1 Hid.
  destruct (parseElements_appends _ _ _ _ _ H) as [new ->]. reflexivity.
Qed.

Lemma slides_keepCalls (ratio : Q) (l : list RawSlide) :
  keepsCalls (mapM (processSlide ratio) l).
Proof. apply keepsCalls_mapM. intros x. apply processSlide_frame. Qed.

(** X18: the store calls of an import are fixed by the head of the
    document, whether the conversion of the slides returns or throws: one
    viewport-width update when a non-zero width is declared and the
    fixed-viewport option is off, then one theme update when theme
    colours are declared, and nothing else; nothing is undone when a
    slide fails.  When the import returns, it returns one slide for each
    raw slide, in order, with the raw note as remark and the background
    made from the raw fill. *)
Theorem document_store_calls_and_slides (json : RawDocument)
    (fixedViewport : bool) (w : World) :
  (forall w',
     worldOf (processSlidesFromRawData json fixedViewport w) = Some w' ->
     calls w' =
       (calls w ++
        match json_size json with
        | Some sz =>
            if truthy (size_width sz) && negb fixedViewport
            then [SetViewportSize (size_width sz * (96 / 72))] else []
        | None => []
        end ++
        match json_themeColors json with
        | Some tc => [SetTheme tc]
        | None => []
        end)%list) /\
  (forall slides w',
     processSlidesFromRawData json fixedViewport w = Ok slides w' ->
     Forall2
       (fun item slide =>
          slide_remark slide = sl_note item /\
          slide_background slide = backgroundOf (sl_fill item))
       (json_slides json) slides).
Proof.
  split.
  - intros w' H. unfold processSlidesFromRawData, setupRatio in H.
    destruct (json_size json) as [sz |];
      [destruct (truthy (size_width sz)); [destruct fixedViewport |] |];
      destruct (json_themeColors json) as [tc |];
      cbn [bind ret storeCall andb negb] in H;
      rewrite (slides_keepCalls _ _ _ H); cbn [calls andb negb];
      rewrite <- ?app_assoc, ?app_nil_r; reflexivity.
  - intros slides w' H. unfold processSlidesFromRawData in H.
    inv_bind H as ratio w1 Hratio. inv_bind H as u w2 Htheme.
    apply mapM_Forall2 in H.
    eapply Forall2_impl; [| exact H].
    intros item slide (wa & wb & Hrun). split.
    + exact (processSlide_remark _ _ _ Hrun).
    + exact (processSlide_background _ _ _ Hrun).
Qed.

End DocumentProperties.

(** X18, witness: the broken document declares its width; its import
    throws, and the viewport update remains. *)
Lemma document_store_calls_and_slides_witness :
  exists e w',
    processSlidesFromRawData (E := sampleExternals) brokenDocument false world0
      = Throw e w' /\
    calls w' = [SetViewportSize (1280 * (96 / 72))].
Proof.
  do 2 eexists. split; [cbv; reflexivity |].
  exact (proj1 (document_store_calls_and_slides (E := sampleExternals)
                  brokenDocument false world0) _ eq_refl).
Defined.
